(** * Thalassa Stone Rooms virtual tour: navigation and interaction engine

    A shallow embedding of the tour core (dollhouse / 360 panorama viewer),
    of the legacy dollhouse-only viewer [tour/tour.js] and of the manifest
    script [scripts/generate_pano_manifest.mjs].

    Conventions.
    - JavaScript numbers that carry geometry, angles or time are real numbers
      ([R]); the values NaN and +-Infinity are written out where the code can
      produce them (the comparator of the manifest sort, the sentinel key).
      The numbers parsed from file names are integers rounded to a Number
      (53 significant bits, ties to even, infinite from 2^1024 on).
    - Strings are [string]; the regular expressions of the source only test
      ASCII classes, every other character is neither a digit nor a word
      character.
    - Object references into [panoGraph] ([prev], [next]) are array slots.
    - Calls into three.js that only refresh derived data
      ([updateProjectionMatrix], [lookAt], [dispose]) and the DOM chrome
      ([classList], label text) are not part of the modelled state.
      [OrbitControls.update] rewrites the camera pose and is a parameter. *)

From Stdlib Require Import List Bool Arith ZArith NArith Lia.
From Stdlib Require Import Ascii String.
From Stdlib Require Import Sorted Permutation.
From Stdlib Require Import Reals Lra Psatz.
Import ListNotations.

Set Implicit Arguments.

(* ================================================================== *)
(** * JavaScript built-ins used by the sources *)
(* ================================================================== *)

Module Js.

(** Result of a numeric expression that may leave the finite range; the
    finite values that occur here are integers. *)
Inductive num : Type :=
| Fin (z : Z)
| PosInf
| NegInf
| NaN.

(** The Number nearest to a natural number [n] of 2^53 or more: [n] keeps
    its 53 leading bits, rounded to nearest with ties to the even
    significand. *)
Definition roundBig (n : Z) : Z :=
  let k := (Z.log2 n - 52)%Z in
  let q := (n / 2 ^ k)%Z in
  let r := (n mod 2 ^ k)%Z in
  let half := (2 ^ (k - 1))%Z in
  let up := (half <? r)%Z || ((r =? half)%Z && Z.odd q) in
  ((if up then q + 1 else q) * 2 ^ k)%Z.

(** The Number value of a mathematical integer: the integer itself when
    its magnitude is below 2^53, else the magnitude rounded as above, and
    infinite once the rounded magnitude reaches 2^1024. *)
Definition toNumber (z : Z) : num :=
  let a := Z.abs z in
  if (a <? 2 ^ 53)%Z then Fin z
  else
    let m := roundBig a in
    if (2 ^ 1024 <=? m)%Z then (if (z <? 0)%Z then NegInf else PosInf)
    else Fin (Z.sgn z * m).

(** [a - b] on such values: the exact difference, rounded to a Number
    (IEEE: inf - inf is NaN). *)
Definition sub (a b : num) : num :=
  match a, b with
  | NaN, _ | _, NaN => NaN
  | Fin x, Fin y => toNumber (x - y)
  | Fin _, PosInf => NegInf
  | Fin _, NegInf => PosInf
  | PosInf, PosInf => NaN
  | PosInf, _ => PosInf
  | NegInf, NegInf => NaN
  | NegInf, _ => NegInf
  end.

(** [v > 0]; false on NaN. *)
Definition gtZero (v : num) : bool :=
  match v with
  | Fin z => (0 <? z)%Z
  | PosInf => true
  | NegInf | NaN => false
  end.

(** [\d] *)
Definition isDigit (c : ascii) : bool :=
  let n := nat_of_ascii c in (48 <=? n) && (n <=? 57).

(** [\w] without the unicode and ignore-case flags: [A-Za-z0-9_]. *)
Definition isWord (c : ascii) : bool :=
  let n := nat_of_ascii c in
  isDigit c || ((65 <=? n) && (n <=? 90)) || ((97 <=? n) && (n <=? 122))
  || (n =? 95).

Fixpoint all (p : ascii -> bool) (s : string) : bool :=
  match s with
  | EmptyString => true
  | String c r => p c && all p r
  end.

Definition nonEmpty (s : string) : bool :=
  match s with EmptyString => false | String _ _ => true end.

(** Does [/\.\w+$/] match with the match starting at the head of [s]? *)
Definition extHere (s : string) : bool :=
  match s with
  | String c r => (nat_of_ascii c =? 46) && nonEmpty r && all isWord r
  | EmptyString => false
  end.

(** [s.replace(/\.\w+$/, '')]: the leftmost match is removed; it reaches
    the end of the string, so nothing follows it. *)
Fixpoint replaceExt (s : string) : string :=
  if extHere s then EmptyString
  else match s with
       | EmptyString => EmptyString
       | String c r => String c (replaceExt r)
       end.

(** [s.match(/(\d+)$/)]: capture group 1 of the leftmost match, or [None]
    for a null result. *)
Fixpoint matchDigits (s : string) : option string :=
  if nonEmpty s && all isDigit s then Some s
  else match s with
       | EmptyString => None
       | String _ r => matchDigits r
       end.

Definition digitVal (c : ascii) : N := N.of_nat (nat_of_ascii c - 48).

Fixpoint parseDigits (acc : N) (s : string) : N :=
  match s with
  | EmptyString => acc
  | String c r => parseDigits (10 * acc + digitVal c)%N r
  end.

(** [parseInt(d, 10)] on a non-empty run of decimal digits (the only
    argument the sources pass): the Number value of the integer the digits
    denote, so a run above 2^53 is rounded and a run of some 309 digits or
    more gives [Infinity]. (The language lets an engine drop the digits
    after the 20th before it rounds; the engines round the whole run.) *)
Definition parseInt10 (d : string) : num :=
  toNumber (Z.of_N (parseDigits 0 d)).

Definition toLower (c : ascii) : ascii :=
  let n := nat_of_ascii c in
  if (65 <=? n) && (n <=? 90) then ascii_of_nat (n + 32) else c.

Definition lower (s : string) : string :=
  (fix go s := match s with
               | EmptyString => EmptyString
               | String c r => String (toLower c) (go r)
               end) s.

(** Is [suf] the whole of [s] from its head? *)
Definition isSuffixHere (suf s : string) : bool := String.eqb suf s.

(** [/\.jpe?g$/i.test(s)] *)
Fixpoint testJpeg (s : string) : bool :=
  let l := lower s in
  if isSuffixHere ".jpg" l || isSuffixHere ".jpeg" l then true
  else match s with
       | EmptyString => false
       | String _ r => testJpeg r
       end.

Section ArraySort.
Variable A : Type.
Variable comparefn : A -> A -> num.

(** Insert [x], which preceded every element of the sorted [l] in the
    original array: it moves right only past elements [y] with
    [comparefn x y > 0]. *)
Fixpoint insert (x : A) (l : list A) : list A :=
  match l with
  | [] => [x]
  | y :: r => if gtZero (comparefn x y) then y :: insert x r
              else x :: l
  end.

(** [Array.prototype.sort(comparefn)]: a stable sort (ECMAScript 2019);
    a NaN comparison counts as equal. For a comparator that orders by a
    key every stable sort returns this list. *)
Fixpoint sort (l : list A) : list A :=
  match l with
  | [] => []
  | x :: r => insert x (sort r)
  end.
End ArraySort.

(** Truthiness of a number-valued property such as [userData.panoIndex]. *)
Definition truthy (v : num) : bool :=
  match v with
  | Fin z => negb (z =? 0)%Z
  | NaN => false
  | PosInf | NegInf => true
  end.

Definition eqb (a b : num) : bool :=
  match a, b with
  | Fin x, Fin y => (x =? y)%Z
  | PosInf, PosInf | NegInf, NegInf => true
  | _, _ => false
  end.

End Js.

(* ================================================================== *)
(** * scripts/generate_pano_manifest.mjs *)
(* ================================================================== *)

Module Manifest.

(** [trailingNumber(filename)] of the manifest script. *)
Definition trailingNumber (filename : string) : Js.num :=
  let match_ := Js.matchDigits (Js.replaceExt filename) in
  match match_ with
  | Some d => Js.parseInt10 d
  | None => Js.PosInf
  end.

(** [readdirSync(panoDir).filter(...).sort(...)] for a directory listing. *)
Definition files (listing : list string) : list string :=
  Js.sort (fun a b => Js.sub (trailingNumber a) (trailingNumber b))
          (filter Js.testJpeg listing).

Definition count (listing : list string) : nat := List.length (files listing).

End Manifest.

(* ================================================================== *)
(** * tour/tour.js (legacy dollhouse viewer): teleport easing *)
(* ================================================================== *)

Module Legacy.
Local Open Scope R_scope.

(** [eased] of [animateCamera], as a function of [progress]. *)
Definition eased (progress : R) : R :=
  if Rlt_dec progress 0.5
  then 4 * progress * progress * progress
  else 1 - (-2 * progress + 2) ^ 3 / 2.

(** [progress = Math.min(elapsed / duration, 1)] with [duration = 1000]. *)
Definition progress (startTime currentTime : R) : R :=
  Rmin ((currentTime - startTime) / 1000) 1.

End Legacy.

(* ================================================================== *)
(** * The tour core: panorama graph, mode machine, gestures *)
(* ================================================================== *)

Module Tour.

Record Vec3 : Type := { vx : R; vy : R; vz : R }.

(** ** Panorama manifest and graph *)

(** An entry of [panoGraph]. [prev] and [next] hold the array slot of the
    node they refer to. *)
Record PanoNode : Type := {
  index : Js.num;
  file : string;
  arrayIdx : nat;
  prev : nat;
  next : nat
}.

(** [trailingNumber(filename)] of the tour core. *)
Definition trailingNumber (filename : string) : Js.num :=
  let m := Js.matchDigits (Js.replaceExt filename) in
  match m with
  | Some d => Js.parseInt10 d
  | None => Js.PosInf
  end.

(** [files.sort((a, b) => trailingNumber(a) - trailingNumber(b))] *)
Definition sortFiles (files : list string) : list string :=
  Js.sort (fun a b => Js.sub (trailingNumber a) (trailingNumber b)) files.

(** [(i - 1 + panoGraph.length) % panoGraph.length]; [%] is the remainder
    with the sign of the dividend. *)
Definition prevSlot (len i : nat) : nat :=
  Z.to_nat (Z.rem (Z.of_nat i - 1 + Z.of_nat len) (Z.of_nat len)).

(** [(i + 1) % panoGraph.length] *)
Definition nextSlot (len i : nat) : nat :=
  Z.to_nat (Z.rem (Z.of_nat i + 1) (Z.of_nat len)).

(** [files.map((file, i) => ...)] followed by the loop that sets [prev]
    and [next]; [i] is the slot of the head of [files]. *)
Fixpoint mapNodes (len i : nat) (files : list string) : list PanoNode :=
  match files with
  | [] => []
  | f :: r =>
      {| index := trailingNumber f; file := f; arrayIdx := i;
         prev := prevSlot len i; next := nextSlot len i |}
      :: mapNodes len (S i) r
  end.

Definition buildGraph (files : list string) : list PanoNode :=
  let sorted := sortFiles files in
  mapNodes (List.length sorted) 0 sorted.

(** What [fetch('../360_casa/manifest.json')] delivers. *)
Inductive Fetched : Type :=
| FetchFailed                         (* not ok, network or JSON error *)
| Json (files : option (list string)) (* [data.files], may be missing *).

(** The graph [loadManifest] leaves in [panoGraph], given the old one. *)
Definition loadManifest (res : Fetched) (old : list PanoNode)
  : list PanoNode :=
  match res with
  | FetchFailed => old
  | Json None => buildGraph []
  | Json (Some files) => buildGraph files
  end.

(** [panoGraph.find(p => p.index === num) || null] *)
Definition getPanoByNumber (panoGraph : list PanoNode) (num : Js.num)
  : option PanoNode :=
  find (fun p => Js.eqb (index p) num) panoGraph.

(** The node a reference held in slot form points to. *)
Definition deref (panoGraph : list PanoNode) (slot : nat)
  : option PanoNode := nth_error panoGraph slot.

(** Slot reached from slot [i] by following [next] once. *)
Definition stepNext (panoGraph : list PanoNode) (i : nat) : nat :=
  match deref panoGraph i with
  | Some p => next p
  | None => i
  end.

Definition stepPrev (panoGraph : list PanoNode) (i : nat) : nat :=
  match deref panoGraph i with
  | Some p => prev p
  | None => i
  end.

(** Slots visited by [k] further [next] steps from slot [i], [i] first. *)
Fixpoint walk (panoGraph : list PanoNode) (k i : nat) : list nat :=
  match k with
  | O => []
  | S k' => i :: walk panoGraph k' (stepNext panoGraph i)
  end.

(** ** Configuration tables *)

Local Open Scope R_scope.

(** [PANO_NORTH_OFFSET[i]] *)
Definition PANO_NORTH_OFFSET (i : Js.num) : option R :=
  match i with
  | Js.Fin 1 => Some (-140)
  | Js.Fin 2 => Some 75
  | Js.Fin 3 => Some (-40)
  | Js.Fin 4 => Some 0
  | Js.Fin 5 => Some 190
  | Js.Fin 6 => Some 90
  | Js.Fin 7 => Some 0
  | _ => None
  end.

(** [PANO_CONNECTIONS[i]] *)
Definition PANO_CONNECTIONS (i : Js.num) : option (list Js.num) :=
  match i with
  | Js.Fin 1 => Some [Js.Fin 2; Js.Fin 3]
  | Js.Fin 2 => Some [Js.Fin 1]
  | Js.Fin 3 => Some [Js.Fin 1; Js.Fin 4; Js.Fin 6]
  | Js.Fin 4 => Some [Js.Fin 3; Js.Fin 5]
  | Js.Fin 5 => Some [Js.Fin 4]
  | Js.Fin 6 => Some [Js.Fin 3; Js.Fin 7]
  | Js.Fin 7 => Some [Js.Fin 6]
  | _ => None
  end.

(** [DEFAULT_HOTSPOTS[i]] *)
Definition DEFAULT_HOTSPOTS (i : Js.num) : option Vec3 :=
  match i with
  | Js.Fin 1 => Some {| vx := 2; vy := 1; vz := 1 |}
  | Js.Fin 2 => Some {| vx := 1; vy := 1; vz := 4.5 |}
  | Js.Fin 3 => Some {| vx := -0.6; vy := 1; vz := 0.3 |}
  | Js.Fin 4 => Some {| vx := -2; vy := 1; vz := 0.75 |}
  | Js.Fin 5 => Some {| vx := -3.3; vy := 1; vz := 2 |}
  | Js.Fin 6 => Some {| vx := 1; vy := 1; vz := -0.5 |}
  | Js.Fin 7 => Some {| vx := 3; vy := 1; vz := -3 |}
  | _ => None
  end.

(** ** Numeric helpers of JavaScript and three.js *)

(** [Math.atan2(y, x)] *)
Definition atan2 (y x : R) : R :=
  if Rlt_dec 0 x then atan (y / x)
  else if Rlt_dec x 0
       then (if Rle_dec 0 y then atan (y / x) + PI else atan (y / x) - PI)
       else if Rlt_dec 0 y then PI / 2
            else if Rlt_dec y 0 then - PI / 2 else 0.

(** [THREE.MathUtils.radToDeg] and [degToRad] *)
Definition radToDeg (r : R) : R := r * (180 / PI).
Definition degToRad (d : R) : R := d * (PI / 180).

(** [Vector3.lerpVectors(v1, v2, alpha)] *)
Definition lerpVectors (v1 v2 : Vec3) (alpha : R) : Vec3 :=
  {| vx := vx v1 + (vx v2 - vx v1) * alpha;
     vy := vy v1 + (vy v2 - vy v1) * alpha;
     vz := vz v1 + (vz v2 - vz v1) * alpha |}.

(** [a || b] on values that are a number or [undefined]. *)
Definition orElse (a b : option R) : option R :=
  match a with
  | Some x => if Req_dec_T x 0 then b else a
  | None => b
  end.

(** [v || 0] *)
Definition orZero (v : option R) : R :=
  match v with Some x => x | None => 0 end.

(** The cubic ease-in-out [e] of [animateCamera], as a function of [p]. *)
Definition ease (p : R) : R :=
  if Rlt_dec p 0.5 then 4 * p * p * p else 1 - (-2 * p + 2) ^ 3 / 2.

(** ** Labels *)

Definition isSep (c : ascii) : bool :=
  (nat_of_ascii c =? 45)%nat || (nat_of_ascii c =? 95)%nat.

Fixpoint dropDigits (s : string) : string :=
  match s with
  | String c r => if Js.isDigit c then dropDigits r else s
  | EmptyString => s
  end.

(** Does [/[-_]\d+\.jpe?g$/i] match from the head of [s]? *)
Definition numberedJpegHere (s : string) : bool :=
  match s with
  | String c (String d r) =>
      isSep c && Js.isDigit d &&
      (let l := Js.lower (dropDigits r) in
       String.eqb l ".jpg" || String.eqb l ".jpeg")
  | _ => false
  end.

Fixpoint stripNumberedJpeg (s : string) : string :=
  if numberedJpegHere s then EmptyString
  else match s with
       | EmptyString => EmptyString
       | String c r => String c (stripNumberedJpeg r)
       end.

Fixpoint spaces (s : string) : string :=
  match s with
  | EmptyString => EmptyString
  | String c r => String (if isSep c then " "%char else c) (spaces r)
  end.

(** [file.replace(/[-_]\d+\.jpe?g$/i, '').replace(/[-_]/g, ' ')] *)
Definition friendlyName (file : string) : string :=
  spaces (stripNumberedJpeg file).

(** ** Scene objects and state *)

Inductive Mode : Type := Dollhouse | Panorama.

Record Camera : Type := {
  position : Vec3;
  fov : R;
  near : R;
  far : R
}.

(** A floor circle: the group made by [createFloorCircle]; [goal] is the
    node its [onClick] closure navigates to. *)
Record Marker : Type := {
  label : string;
  yawDeg : R;
  place : Vec3;
  goal : PanoNode
}.

Record HotspotMesh : Type := {
  panoIndex : Js.num;
  meshPosition : Vec3;
  meshVisible : bool
}.

(** The variables that save the camera across a mode switch. *)
Record Saved : Type := {
  savedCameraPos : option Vec3;
  savedControlsTarget : option Vec3;
  savedCameraFov : R;
  savedCameraNear : R;
  savedCameraFar : R
}.

Record Pointer : Type := {
  panoPointerDown : bool;
  panoPointerX : R;
  panoPointerY : R;
  panoPinchDist : R;
  pointerDownTime : R;
  pointerDownPos : R * R
}.

Record Pano : Type := {
  panoGraph : list PanoNode;
  currentPanoIndex : Z;
  panoSphere : option bool;           (* null, or [panoSphere.visible] *)
  panoArrows : list Marker;
  panoYaw : R;
  panoPitch : R;
  panoFov : R;
  currentPanoTexture : option string; (* null, or the file it shows *)
  panoFading : bool;
  panoFadeProgress : R;
  loading : list PanoNode             (* texture loads still in flight *)
}.

Record Touch : Type := { touchX : R; touchY : R }.

(** The properties of a DOM event the handlers read. [None] is
    [undefined]. A touch list a handler reads is never empty when that
    handler runs, so it is given by its first entry and the rest. *)
Record Event : Type := {
  clientX : option R;
  clientY : option R;
  touches : option (Touch * list Touch);
  changedTouches : option (Touch * list Touch);
  deltaY : R;
  key : string
}.

Definition touchCount (ts : option (Touch * list Touch)) : nat :=
  match ts with
  | Some (_, r) => S (List.length r)
  | None => 0%nat
  end.

Definition firstX (ts : option (Touch * list Touch)) : option R :=
  match ts with Some (t, _) => Some (touchX t) | None => None end.

Definition firstY (ts : option (Touch * list Touch)) : option R :=
  match ts with Some (t, _) => Some (touchY t) | None => None end.

(** [getTouchDist(e)]; only called when [e.touches.length === 2]. *)
Definition getTouchDist (e : Event) : R :=
  match touches e with
  | Some (t0, t1 :: _) =>
      let dx := touchX t0 - touchX t1 in
      let dy := touchY t0 - touchY t1 in
      sqrt (dx * dx + dy * dy)
  | _ => 0
  end.

(** [createFloorCircle(label, yawDeg, isNext, onClick)]: the group sits on
    the floor at radius 25 along [yawDeg] (yaw 0 is +X). *)
Definition createFloorCircle (lbl : string) (yaw : R) (onClick : PanoNode)
  : Marker :=
  let theta := degToRad yaw in
  let r := 25 in
  {| label := lbl; yawDeg := yaw;
     place := {| vx := r * cos theta; vy := -12; vz := r * sin theta |};
     goal := onClick |}.

(** ** Named viewpoints, look direction and pulses *)

(** An entry of [SPOTS]. *)
Record Spot : Type := {
  spotName : string;
  spotPosition : Vec3;
  spotTarget : Vec3
}.

(** The entries of [SPOTS] as the file declares the table (its own keys;
    [lookupSpot] adds what the prototype answers); [fitCameraToModel]
    later replaces the entry of [overview]. *)
Definition SPOTS (spotKey : string) : option Spot :=
  if String.eqb spotKey "overview"
  then Some {| spotName := "Overview";
               spotPosition := {| vx := 8; vy := 6; vz := 8 |};
               spotTarget := {| vx := 0; vy := 0; vz := 0 |} |}
  else if String.eqb spotKey "front"
  then Some {| spotName := "Front";
               spotPosition := {| vx := 0; vy := 8; vz := 10 |};
               spotTarget := {| vx := 0; vy := 0; vz := 0 |} |}
  else if String.eqb spotKey "top"
  then Some {| spotName := "Top Down";
               spotPosition := {| vx := 0; vy := 12; vz := 0.1 |};
               spotTarget := {| vx := 0; vy := 0; vz := 0 |} |}
  else if String.eqb spotKey "side"
  then Some {| spotName := "Side";
               spotPosition := {| vx := 10; vy := 4; vz := 0 |};
               spotTarget := {| vx := 0; vy := 0; vz := 0 |} |}
  else None.

(** The property names every object literal answers from
    [Object.prototype]. *)
Definition inheritedKey (k : string) : bool :=
  existsb (String.eqb k)
    ["constructor"; "toString"; "toLocaleString"; "valueOf";
     "hasOwnProperty"; "isPrototypeOf"; "propertyIsEnumerable";
     "__proto__"; "__defineGetter__"; "__defineSetter__";
     "__lookupGetter__"; "__lookupSetter__"]%string.

(** What [SPOTS[spotKey]] evaluates to: an entry of the table, a member
    inherited from [Object.prototype] (truthy, with no [position]), or
    [undefined]. *)
Inductive Found : Type :=
| OwnSpot (spot : Spot)
| Inherited
| Undefined.

(** [spots[spotKey]] for a table given by its own entries: own entries
    first, then the prototype. *)
Definition lookupSpot (spots : string -> option Spot) (spotKey : string)
  : Found :=
  match spots spotKey with
  | Some spot => OwnSpot spot
  | None => if inheritedKey spotKey then Inherited else Undefined
  end.

(** The variables the [animateCamera] closure of [teleportTo] keeps. *)
Record Animation : Type := {
  startTime : R;
  startPos : Vec3;
  endPos : Vec3;
  startTarget : Vec3;
  endTarget : Vec3
}.

(** [dist] of [fitCameraToModel] for a bounding box of the given size and
    a camera field of view of [fovDeg] degrees. *)
Definition fitDistance (size : Vec3) (fovDeg : R) : R :=
  let maxDim := Rmax (Rmax (vx size) (vy size)) (vz size) in
  let fovRad := fovDeg * (PI / 180) in
  (maxDim / (2 * tan (fovRad / 2))) * 1.5.

(** [diag] of [fitCameraToModel]. *)
Definition fitDiagonal (size : Vec3) : R :=
  sqrt (vx size ^ 2 + vy size ^ 2 + vz size ^ 2).

(** The entry [fitCameraToModel] writes to [SPOTS.overview]; the name is
    kept. *)
Definition fittedOverview (old : Spot) (center size : Vec3) (fovDeg : R)
  : Spot :=
  let dist := fitDistance size fovDeg in
  {| spotName := spotName old;
     spotPosition := {| vx := vx center + dist * 0.7;
                        vy := vy center + dist * 0.5;
                        vz := vz center + dist * 0.7 |};
     spotTarget := {| vx := vx center; vy := vy center; vz := vz center |}
  |}.

(** The table [SPOTS] after [fitCameraToModel] ran with a model. *)
Definition spotsAfterFit (spots : string -> option Spot)
  (center size : Vec3) (fovDeg : R) (spotKey : string) : option Spot :=
  if String.eqb spotKey "overview"
  then match spots "overview"%string with
       | Some old => Some (fittedOverview old center size fovDeg)
       | None => None
       end
  else spots spotKey.

(** The point [updatePanoCamera] turns the camera to, for the yaw and
    pitch accumulators (degrees). *)
Definition lookTarget (yaw pitch : R) : Vec3 :=
  let phi := degToRad (90 - pitch) in
  let theta := degToRad yaw in
  {| vx := sin phi * cos theta; vy := cos phi; vz := sin phi * sin theta |}.

(** [updateHotspots(time)]: scale and opacity of the ring of a hotspot
    whose [panoIndex] is the finite number [idx]. *)
Definition ringScale (time idx : R) : R :=
  1 + 0.3 * sin (time * 0.003 + idx).

Definition ringOpacity (time idx : R) : R :=
  0.2 + 0.2 * sin (time * 0.003 + idx).

(** [updatePanoArrowPulse(time)]: opacity of the glow of a floor circle. *)
Definition glowOpacity (time : R) : R := 0.2 + 0.15 * sin (time * 0.004).

Section Engine.

(** The orbit-control collaborator: its private state and the effect of
    [controls.update()] on the camera position and on its own target. *)
Variable OrbitState : Type.
Variable orbitUpdate :
  OrbitState -> Vec3 -> Vec3 -> OrbitState * (Vec3 * Vec3).

Record Controls : Type := {
  target : Vec3;
  enabled : bool;
  orbit : OrbitState
}.

Record State : Type := {
  camera : Camera;
  controls : Controls;
  model : option bool;              (* null, or [model.visible] *)
  currentMode : Mode;
  isAnimating : bool;
  pano : Pano;
  hotspotPositions : Js.num -> option Vec3;
  hotspotMeshes : list HotspotMesh;
  saved : Saved;
  ptr : Pointer
}.

Definition setCamera (c : Camera) (s : State) : State :=
  {| camera := c; controls := controls s; model := model s;
     currentMode := currentMode s; isAnimating := isAnimating s;
     pano := pano s; hotspotPositions := hotspotPositions s;
     hotspotMeshes := hotspotMeshes s; saved := saved s; ptr := ptr s |}.

Definition setControls (c : Controls) (s : State) : State :=
  {| camera := camera s; controls := c; model := model s;
     currentMode := currentMode s; isAnimating := isAnimating s;
     pano := pano s; hotspotPositions := hotspotPositions s;
     hotspotMeshes := hotspotMeshes s; saved := saved s; ptr := ptr s |}.

Definition setModel (m : option bool) (s : State) : State :=
  {| camera := camera s; controls := controls s; model := m;
     currentMode := currentMode s; isAnimating := isAnimating s;
     pano := pano s; hotspotPositions := hotspotPositions s;
     hotspotMeshes := hotspotMeshes s; saved := saved s; ptr := ptr s |}.

Definition setMode (m : Mode) (s : State) : State :=
  {| camera := camera s; controls := controls s; model := model s;
     currentMode := m; isAnimating := isAnimating s;
     pano := pano s; hotspotPositions := hotspotPositions s;
     hotspotMeshes := hotspotMeshes s; saved := saved s; ptr := ptr s |}.

Definition setAnimating (b : bool) (s : State) : State :=
  {| camera := camera s; controls := controls s; model := model s;
     currentMode := currentMode s; isAnimating := b;
     pano := pano s; hotspotPositions := hotspotPositions s;
     hotspotMeshes := hotspotMeshes s; saved := saved s; ptr := ptr s |}.

Definition setPano (p : Pano) (s : State) : State :=
  {| camera := camera s; controls := controls s; model := model s;
     currentMode := currentMode s; isAnimating := isAnimating s;
     pano := p; hotspotPositions := hotspotPositions s;
     hotspotMeshes := hotspotMeshes s; saved := saved s; ptr := ptr s |}.

Definition setHotspotPositions (h : Js.num -> option Vec3) (s : State)
  : State :=
  {| camera := camera s; controls := controls s; model := model s;
     currentMode := currentMode s; isAnimating := isAnimating s;
     pano := pano s; hotspotPositions := h;
     hotspotMeshes := hotspotMeshes s; saved := saved s; ptr := ptr s |}.

Definition setHotspotMeshes (h : list HotspotMesh) (s : State) : State :=
  {| camera := camera s; controls := controls s; model := model s;
     currentMode := currentMode s; isAnimating := isAnimating s;
     pano := pano s; hotspotPositions := hotspotPositions s;
     hotspotMeshes := h; saved := saved s; ptr := ptr s |}.

Definition setSaved (v : Saved) (s : State) : State :=
  {| camera := camera s; controls := controls s; model := model s;
     currentMode := currentMode s; isAnimating := isAnimating s;
     pano := pano s; hotspotPositions := hotspotPositions s;
     hotspotMeshes := hotspotMeshes s; saved := v; ptr := ptr s |}.

Definition setPtr (p : Pointer) (s : State) : State :=
  {| camera := camera s; controls := controls s; model := model s;
     currentMode := currentMode s; isAnimating := isAnimating s;
     pano := pano s; hotspotPositions := hotspotPositions s;
     hotspotMeshes := hotspotMeshes s; saved := saved s; ptr := p |}.

(** [controls.update()] *)
Definition controlsUpdate (s : State) : State :=
  let '(o, (p, t)) :=
    orbitUpdate (orbit (controls s)) (position (camera s))
                (target (controls s)) in
  setControls {| target := t; enabled := enabled (controls s);
                 orbit := o |}
    (setCamera {| position := p; fov := fov (camera s);
                  near := near (camera s); far := far (camera s) |} s).

(** The state after [initScene] and the top-level declarations. *)
Definition initial (o : OrbitState) : State :=
  {| camera := {| position := {| vx := 10; vy := 8; vz := 10 |};
                  fov := 60; near := 0.1; far := 1000 |};
     controls := {| target := {| vx := 0; vy := 0; vz := 0 |};
                    enabled := true; orbit := o |};
     model := None;
     currentMode := Dollhouse;
     isAnimating := false;
     pano := {| panoGraph := []; currentPanoIndex := (-1)%Z;
                panoSphere := None; panoArrows := [];
                panoYaw := 0; panoPitch := 0; panoFov := 60;
                currentPanoTexture := None;
                panoFading := false; panoFadeProgress := 1;
                loading := [] |};
     hotspotPositions := fun _ => None;
     hotspotMeshes := [];
     saved := {| savedCameraPos := None; savedControlsTarget := None;
                 savedCameraFov := 60; savedCameraNear := 0.1;
                 savedCameraFar := 1000 |};
     ptr := {| panoPointerDown := false; panoPointerX := 0;
               panoPointerY := 0; panoPinchDist := 0;
               pointerDownTime := 0; pointerDownPos := (0, 0) |} |}.

(** The resolved [loadManifest()] promise. *)
Definition manifestLoaded (res : Fetched) (s : State) : State :=
  let p := pano s in
  setPano {| panoGraph := loadManifest res (panoGraph p);
             currentPanoIndex := currentPanoIndex p;
             panoSphere := panoSphere p; panoArrows := panoArrows p;
             panoYaw := panoYaw p; panoPitch := panoPitch p;
             panoFov := panoFov p;
             currentPanoTexture := currentPanoTexture p;
             panoFading := panoFading p;
             panoFadeProgress := panoFadeProgress p;
             loading := loading p |} s.

(** The resolved [loadHotspotPositions()] promise: [fromFile] is the
    parsed [hotspots.json] when the fetch is ok, [stored] the parsed
    local-storage entry when there is one. *)
Definition hotspotPositionsLoaded
  (fromFile stored : option (Js.num -> option Vec3)) (s : State) : State :=
  match fromFile, stored with
  | Some data, _ => setHotspotPositions data s
  | None, Some data => setHotspotPositions data s
  | None, None => setHotspotPositions DEFAULT_HOTSPOTS s
  end.

(** [createHotspotMeshes()]: one marker per graph node with a position. *)
Fixpoint hotspotSpheres (h : Js.num -> option Vec3) (g : list PanoNode)
  : list HotspotMesh :=
  match g with
  | [] => []
  | p :: r =>
      match h (index p) with
      | None => hotspotSpheres h r
      | Some pos =>
          {| panoIndex := index p; meshPosition := pos;
             meshVisible := true |} :: hotspotSpheres h r
      end
  end.

Definition createHotspotMeshes (s : State) : State :=
  setHotspotMeshes
    (hotspotSpheres (hotspotPositions s) (panoGraph (pano s))) s.

Definition showMeshes (v : bool) (l : list HotspotMesh)
  : list HotspotMesh :=
  map (fun m => {| panoIndex := panoIndex m;
                   meshPosition := meshPosition m;
                   meshVisible := v |}) l.

(** [if (model) model.visible = v] *)
Definition showModel (v : bool) (m : option bool) : option bool :=
  match m with Some _ => Some v | None => None end.

(** [loadPanoTexture(pano)]: the request is handed to the texture
    loader; its callback is [textureLoaded] below. *)
Definition loadPanoTexture (p : PanoNode) (s : State) : State :=
  let q := pano s in
  setPano {| panoGraph := panoGraph q;
             currentPanoIndex := currentPanoIndex q;
             panoSphere := panoSphere q; panoArrows := panoArrows q;
             panoYaw := panoYaw q; panoPitch := panoPitch q;
             panoFov := panoFov q;
             currentPanoTexture := currentPanoTexture q;
             panoFading := panoFading q;
             panoFadeProgress := panoFadeProgress q;
             loading := loading q ++ [p] |} s.

(** [enterPanorama(panoNum)] *)
Definition enterPanorama (panoNum : Js.num) (s : State) : State :=
  match getPanoByNumber (panoGraph (pano s)) panoNum with
  | None => s
  | Some p =>
      let cam := camera s in
      let ctl := controls s in
      let q := pano s in
      loadPanoTexture p
        {| camera := {| position := {| vx := 0; vy := 0; vz := 0 |};
                        fov := 60; near := 0.1; far := 1100 |};
           controls := {| target := target ctl; enabled := false;
                          orbit := orbit ctl |};
           model := showModel false (model s);
           currentMode := Panorama;
           isAnimating := isAnimating s;
           pano := {| panoGraph := panoGraph q;
                      currentPanoIndex := Z.of_nat (arrayIdx p);
                      panoSphere := panoSphere q;
                      panoArrows := panoArrows q;
                      panoYaw := 0; panoPitch := 0; panoFov := 60;
                      currentPanoTexture := currentPanoTexture q;
                      panoFading := panoFading q;
                      panoFadeProgress := panoFadeProgress q;
                      loading := loading q |};
           hotspotPositions := hotspotPositions s;
           hotspotMeshes := showMeshes false (hotspotMeshes s);
           saved := {| savedCameraPos := Some (position cam);
                       savedControlsTarget := Some (target ctl);
                       savedCameraFov := fov cam;
                       savedCameraNear := near cam;
                       savedCameraFar := far cam |};
           ptr := ptr s |}
  end.

(** [removePanoArrows()] *)
Definition removePanoArrows (s : State) : State :=
  let q := pano s in
  setPano {| panoGraph := panoGraph q;
             currentPanoIndex := currentPanoIndex q;
             panoSphere := panoSphere q; panoArrows := [];
             panoYaw := panoYaw q; panoPitch := panoPitch q;
             panoFov := panoFov q;
             currentPanoTexture := currentPanoTexture q;
             panoFading := panoFading q;
             panoFadeProgress := panoFadeProgress q;
             loading := loading q |} s.

(** [if (panoSphere) panoSphere.visible = false] *)
Definition hidePanoSphere (s : State) : State :=
  let q := pano s in
  setPano {| panoGraph := panoGraph q;
             currentPanoIndex := currentPanoIndex q;
             panoSphere := showModel false (panoSphere q);
             panoArrows := panoArrows q;
             panoYaw := panoYaw q; panoPitch := panoPitch q;
             panoFov := panoFov q;
             currentPanoTexture := currentPanoTexture q;
             panoFading := panoFading q;
             panoFadeProgress := panoFadeProgress q;
             loading := loading q |} s.

(** [currentPanoTexture = null] (after its disposal) *)
Definition dropTexture (s : State) : State :=
  let q := pano s in
  setPano {| panoGraph := panoGraph q;
             currentPanoIndex := currentPanoIndex q;
             panoSphere := panoSphere q; panoArrows := panoArrows q;
             panoYaw := panoYaw q; panoPitch := panoPitch q;
             panoFov := panoFov q;
             currentPanoTexture := None;
             panoFading := panoFading q;
             panoFadeProgress := panoFadeProgress q;
             loading := loading q |} s.

(** The part of [exitPanorama()] after the camera has been restored:
    show the dollhouse, re-enable and update the orbit controls, drop
    the texture. *)
Definition showDollhouse (s : State) : State :=
  let s1 := setHotspotMeshes (showMeshes true (hotspotMeshes s))
              (setModel (showModel true (model s)) s) in
  let s2 := setControls {| target := target (controls s1);
                           enabled := true;
                           orbit := orbit (controls s1) |} s1 in
  dropTexture (controlsUpdate s2).

(** [exitPanorama()] *)
Definition exitPanorama (s : State) : State :=
  let s1 := removePanoArrows (hidePanoSphere (setMode Dollhouse s)) in
  let sv := saved s1 in
  let cam := camera s1 in
  match savedCameraPos sv with
  | None => showDollhouse s1
  | Some p =>
      match savedControlsTarget sv with
      | None =>
          (* [controls.target.copy(null)] throws: the call ends here *)
          setCamera {| position := p; fov := fov cam; near := near cam;
                       far := far cam |} s1
      | Some t =>
          showDollhouse
            (setControls {| target := t;
                            enabled := enabled (controls s1);
                            orbit := orbit (controls s1) |}
               (setCamera {| position := p;
                             fov := savedCameraFov sv;
                             near := savedCameraNear sv;
                             far := savedCameraFar sv |} s1))
      end
  end.

(** [navigatePano(pano)] *)
Definition navigatePano (p : option PanoNode) (s : State) : State :=
  match p with
  | None => s
  | Some p =>
      let q := pano s in
      let cam := camera s in
      loadPanoTexture p
        (setCamera {| position := position cam; fov := 60;
                      near := near cam; far := far cam |}
           (setPano {| panoGraph := panoGraph q;
                       currentPanoIndex := Z.of_nat (arrayIdx p);
                       panoSphere := panoSphere q;
                       panoArrows := panoArrows q;
                       panoYaw := 0; panoPitch := 0; panoFov := 60;
                       currentPanoTexture := currentPanoTexture q;
                       panoFading := panoFading q;
                       panoFadeProgress := panoFadeProgress q;
                       loading := loading q |} s))
  end.

(** [panoGraph[currentPanoIndex]] *)
Definition currentPano (q : Pano) : option PanoNode :=
  if (currentPanoIndex q <? 0)%Z then None
  else nth_error (panoGraph q) (Z.to_nat (currentPanoIndex q)).

(** [PANO_NORTH_OFFSET[pano.index] || 0] *)
Definition northOffset (i : Js.num) : R :=
  match PANO_NORTH_OFFSET i with Some o => o | None => 0 end.

(** [PANO_CONNECTIONS[pano.index] || []] *)
Definition connections (i : Js.num) : list Js.num :=
  match PANO_CONNECTIONS i with Some l => l | None => [] end.

(** The yaw [createPanoArrows] hands to [createFloorCircle] for a
    neighbour at [targetPos], seen from [currentPos]. *)
Definition arrowYaw (i : Js.num) (currentPos targetPos : Vec3) : R :=
  let dx := vx targetPos - vx currentPos in
  let dz := vz targetPos - vz currentPos in
  let worldYaw := radToDeg (atan2 dz dx) in
  let offset := northOffset i in
  worldYaw - offset.

(** The body of the loop of [createPanoArrows] over [connections]. *)
Fixpoint arrowsTo (g : list PanoNode) (h : Js.num -> option Vec3)
  (i : Js.num) (currentPos : Vec3) (conns : list Js.num) : list Marker :=
  match conns with
  | [] => []
  | targetIndex :: r =>
      match getPanoByNumber g targetIndex, h targetIndex with
      | Some targetPano, Some targetPos =>
          createFloorCircle (friendlyName (file targetPano))
            (arrowYaw i currentPos targetPos) targetPano
          :: arrowsTo g h i currentPos r
      | _, _ => arrowsTo g h i currentPos r
      end
  end.

Definition setArrows (l : list Marker) (s : State) : State :=
  let q := pano s in
  setPano {| panoGraph := panoGraph q;
             currentPanoIndex := currentPanoIndex q;
             panoSphere := panoSphere q; panoArrows := l;
             panoYaw := panoYaw q; panoPitch := panoPitch q;
             panoFov := panoFov q;
             currentPanoTexture := currentPanoTexture q;
             panoFading := panoFading q;
             panoFadeProgress := panoFadeProgress q;
             loading := loading q |} s.

(** [createPanoArrows()] *)
Definition createPanoArrows (s : State) : State :=
  let s1 := removePanoArrows s in
  match currentPano (pano s1) with
  | None => s1
  | Some p =>
      match hotspotPositions s1 (index p) with
      | None => s1
      | Some currentPos =>
          setArrows
            (arrowsTo (panoGraph (pano s1)) (hotspotPositions s1)
               (index p) currentPos (connections (index p))) s1
      end
  end.

Fixpoint removeNth (A : Type) (k : nat) (l : list A) : list A :=
  match l, k with
  | [], _ => []
  | _ :: r, O => r
  | x :: r, S k' => x :: removeNth k' r
  end.

(** The success callback of the [k]-th texture load in flight. *)
Definition textureLoaded (k : nat) (s : State) : State :=
  let q := pano s in
  match nth_error (loading q) k with
  | None => s
  | Some p =>
      createPanoArrows
        (setPano {| panoGraph := panoGraph q;
                    currentPanoIndex := currentPanoIndex q;
                    panoSphere := Some true;
                    panoArrows := panoArrows q;
                    panoYaw := panoYaw q; panoPitch := panoPitch q;
                    panoFov := panoFov q;
                    currentPanoTexture := Some (file p);
                    panoFading := true;
                    panoFadeProgress := 0;
                    loading := removeNth k (loading q) |} s)
  end.

(** ** Pointer, wheel and touch handlers *)

Definition setLook (yaw pitch : R) (s : State) : State :=
  let q := pano s in
  setPano {| panoGraph := panoGraph q;
             currentPanoIndex := currentPanoIndex q;
             panoSphere := panoSphere q; panoArrows := panoArrows q;
             panoYaw := yaw; panoPitch := pitch;
             panoFov := panoFov q;
             currentPanoTexture := currentPanoTexture q;
             panoFading := panoFading q;
             panoFadeProgress := panoFadeProgress q;
             loading := loading q |} s.

(** [panoFov = v; camera.fov = panoFov] *)
Definition setFov (v : R) (s : State) : State :=
  let q := pano s in
  let cam := camera s in
  setCamera {| position := position cam; fov := v; near := near cam;
               far := far cam |}
    (setPano {| panoGraph := panoGraph q;
                currentPanoIndex := currentPanoIndex q;
                panoSphere := panoSphere q; panoArrows := panoArrows q;
                panoYaw := panoYaw q; panoPitch := panoPitch q;
                panoFov := v;
                currentPanoTexture := currentPanoTexture q;
                panoFading := panoFading q;
                panoFadeProgress := panoFadeProgress q;
                loading := loading q |} s).

(** [onPanoPointerDown(e)] *)
Definition onPanoPointerDown (e : Event) (s : State) : State :=
  match currentMode s with
  | Dollhouse => s
  | Panorama =>
      let t := ptr s in
      setPtr {| panoPointerDown := true;
                panoPointerX :=
                  orZero (orElse (clientX e) (firstX (touches e)));
                panoPointerY :=
                  orZero (orElse (clientY e) (firstY (touches e)));
                panoPinchDist := panoPinchDist t;
                pointerDownTime := pointerDownTime t;
                pointerDownPos := pointerDownPos t |} s
  end.

(** [onPanoPointerMove(e)]; [updatePanoCamera] only turns the camera
    and [repositionPanoArrows] changes nothing. *)
Definition onPanoPointerMove (e : Event) (s : State) : State :=
  match currentMode s, panoPointerDown (ptr s) with
  | Panorama, true =>
      let t := ptr s in
      let x := orZero (orElse (clientX e) (firstX (touches e))) in
      let y := orZero (orElse (clientY e) (firstY (touches e))) in
      let dx := x - panoPointerX t in
      let dy := y - panoPointerY t in
      setLook (panoYaw (pano s) - dx * 0.3)
              (Rmax (-85) (Rmin 85 (panoPitch (pano s) + dy * 0.3)))
        (setPtr {| panoPointerDown := panoPointerDown t;
                   panoPointerX := x; panoPointerY := y;
                   panoPinchDist := panoPinchDist t;
                   pointerDownTime := pointerDownTime t;
                   pointerDownPos := pointerDownPos t |} s)
  | _, _ => s
  end.

(** [onPanoPointerUp()] *)
Definition onPanoPointerUp (s : State) : State :=
  let t := ptr s in
  setPtr {| panoPointerDown := false;
            panoPointerX := panoPointerX t;
            panoPointerY := panoPointerY t;
            panoPinchDist := panoPinchDist t;
            pointerDownTime := pointerDownTime t;
            pointerDownPos := pointerDownPos t |} s.

(** [onPanoWheel(e)] *)
Definition onPanoWheel (e : Event) (s : State) : State :=
  match currentMode s with
  | Dollhouse => s
  | Panorama =>
      setFov (Rmax 30 (Rmin 100 (panoFov (pano s) + deltaY e * 0.05))) s
  end.

(** [onPointerClick(e)]. [hit] is what the raycaster reports for the
    pointer: the entry of the tested array ([panoArrows] in panorama
    mode, [hotspotMeshes] otherwise) that owns the first object hit. *)
Definition onPointerClick (hit : option nat) (s : State) : State :=
  match currentMode s with
  | Panorama =>
      match hit with
      | None => s
      | Some k =>
          match nth_error (panoArrows (pano s)) k with
          | Some a => navigatePano (Some (goal a)) s
          | None => s
          end
      end
  | Dollhouse =>
      match hit with
      | None => s
      | Some k =>
          match nth_error (hotspotMeshes s) k with
          | Some m =>
              if Js.truthy (panoIndex m)
              then enterPanorama (panoIndex m) s
              else s
          | None => s
          end
      end
  end.

(** [onGlobalPointerDown(e)], run when [Date.now()] is [now]. *)
Definition onGlobalPointerDown (now : R) (e : Event) (s : State)
  : State :=
  let t := ptr s in
  onPanoPointerDown e
    (setPtr {| panoPointerDown := panoPointerDown t;
               panoPointerX := panoPointerX t;
               panoPointerY := panoPointerY t;
               panoPinchDist := panoPinchDist t;
               pointerDownTime := now;
               pointerDownPos :=
                 (orZero (orElse (clientX e) (firstX (touches e))),
                  orZero (orElse (clientY e) (firstY (touches e))))
            |} s).

(** [elapsed] and [dist] of [onGlobalPointerUp]. *)
Definition elapsedAt (now : R) (s : State) : R :=
  now - pointerDownTime (ptr s).

Definition distAt (e : Event) (s : State) : R :=
  let cx := orZero (orElse (clientX e) (firstX (changedTouches e))) in
  let cy := orZero (orElse (clientY e) (firstY (changedTouches e))) in
  sqrt ((cx - fst (pointerDownPos (ptr s))) ^ 2
        + (cy - snd (pointerDownPos (ptr s))) ^ 2).

(** [onGlobalPointerUp(e)], run when [Date.now()] is [now]. *)
Definition onGlobalPointerUp (now : R) (hit : option nat) (e : Event)
  (s : State) : State :=
  let s1 := onPanoPointerUp s in
  let elapsed := elapsedAt now s1 in
  let dist := distAt e s1 in
  if Rlt_dec elapsed 300
  then if Rlt_dec dist 10 then onPointerClick hit s1 else s1
  else s1.

(** [onGlobalPointerMove(e)] *)
Definition onGlobalPointerMove (e : Event) (s : State) : State :=
  onPanoPointerMove e s.

(** [onKeyDown(e)] *)
Definition onKeyDown (e : Event) (s : State) : State :=
  if String.eqb (key e) "Escape"
  then match currentMode s with
       | Panorama => exitPanorama s
       | Dollhouse => s
       end
  else s.

Definition setPinch (d : R) (down : bool) (s : State) : State :=
  let t := ptr s in
  setPtr {| panoPointerDown := down;
            panoPointerX := panoPointerX t;
            panoPointerY := panoPointerY t;
            panoPinchDist := d;
            pointerDownTime := pointerDownTime t;
            pointerDownPos := pointerDownPos t |} s.

(** The [touchstart] listener of [setupUI]. *)
Definition onTouchStart (now : R) (e : Event) (s : State) : State :=
  match currentMode s, Nat.eqb (touchCount (touches e)) 2 with
  | Panorama, true => setPinch (getTouchDist e) false s
  | _, _ => onGlobalPointerDown now e s
  end.

(** The [touchmove] listener of [setupUI]. *)
Definition onTouchMove (e : Event) (s : State) : State :=
  match currentMode s, Nat.eqb (touchCount (touches e)) 2 with
  | Panorama, true =>
      let dist := getTouchDist e in
      let delta := panoPinchDist (ptr s) - dist in
      let s1 :=
        setFov (Rmax 30 (Rmin 100 (panoFov (pano s) + delta * 0.15))) s in
      setPinch dist (panoPointerDown (ptr s1)) s1
  | _, _ => onGlobalPointerMove e s
  end.

(** The [touchend] listener of [setupUI]. *)
Definition onTouchEnd (now : R) (hit : option nat) (e : Event)
  (s : State) : State :=
  onGlobalPointerUp now hit e (setPinch 0 (panoPointerDown (ptr s)) s).

(** ** Frames *)

(** One call of the [animateCamera] closure of [teleportTo] at frame
    time [t]; the other arguments are the variables it closes over. *)
Definition animateCamera (startTime : R) (startPos endPos : Vec3)
  (startTarget endTarget : Vec3) (t : R) (s : State) : State :=
  let elapsed := t - startTime in
  let p := Rmin (elapsed / 1000) 1 in
  let e := ease p in
  let cam := camera s in
  let s1 :=
    controlsUpdate
      (setControls {| target := lerpVectors startTarget endTarget e;
                      enabled := enabled (controls s);
                      orbit := orbit (controls s) |}
         (setCamera {| position := lerpVectors startPos endPos e;
                       fov := fov cam; near := near cam;
                       far := far cam |} s)) in
  if Rlt_dec p 1 then s1 else setAnimating false s1.

Definition setFade (fading : bool) (progress : R) (s : State) : State :=
  let q := pano s in
  setPano {| panoGraph := panoGraph q;
             currentPanoIndex := currentPanoIndex q;
             panoSphere := panoSphere q; panoArrows := panoArrows q;
             panoYaw := panoYaw q; panoPitch := panoPitch q;
             panoFov := panoFov q;
             currentPanoTexture := currentPanoTexture q;
             panoFading := fading;
             panoFadeProgress := progress;
             loading := loading q |} s.

(** [animate(time)]: one render tick (marker pulses only recolour). *)
Definition animate (s : State) : State :=
  match currentMode s with
  | Dollhouse => controlsUpdate s
  | Panorama =>
      match panoFading (pano s), panoSphere (pano s) with
      | true, Some _ =>
          let progress := panoFadeProgress (pano s) + 0.03 in
          if Rle_dec 1 progress then setFade false 1 s
          else setFade true progress s
      | _, _ => s
      end
  end.

(** ** Loading *)

(** [fitCameraToModel()] for a model whose bounding box has the given
    centre and size (the named viewpoints are not modelled). *)
Definition fitCameraToModel (center size : Vec3) (s : State) : State :=
  match model s with
  | None => s
  | Some _ =>
      let maxDim := Rmax (Rmax (vx size) (vy size)) (vz size) in
      let fovRad := fov (camera s) * (PI / 180) in
      let dist := (maxDim / (2 * tan (fovRad / 2))) * 1.5 in
      let diag := sqrt (vx size ^ 2 + vy size ^ 2 + vz size ^ 2) in
      controlsUpdate
        (setControls {| target := center;
                        enabled := enabled (controls s);
                        orbit := orbit (controls s) |}
           (setCamera {| position := {| vx := vx center + dist * 0.7;
                                        vy := vy center + dist * 0.5;
                                        vz := vz center + dist * 0.7 |};
                         fov := fov (camera s);
                         near := Rmax 0.01 (diag * 0.001);
                         far := diag * 20 |} s))
  end.

(** The success callback of [loadModel()]. *)
Definition modelLoaded (center size : Vec3) (s : State) : State :=
  createHotspotMeshes (fitCameraToModel center size (setModel (Some true) s)).

(** The [then] of [init()], once manifest and positions are in. *)
Definition graphReady (s : State) : State :=
  match model s with
  | Some _ => createHotspotMeshes s
  | None => s
  end.

(** ** The event loop *)

Inductive Input : Type :=
| PointerDown (now : R) (e : Event)
| PointerMove (e : Event)
| PointerUp (now : R) (hit : option nat) (e : Event)
| Wheel (e : Event)
| TouchStart (now : R) (e : Event)
| TouchMove (e : Event)
| TouchEnd (now : R) (hit : option nat) (e : Event)
| KeyDown (e : Event)
| BackButton
| TextureLoaded (k : nat)
| Frame
| ManifestLoaded (res : Fetched)
| HotspotsLoaded (fromFile stored : option (Js.num -> option Vec3))
| GraphReady
| ModelLoaded (center size : Vec3).

(** The listener or callback the tour runs for each input. *)
Definition handle (i : Input) (s : State) : State :=
  match i with
  | PointerDown now e => onGlobalPointerDown now e s
  | PointerMove e => onGlobalPointerMove e s
  | PointerUp now hit e => onGlobalPointerUp now hit e s
  | Wheel e => onPanoWheel e s
  | TouchStart now e => onTouchStart now e s
  | TouchMove e => onTouchMove e s
  | TouchEnd now hit e => onTouchEnd now hit e s
  | KeyDown e => onKeyDown e s
  | BackButton => exitPanorama s
  | TextureLoaded k => textureLoaded k s
  | Frame => animate s
  | ManifestLoaded res => manifestLoaded res s
  | HotspotsLoaded a b => hotspotPositionsLoaded a b s
  | GraphReady => graphReady s
  | ModelLoaded c z => modelLoaded c z s
  end.

Fixpoint run (inputs : list Input) (s : State) : State :=
  match inputs with
  | [] => s
  | i :: r => run r (handle i s)
  end.

(** ** Teleport *)

(** [teleportTo(spotKey)], run when [performance.now()] is [now], with
    the current table [SPOTS]; the second component is the animation it
    hands to [requestAnimationFrame], if any. A key that only the
    prototype answers passes the test [!spot]: the flag is set, and
    reading [spot.position.x] then throws, so no frame is requested. *)
Definition teleportTo (spots : string -> option Spot) (spotKey : string)
  (now : R) (s : State) : State * option Animation :=
  match lookupSpot spots spotKey with
  | Undefined => (s, None)
  | Inherited =>
      if isAnimating s then (s, None) else (setAnimating true s, None)
  | OwnSpot spot =>
      if isAnimating s then (s, None)
      else (setAnimating true s,
            Some {| startTime := now;
                    startPos := position (camera s);
                    endPos := spotPosition spot;
                    startTarget := target (controls s);
                    endTarget := spotTarget spot |})
  end.


(** One frame of an animation at frame time [t]. *)
Definition animationFrame (a : Animation) (t : R) (s : State) : State :=
  animateCamera (startTime a) (startPos a) (endPos a) (startTarget a)
                (endTarget a) t s.

(** [p] of [animateCamera] at frame time [t]. *)
Definition animationProgress (a : Animation) (t : R) : R :=
  Rmin ((t - startTime a) / 1000) 1.


(** The pose [animateCamera] writes at frame time [t], before it calls
    [controls.update()]. *)
Definition animationPose (a : Animation) (t : R) : Vec3 * Vec3 :=
  let e := ease (animationProgress a t) in
  (lerpVectors (startPos a) (endPos a) e,
   lerpVectors (startTarget a) (endTarget a) e).

(** [updatePanoCamera()]: the point the camera is turned to. *)
Definition updatePanoCamera (s : State) : Vec3 :=
  lookTarget (panoYaw (pano s)) (panoPitch (pano s)).

End Engine.

(** ** Sample data *)

(** An orbit controller at rest: [update()] leaves the pose alone. *)
Definition restingOrbit (o : unit) (p t : Vec3) : unit * (Vec3 * Vec3) :=
  (o, (p, t)).

(** An orbit controller that only pans, with a damped pan pending in its
    state: [update()] moves the target, and the camera with it, by the
    damping factor 0.05 of the pending offset and keeps the rest. *)
Definition pendingPan (pan : Vec3) (p t : Vec3) : Vec3 * (Vec3 * Vec3) :=
  ({| vx := vx pan * (1 - 0.05); vy := vy pan * (1 - 0.05);
      vz := vz pan * (1 - 0.05) |},
   ({| vx := vx p + vx pan * 0.05; vy := vy p + vy pan * 0.05;
       vz := vz p + vz pan * 0.05 |},
    {| vx := vx t + vx pan * 0.05; vy := vy t + vy pan * 0.05;
       vz := vz t + vz pan * 0.05 |})).

(** The manifest of the specification's example. *)
Definition roomFiles : list string :=
  ["room-3.jpg"; "room-1.jpg"; "room-10.jpg"]%string.

(** A pointer event at a client position. *)
Definition pointerAt (x y : R) : Event :=
  {| clientX := Some x; clientY := Some y; touches := None;
     changedTouches := None; deltaY := 0; key := EmptyString |}.

(** A wheel event. *)
Definition wheelBy (d : R) : Event :=
  {| clientX := Some 0; clientY := Some 0; touches := None;
     changedTouches := None; deltaY := d; key := EmptyString |}.

(** A two-finger touch event. *)
Definition pinchAt (x0 y0 x1 y1 : R) : Event :=
  {| clientX := None; clientY := None;
     touches := Some ({| touchX := x0; touchY := y0 |},
                      [{| touchX := x1; touchY := y1 |}]);
     changedTouches := None; deltaY := 0; key := EmptyString |}.

(** The tour after its start-up with the example manifest and no hotspot
    position at all. *)
Definition bareTour : State unit :=
  manifestLoaded (Json (Some roomFiles)) (initial tt).

(** The tour after its start-up with the example manifest, a model and
    positions for rooms 1 and 3. *)
Definition roomPositions (i : Js.num) : option Vec3 :=
  match i with
  | Js.Fin 1 => Some {| vx := 0; vy := 0; vz := 0 |}
  | Js.Fin 3 => Some {| vx := 1; vy := 0; vz := 0 |}
  | _ => None
  end.

Definition readyTour : State unit :=
  createHotspotMeshes
    (setModel (Some true)
       (hotspotPositionsLoaded (Some roomPositions) None bareTour)).

(** The pointer went down on the ready tour at time 1000, at (200, 150). *)
Definition pressed : State unit :=
  onGlobalPointerDown 1000 (pointerAt 200 150) readyTour.

(** A graph for rooms 3, 4 and 5 with room 4 (offset 0) at the origin,
    room 3 one unit along +X and room 5 one unit along +Z; room 4 is the
    active panorama. *)
Definition bearingFiles : list string :=
  ["a-3.jpg"; "a-4.jpg"; "a-5.jpg"]%string.

Definition bearingPositions (i : Js.num) : option Vec3 :=
  match i with
  | Js.Fin 4 => Some {| vx := 0; vy := 0; vz := 0 |}
  | Js.Fin 3 => Some {| vx := 1; vy := 0; vz := 0 |}
  | Js.Fin 5 => Some {| vx := 0; vy := 0; vz := 1 |}
  | _ => None
  end.

Definition bearingTour : State unit :=
  enterPanorama (Js.Fin 4)
    (hotspotPositionsLoaded (Some bearingPositions) None
       (manifestLoaded (Json (Some bearingFiles)) (initial tt))).

End Tour.

(* ================================================================== *)
(** * tour/tour.js (legacy dollhouse viewer): view modes *)
(* ================================================================== *)

Module LegacyView.
Import Tour.
Local Open Scope R_scope.

Inductive ViewMode : Type := DollhouseView | InsideView.

(** The entries of [SPOTS] of the legacy viewer (its own keys). *)
Definition SPOTS (spotKey : string) : option Spot :=
  if String.eqb spotKey "overview"
  then Some {| spotName := "Overview";
               spotPosition := {| vx := 8; vy := 6; vz := 8 |};
               spotTarget := {| vx := 0; vy := 0; vz := 0 |} |}
  else if String.eqb spotKey "living"
  then Some {| spotName := "Living Room";
               spotPosition := {| vx := 2; vy := 1.6; vz := 2 |};
               spotTarget := {| vx := -2; vy := 1; vz := -1 |} |}
  else if String.eqb spotKey "kitchen"
  then Some {| spotName := "Kitchen";
               spotPosition := {| vx := -2; vy := 1.6; vz := 1 |};
               spotTarget := {| vx := -4; vy := 1; vz := -2 |} |}
  else if String.eqb spotKey "bedroom"
  then Some {| spotName := "Bedroom";
               spotPosition := {| vx := 3; vy := 1.6; vz := -2 |};
               spotTarget := {| vx := 0; vy := 1; vz := -4 |} |}
  else if String.eqb spotKey "balcony"
  then Some {| spotName := "Balcony";
               spotPosition := {| vx := -1; vy := 2; vz := 5 |};
               spotTarget := {| vx := -1; vy := 1.5; vz := 8 |} |}
  else if String.eqb spotKey "bathroom"
  then Some {| spotName := "Bathroom";
               spotPosition := {| vx := -3; vy := 1.6; vz := -3 |};
               spotTarget := {| vx := -5; vy := 1; vz := -5 |} |}
  else None.

(** The variables of the legacy viewer that [setMode] and [teleportTo]
    read or write. [flight] is the animation last handed to
    [requestAnimationFrame]. *)
Record View : Type := {
  currentMode : ViewMode;
  isAnimating : bool;
  cameraPosition : Vec3;
  cameraNear : R;
  controlsTarget : Vec3;
  minDistance : R;
  maxPolarAngle : R;
  modelBoundingBox : option Vec3;   (* null, or the size of the box *)
  spots : string -> option Spot;
  flight : option Animation
}.

(** [teleportTo(spotKey)], run when [performance.now()] is [now]; a key
    only the prototype answers sets the flag and throws before a frame is
    requested, as in the tour core. *)
Definition teleportTo (spotKey : string) (now : R) (v : View) : View :=
  let started (f : option Animation) :=
    {| currentMode := currentMode v;
       isAnimating := true;
       cameraPosition := cameraPosition v;
       cameraNear := cameraNear v;
       controlsTarget := controlsTarget v;
       minDistance := minDistance v;
       maxPolarAngle := maxPolarAngle v;
       modelBoundingBox := modelBoundingBox v;
       spots := spots v;
       flight := f |} in
  match lookupSpot (spots v) spotKey with
  | Undefined => v
  | Inherited => if isAnimating v then v else started (flight v)
  | OwnSpot spot =>
      if isAnimating v then v
      else started (Some {| startTime := now;
                            startPos := cameraPosition v;
                            endPos := spotPosition spot;
                            startTarget := controlsTarget v;
                            endTarget := spotTarget spot |})
  end.

(** [Vector3.length()] *)
Definition vlength (a : Vec3) : R :=
  sqrt (vx a * vx a + vy a * vy a + vz a * vz a).

Definition sameMode (a b : ViewMode) : bool :=
  match a, b with
  | DollhouseView, DollhouseView | InsideView, InsideView => true
  | _, _ => false
  end.

(** [setMode(mode)], run when [performance.now()] is [now]. *)
Definition setMode (mode : ViewMode) (now : R) (v : View) : View :=
  if sameMode mode (currentMode v) then v
  else
    match mode with
    | DollhouseView =>
        teleportTo "overview" now
          {| currentMode := mode;
             isAnimating := isAnimating v;
             cameraPosition := cameraPosition v;
             cameraNear := 0.1;
             controlsTarget := controlsTarget v;
             minDistance := match modelBoundingBox v with
                            | Some size => vlength size * 0.1
                            | None => 1
                            end;
             maxPolarAngle := PI * 0.9;
             modelBoundingBox := modelBoundingBox v;
             spots := spots v;
             flight := flight v |}
    | InsideView =>
        teleportTo "living" now
          {| currentMode := mode;
             isAnimating := isAnimating v;
             cameraPosition := cameraPosition v;
             cameraNear := 0.01;
             controlsTarget := controlsTarget v;
             minDistance := 0.1;
             maxPolarAngle := PI * 0.95;
             modelBoundingBox := modelBoundingBox v;
             spots := spots v;
             flight := flight v |}
    end.

End LegacyView.

(* ================================================================== *)
(** * js/main.js (page chrome): navigation bar and mobile menu *)
(* ================================================================== *)

Module Page.
Local Open Scope R_scope.

(** The class flags and styles the navigation handlers read or write. *)
Record Nav : Type := {
  scrolled : bool;        (* [navbar] has class [scrolled] *)
  toggleActive : bool;    (* [navToggle] has class [active] *)
  menuActive : bool;      (* [navMenu] has class [active] *)
  overflowHidden : bool;  (* [body.style.overflow] is ['hidden'] *)
  overlayHidden : bool;   (* [tourOverlay] has class [hidden] *)
  scrollTop : R           (* where the window was last asked to scroll *)
}.

(** [handleScroll()] with [window.scrollY = y]. *)
Definition handleScroll (y : R) (n : Nav) : Nav :=
  {| scrolled := if Rlt_dec 50 y then true else false;
     toggleActive := toggleActive n; menuActive := menuActive n;
     overflowHidden := overflowHidden n; overlayHidden := overlayHidden n;
     scrollTop := scrollTop n |}.

(** [toggleMobileMenu()] *)
Definition toggleMobileMenu (n : Nav) : Nav :=
  {| scrolled := scrolled n;
     toggleActive := negb (toggleActive n);
     menuActive := negb (menuActive n);
     overflowHidden := negb (menuActive n);
     overlayHidden := overlayHidden n;
     scrollTop := scrollTop n |}.

(** [closeMobileMenu()] *)
Definition closeMobileMenu (n : Nav) : Nav :=
  {| scrolled := scrolled n;
     toggleActive := false; menuActive := false; overflowHidden := false;
     overlayHidden := overlayHidden n;
     scrollTop := scrollTop n |}.

(** Does [href] start with ['#']? *)
Definition isAnchor (href : string) : bool :=
  match href with
  | String c _ => (nat_of_ascii c =? 35)%nat
  | EmptyString => false
  end.

(** [handleAnchorClick(e)] for a link to [href]; [found] is the
    [offsetTop] of the element [document.querySelector(href)] finds, if
    any, and [navHeight] is [navbar.offsetHeight]. *)
Definition handleAnchorClick (href : string) (found : option R)
  (navHeight : R) (n : Nav) : Nav :=
  if isAnchor href
  then match found with
       | Some offsetTop =>
           closeMobileMenu
             {| scrolled := scrolled n;
                toggleActive := toggleActive n; menuActive := menuActive n;
                overflowHidden := overflowHidden n;
                overlayHidden := overlayHidden n;
                scrollTop := offsetTop - navHeight |}
       | None => n
       end
  else n.

(** [activateTour()] *)
Definition activateTour (n : Nav) : Nav :=
  {| scrolled := scrolled n;
     toggleActive := toggleActive n; menuActive := menuActive n;
     overflowHidden := overflowHidden n; overlayHidden := true;
     scrollTop := scrollTop n |}.

(** The [keydown] listener of [init()]. *)
Definition onKeyDown (key : string) (n : Nav) : Nav :=
  if String.eqb key "Escape" then closeMobileMenu n else n.

(** What the page reacts to. *)
Inductive Action : Type :=
| Scroll (y : R)
| ToggleClick
| AnchorClick (href : string) (found : option R) (navHeight : R)
| OverlayClick
| Key (key : string).

Definition react (a : Action) (n : Nav) : Nav :=
  match a with
  | Scroll y => handleScroll y n
  | ToggleClick => toggleMobileMenu n
  | AnchorClick href found navHeight =>
      handleAnchorClick href found navHeight n
  | OverlayClick => activateTour n
  | Key key => onKeyDown key n
  end.

Fixpoint reactAll (l : list Action) (n : Nav) : Nav :=
  match l with
  | [] => n
  | a :: r => reactAll r (react a n)
  end.

End Page.

(* ================================================================== *)
(** * Vocabulary of the statements *)
(* ================================================================== *)

(** The keys [trailingNumber] produces: a natural number or +Infinity. *)
Definition isKey (k : Js.num) : Prop :=
  match k with
  | Js.Fin z => (0 <= z)%Z
  | Js.PosInf => True
  | _ => False
  end.

(** Ascending numeric order on keys, +Infinity last. *)
Definition keyLe (a b : Js.num) : Prop :=
  match a, b with
  | Js.Fin x, Js.Fin y => (x <= y)%Z
  | _, Js.PosInf => True
  | _, _ => False
  end.

(** Does [s] end in a decimal digit? *)
Fixpoint endsInDigit (s : string) : bool :=
  match s with
  | EmptyString => false
  | String c EmptyString => Js.isDigit c
  | String _ r => endsInDigit r
  end.

(** The base-10 value of a run of digits, most significant first. *)
Fixpoint decimal (d : string) : N :=
  match d with
  | EmptyString => 0
  | String c r => Js.digitVal c * 10 ^ N.of_nat (String.length r) + decimal r
  end.


(** The field-of-view accumulator lies in [30, 100]. *)
Definition fovInRange {O : Type} (s : Tour.State O) : Prop :=
  (30 <= Tour.panoFov (Tour.pano s) <= 100)%R.

(** [Math.max(30, Math.min(100, v))] *)
Definition clampFov (v : R) : R := Rmax 30 (Rmin 100 v).

(** The test [elapsed < 300 && dist < 10] of [onGlobalPointerUp], run when
    [Date.now()] is [now]: the pointer-down/up pair counts as a tap. *)
Definition isTap {O : Type} (now : R) (e : Tour.Event) (s : Tour.State O)
  : Prop :=
  (Tour.elapsedAt now s < 300 /\ Tour.distAt e s < 10)%R.

(** The marker [createPanoArrows] makes for the neighbour [tp] at [q], seen
    from the active node with index [i] at [cur]. *)
Definition markerFor (i : Js.num) (cur : Tour.Vec3) (tp : Tour.PanoNode)
  (q : Tour.Vec3) : Tour.Marker :=
  Tour.createFloorCircle (Tour.friendlyName (Tour.file tp))
    (Tour.arrowYaw i cur q) tp.

Definition origin : Tour.Vec3 := {| Tour.vx := 0; Tour.vy := 0; Tour.vz := 0 |}.
Definition unitX : Tour.Vec3 := {| Tour.vx := 1; Tour.vy := 0; Tour.vz := 0 |}.
Definition unitZ : Tour.Vec3 := {| Tour.vx := 0; Tour.vy := 0; Tour.vz := 1 |}.

(** A camera snapshot is stored: both saved vectors are set. *)
Definition hasSnapshot {O : Type} (s : Tour.State O) : Prop :=
  exists p t,
    Tour.savedCameraPos (Tour.saved s) = Some p /\
    Tour.savedControlsTarget (Tour.saved s) = Some t.

(** The node [panoGraph[currentPanoIndex]] the tour treats as active. *)
Definition activeNode {O : Type} (s : Tour.State O) : option Tour.PanoNode :=
  Tour.currentPano (Tour.pano s).

(** The pitch accumulator lies in [-85, 85]. *)
Definition pitchInRange {O : Type} (s : Tour.State O) : Prop :=
  (-85 <= Tour.panoPitch (Tour.pano s) <= 85)%R.

(** Every entry of a graph records its own slot in [arrayIdx]. *)
Definition wellSlotted (g : list Tour.PanoNode) : Prop :=
  forall k p, nth_error g k = Some p -> Tour.arrayIdx p = k.

(** The inputs do not reload the manifest. *)
Definition noReload (inputs : list Tour.Input) : Prop :=
  Forall (fun i => match i with
                   | Tour.ManifestLoaded _ => False
                   | _ => True
                   end) inputs.

(** Squared length of a vector. *)
Definition normSq (a : Tour.Vec3) : R :=
  (Tour.vx a * Tour.vx a + Tour.vy a * Tour.vy a + Tour.vz a * Tour.vz a)%R.


(** Menu button, menu and scroll lock of the page agree. *)
Definition menuInSync (n : Page.Nav) : Prop :=
  Page.toggleActive n = Page.menuActive n /\
  Page.overflowHidden n = Page.menuActive n.

(** No input delivers a manifest that lists a file. *)
Definition noFiles (inputs : list Tour.Input) : Prop :=
  Forall (fun i => match i with
                   | Tour.ManifestLoaded (Tour.Json (Some (_ :: _))) => False
                   | _ => True
                   end) inputs.

(** The graph is slotted, every floor marker leads to a node of the graph,
    and in panorama mode the active node is a node of the graph. *)
Definition graphSound {O : Type} (s : Tour.State O) : Prop :=
  wellSlotted (Tour.panoGraph (Tour.pano s)) /\
  (forall a, In a (Tour.panoArrows (Tour.pano s)) ->
             In (Tour.goal a) (Tour.panoGraph (Tour.pano s))) /\
  (Tour.currentMode s = Tour.Panorama ->
   exists p, activeNode s = Some p /\ In p (Tour.panoGraph (Tour.pano s))).

(** There is no graph, no hotspot and no way into a panorama. *)
Definition dollhouseOnly {O : Type} (s : Tour.State O) : Prop :=
  Tour.panoGraph (Tour.pano s) = [] /\
  Tour.currentMode s = Tour.Dollhouse /\
  Tour.hotspotMeshes s = [] /\
  Tour.panoArrows (Tour.pano s) = [].

(* ================================================================== *)
(** * Facts about the built-ins *)
(* ================================================================== *)

Unset Implicit Arguments.

(** Case analysis on every [match] of the goal. *)
Ltac split_cases :=
  repeat match goal with
    | |- context [match ?x with _ => _ end] => destruct x eqn:?
    end.

(** ** Numbers *)

Section NumberFacts.
Local Open Scope Z_scope.

Lemma roundBig_positive n : 2 ^ 53 <= n -> 0 < Js.roundBig n.
Proof.
  intros L. unfold Js.roundBig. cbv zeta.
  assert (P : 0 < 2 ^ 53) by (apply Z.pow_pos_nonneg; lia).
  assert (L2 : 53 <= Z.log2 n).
  { apply Z.log2_le_pow2; [lia|exact L]. }
  set (k := Z.log2 n - 52).
  assert (K : 0 < 2 ^ k) by (apply Z.pow_pos_nonneg; lia).
  assert (Q : 1 <= n / 2 ^ k).
  { apply Z.div_le_lower_bound; [exact K|].
    rewrite Z.mul_1_r.
    apply Z.le_trans with (2 ^ Z.log2 n).
    - apply Z.pow_le_mono_r; lia.
    - apply Z.log2_spec. lia. }
  destruct (_ || _); nia.
Qed.

Lemma toNumber_exact z : 0 <= z < 2 ^ 53 -> Js.toNumber z = Js.Fin z.
Proof.
  intros H. unfold Js.toNumber. cbv zeta.
  rewrite Z.abs_eq by lia.
  destruct (Z.ltb_spec z (2 ^ 53)) as [_|L]; [reflexivity|lia].
Qed.

Lemma gtZero_toNumber z : Js.gtZero (Js.toNumber z) = (0 <? z).
Proof.
  unfold Js.toNumber. cbv zeta.
  destruct (Z.ltb_spec (Z.abs z) (2 ^ 53)) as [_|B]; [reflexivity|].
  pose proof (roundBig_positive (Z.abs z) B) as R.
  assert (P : 0 < 2 ^ 53) by (apply Z.pow_pos_nonneg; lia).
  destruct (Z.lt_trichotomy z 0) as [N|[E|N]].
  - destruct (Z.ltb_spec z 0) as [_|]; [|lia].
    destruct (Z.ltb_spec 0 z) as [|_]; [lia|].
    destruct (_ <=? _); simpl; [reflexivity|].
    rewrite Z.sgn_neg by exact N. apply Z.ltb_ge. lia.
  - subst z. simpl in B. lia.
  - destruct (Z.ltb_spec z 0) as [|_]; [lia|].
    destruct (Z.ltb_spec 0 z) as [_|]; [|lia].
    destruct (_ <=? _); simpl; [reflexivity|].
    rewrite Z.sgn_pos by exact N. apply Z.ltb_lt. lia.
Qed.

Lemma toNumber_key z : 0 <= z -> isKey (Js.toNumber z).
Proof.
  intros H. unfold Js.toNumber. cbv zeta.
  destruct (Z.ltb_spec (Z.abs z) (2 ^ 53)) as [_|B]; [exact H|].
  pose proof (roundBig_positive (Z.abs z) B) as R.
  destruct (Z.ltb_spec z 0) as [|_]; [lia|].
  destruct (_ <=? _); simpl; [exact I|].
  assert (P : 0 < 2 ^ 53) by (apply Z.pow_pos_nonneg; lia).
  rewrite Z.sgn_pos by lia. lia.
Qed.

End NumberFacts.

Section SortFacts.
Variable A : Type.
Variable key : A -> Js.num.
Hypothesis key_ok : forall a, isKey (key a).

Let comparefn (a b : A) : Js.num := Js.sub (key a) (key b).
Let le (a b : A) : Prop := keyLe (key a) (key b).

Lemma keep_le a b : Js.gtZero (comparefn a b) = false -> le a b.
Proof.
  unfold comparefn, le. generalize (key_ok a) (key_ok b).
  destruct (key a), (key b); cbn [Js.sub isKey keyLe Js.gtZero];
    try tauto; try discriminate.
  rewrite gtZero_toNumber. intros _ _ H. apply Z.ltb_ge in H. lia.
Qed.

Lemma swap_le a b : Js.gtZero (comparefn a b) = true -> le b a.
Proof.
  unfold comparefn, le. generalize (key_ok a) (key_ok b).
  destruct (key a), (key b); cbn [Js.sub isKey keyLe Js.gtZero];
    try tauto; try discriminate.
  rewrite gtZero_toNumber. intros _ _ H. apply Z.ltb_lt in H. lia.
Qed.

Lemma le_keep a b : le a b -> Js.gtZero (comparefn a b) = false.
Proof.
  unfold comparefn, le. generalize (key_ok a) (key_ok b).
  destruct (key a), (key b); cbn [Js.sub isKey keyLe Js.gtZero];
    try tauto.
  rewrite gtZero_toNumber. intros _ _ H. apply Z.ltb_ge. lia.
Qed.

Lemma le_trans a b c : le a b -> le b c -> le a c.
Proof.
  unfold le. destruct (key a), (key b), (key c); simpl; try tauto; lia.
Qed.

Lemma insert_perm x l : Permutation (x :: l) (Js.insert comparefn x l).
Proof.
  induction l as [|y r IH]; simpl.
  - apply Permutation_refl.
  - destruct (Js.gtZero (comparefn x y)).
    + apply perm_trans with (y :: x :: r).
      * apply perm_swap.
      * apply perm_skip. exact IH.
    + apply Permutation_refl.
Qed.

Lemma sort_perm l : Permutation l (Js.sort comparefn l).
Proof.
  induction l as [|x r IH]; simpl.
  - apply perm_nil.
  - apply perm_trans with (x :: Js.sort comparefn r).
    + apply perm_skip. exact IH.
    + apply insert_perm.
Qed.

Lemma insert_sorted x l :
  StronglySorted le l -> StronglySorted le (Js.insert comparefn x l).
Proof.
  induction 1 as [|y r Hs IH Hall]; simpl.
  - constructor; constructor.
  - destruct (Js.gtZero (comparefn x y)) eqn:E.
    + constructor; [exact IH|].
      apply Forall_forall. intros z Hz.
      apply Permutation_in with (l' := x :: r) in Hz.
      * destruct Hz as [<-|Hz]; [apply swap_le; exact E|].
        rewrite Forall_forall in Hall. apply Hall. exact Hz.
      * apply Permutation_sym, insert_perm.
    + constructor.
      * constructor; assumption.
      * constructor; [apply keep_le; exact E|].
        apply Forall_forall. intros z Hz.
        rewrite Forall_forall in Hall.
        apply le_trans with y; [apply keep_le; exact E|apply Hall; exact Hz].
Qed.

Lemma sort_sorted l : StronglySorted le (Js.sort comparefn l).
Proof.
  induction l as [|x r IH]; simpl.
  - constructor.
  - apply insert_sorted. exact IH.
Qed.

(** Sorting leaves a sorted array as it is (the sort is stable). *)
Lemma sort_fixes_sorted l :
  StronglySorted le l -> Js.sort comparefn l = l.
Proof.
  induction 1 as [|x r Hs IH Hall]; simpl.
  - reflexivity.
  - rewrite IH. destruct r as [|y r']; simpl.
    + reflexivity.
    + inversion Hall as [|? ? Hxy _]; subst.
      rewrite (le_keep x y Hxy). reflexivity.
Qed.

End SortFacts.

(** ** The regular expressions *)

Lemma parseDigits_nonneg s acc : (0 <= Z.of_N (Js.parseDigits acc s))%Z.
Proof. lia. Qed.

Lemma tour_key_ok f : isKey (Tour.trailingNumber f).
Proof.
  unfold Tour.trailingNumber.
  destruct (Js.matchDigits (Js.replaceExt f)); [|exact I].
  apply toNumber_key, parseDigits_nonneg.
Qed.

Lemma manifest_key_ok f : isKey (Manifest.trailingNumber f).
Proof.
  unfold Manifest.trailingNumber.
  destruct (Js.matchDigits (Js.replaceExt f)); [|exact I].
  apply toNumber_key, parseDigits_nonneg.
Qed.

(* ================================================================== *)
(** * The panorama graph *)
(* ================================================================== *)

Section GraphFacts.
Import Tour.

Lemma nextSlot_mod len i : nextSlot len i = ((i + 1) mod len)%nat.
Proof.
  unfold nextSlot. destruct len as [|len].
  - simpl. rewrite Z.rem_0_r_ext by reflexivity. lia.
  - rewrite Z.rem_mod_nonneg by lia.
    replace (Z.of_nat i + 1)%Z with (Z.of_nat (i + 1)) by lia.
    rewrite <- Nat2Z.inj_mod. apply Nat2Z.id.
Qed.

Lemma nextSlot_cases len i :
  (i < len)%nat -> nextSlot len i = if (S i =? len)%nat then 0%nat else S i.
Proof.
  intros H. rewrite nextSlot_mod.
  destruct (S i =? len)%nat eqn:E.
  - apply Nat.eqb_eq in E. replace (i + 1)%nat with len by lia.
    apply Nat.Div0.mod_same.
  - apply Nat.eqb_neq in E. rewrite Nat.mod_small; lia.
Qed.

Lemma prevSlot_cases len i :
  (i < len)%nat ->
  prevSlot len i = if (i =? 0)%nat then (len - 1)%nat else (i - 1)%nat.
Proof.
  intros H. unfold prevSlot. rewrite Z.rem_mod_nonneg by lia.
  destruct (i =? 0)%nat eqn:E.
  - apply Nat.eqb_eq in E. subst i. rewrite Z.mod_small by lia. lia.
  - apply Nat.eqb_neq in E.
    replace (Z.of_nat i - 1 + Z.of_nat len)%Z
      with (Z.of_nat i - 1 + 1 * Z.of_nat len)%Z by lia.
    rewrite Z.mod_add by lia. rewrite Z.mod_small by lia. lia.
Qed.

Lemma length_mapNodes len i files :
  List.length (mapNodes len i files) = List.length files.
Proof.
  revert i. induction files as [|f r IH]; intros i; simpl; [|rewrite IH];
    reflexivity.
Qed.

Lemma files_of_mapNodes len i files : map file (mapNodes len i files) = files.
Proof.
  revert i. induction files as [|f r IH]; intros i; simpl; [|rewrite IH];
    reflexivity.
Qed.

Lemma nth_mapNodes len files : forall i k p,
  nth_error (mapNodes len i files) k = Some p ->
  index p = trailingNumber (file p) /\ arrayIdx p = (i + k)%nat /\
  prev p = prevSlot len (i + k) /\ next p = nextSlot len (i + k) /\
  nth_error files k = Some (file p).
Proof.
  induction files as [|f r IH]; intros i k p H.
  - destruct k; discriminate.
  - destruct k as [|k]; simpl in H.
    + injection H as <-. simpl. rewrite Nat.add_0_r. auto.
    + apply IH in H. replace (i + S k)%nat with (S i + k)%nat by lia.
      exact H.
Qed.

Lemma length_buildGraph files :
  List.length (buildGraph files) = List.length files.
Proof.
  unfold buildGraph, sortFiles. rewrite length_mapNodes.
  symmetry. apply Permutation_length.
  apply sort_perm.
Qed.

Lemma files_of_buildGraph files : map file (buildGraph files) = sortFiles files.
Proof. unfold buildGraph. apply files_of_mapNodes. Qed.

Lemma nth_buildGraph files k p :
  nth_error (buildGraph files) k = Some p ->
  index p = trailingNumber (file p) /\ arrayIdx p = k /\
  prev p = prevSlot (List.length files) k /\
  next p = nextSlot (List.length files) k.
Proof.
  unfold buildGraph. intros H. apply nth_mapNodes in H. simpl in H.
  fold (sortFiles files) in H.
  replace (List.length (sortFiles files)) with (List.length files) in H.
  - tauto.
  - apply Permutation_length. apply sort_perm.
Qed.

Lemma stepNext_buildGraph files i :
  (i < List.length files)%nat ->
  stepNext (buildGraph files) i = ((i + 1) mod List.length files)%nat.
Proof.
  intros H. unfold stepNext, deref.
  destruct (nth_error (buildGraph files) i) as [p|] eqn:E.
  - apply nth_buildGraph in E. destruct E as (_ & _ & _ & ->).
    apply nextSlot_mod.
  - apply nth_error_None in E. rewrite length_buildGraph in E. lia.
Qed.

Lemma stepPrev_buildGraph files i :
  (i < List.length files)%nat ->
  stepPrev (buildGraph files) i = prevSlot (List.length files) i.
Proof.
  intros H. unfold stepPrev, deref.
  destruct (nth_error (buildGraph files) i) as [p|] eqn:E.
  - apply nth_buildGraph in E. tauto.
  - apply nth_error_None in E. rewrite length_buildGraph in E. lia.
Qed.

Lemma walk_buildGraph files k : forall i,
  (i < List.length files)%nat ->
  walk (buildGraph files) k i
  = map (fun j => ((i + j) mod List.length files)%nat) (seq 0 k).
Proof.
  induction k as [|k IH]; intros i H.
  - reflexivity.
  - simpl. rewrite Nat.add_0_r, Nat.mod_small by exact H. f_equal.
    rewrite stepNext_buildGraph by exact H.
    rewrite IH by (apply Nat.mod_upper_bound; lia).
    rewrite <- seq_shift, map_map. apply map_ext. intros j.
    rewrite Nat.Div0.add_mod_idemp_l. f_equal. lia.
Qed.

Lemma hops_buildGraph files k : forall i,
  (i < List.length files)%nat ->
  Nat.iter k (stepNext (buildGraph files)) i
  = ((i + k) mod List.length files)%nat.
Proof.
  induction k as [|k IH]; intros i H; simpl.
  - rewrite Nat.add_0_r. symmetry. apply Nat.mod_small. exact H.
  - rewrite IH by exact H.
    rewrite stepNext_buildGraph by (apply Nat.mod_upper_bound; lia).
    rewrite Nat.Div0.add_mod_idemp_l. f_equal. lia.
Qed.

Lemma rotation_injective n i j1 j2 :
  (j1 < n)%nat -> (j2 < n)%nat ->
  ((i + j1) mod n = (i + j2) mod n)%nat -> j1 = j2.
Proof.
  intros H1 H2 E.
  pose proof (Nat.div_mod_eq (i + j1) n) as D1.
  pose proof (Nat.div_mod_eq (i + j2) n) as D2.
  rewrite E in D1.
  assert ((i + j1) / n = (i + j2) / n)%nat by nia.
  nia.
Qed.

Lemma rotation_perm n i :
  Permutation (map (fun j => ((i + j) mod n)%nat) (seq 0 n)) (seq 0 n).
Proof.
  apply NoDup_Permutation_bis.
  - apply NoDup_map_NoDup_ForallPairs; [|apply seq_NoDup].
    intros a b Ha Hb E. apply in_seq in Ha, Hb.
    apply (rotation_injective n i); [lia|lia|exact E].
  - rewrite length_map. apply Nat.le_refl.
  - intros x Hx. apply in_map_iff in Hx. destruct Hx as (j & <- & Hj).
    apply in_seq in Hj. apply in_seq. split; [lia|].
    simpl. apply Nat.mod_upper_bound. lia.
Qed.

End GraphFacts.

(* ================================================================== *)
(** * The trailing-number parsers *)
(* ================================================================== *)

Section ParserFacts.
Local Open Scope string_scope.

Lemma all_app p a b : Js.all p (a ++ b) = Js.all p a && Js.all p b.
Proof.
  induction a as [|c r IH]; simpl; [reflexivity|].
  rewrite IH. apply andb_assoc.
Qed.

Lemma dot_not_word : Js.isWord "."%char = false.
Proof. reflexivity. Qed.

Lemma isDigit_isWord c : Js.isDigit c = true -> Js.isWord c = true.
Proof. unfold Js.isWord. intros ->. reflexivity. Qed.

Lemma dot_code c : (nat_of_ascii c =? 46)%nat = true -> c = "."%char.
Proof.
  intros H. apply Nat.eqb_eq in H.
  rewrite <- (ascii_nat_embedding c), H. reflexivity.
Qed.

(** A final dot-extension is removed. *)
Lemma replaceExt_strips base ext :
  Js.nonEmpty ext = true -> Js.all Js.isWord ext = true ->
  Js.replaceExt (base ++ String "." ext) = base.
Proof.
  intros Hne Hw. induction base as [|c r IH].
  - simpl. rewrite Hne, Hw. reflexivity.
  - cbn [append Js.replaceExt].
    destruct (Js.extHere (String c (r ++ String "." ext))) eqn:E.
    + exfalso. unfold Js.extHere in E.
      rewrite all_app in E.
      change (Js.all Js.isWord (String "." ext))
        with (Js.isWord "."%char && Js.all Js.isWord ext) in E.
      rewrite dot_not_word, andb_false_l, !andb_false_r in E.
      discriminate.
    + rewrite IH. reflexivity.
Qed.

(** Without a final dot-extension the name is kept. *)
Lemma replaceExt_keeps s :
  (forall base ext, s = base ++ String "." ext ->
     Js.nonEmpty ext && Js.all Js.isWord ext = false) ->
  Js.replaceExt s = s.
Proof.
  induction s as [|c r IH]; intros H.
  - reflexivity.
  - cbn [Js.replaceExt].
    destruct (Js.extHere (String c r)) eqn:E.
    + exfalso. unfold Js.extHere in E.
      apply andb_prop in E. destruct E as [E Hw].
      apply andb_prop in E. destruct E as [Hc Hne].
      apply dot_code in Hc. subst c.
      specialize (H "" r eq_refl). rewrite Hne, Hw in H. discriminate.
    + rewrite IH; [reflexivity|].
      intros base ext ->. apply (H (String c base) ext). reflexivity.
Qed.

Lemma endsInDigit_all d :
  Js.nonEmpty d = true -> Js.all Js.isDigit d = true -> endsInDigit d = true.
Proof.
  induction d as [|c r IH]; intros Hne Hd; [discriminate|].
  simpl in Hd. apply andb_prop in Hd. destruct Hd as [Hc Hr].
  destruct r as [|c' r']; [exact Hc|].
  change (endsInDigit (String c' r') = true). apply IH; [reflexivity|exact Hr].
Qed.

Lemma endsInDigit_app a b :
  Js.nonEmpty b = true -> endsInDigit (a ++ b) = endsInDigit b.
Proof.
  intros Hb. induction a as [|c r IH]; [reflexivity|].
  cbn [append]. destruct (r ++ b) eqn:E.
  - destruct r, b; discriminate.
  - rewrite <- IH. reflexivity.
Qed.

(** No trailing digit: the pattern has no match. *)
Lemma matchDigits_none s : endsInDigit s = false -> Js.matchDigits s = None.
Proof.
  induction s as [|c r IH]; intros H; [reflexivity|].
  cbn [Js.matchDigits].
  destruct (Js.nonEmpty (String c r) && Js.all Js.isDigit (String c r)) eqn:E.
  - apply andb_prop in E. destruct E as [E1 E2].
    rewrite (endsInDigit_all _ E1 E2) in H. discriminate.
  - apply IH. destruct r; [reflexivity|exact H].
Qed.

(** The match is the whole trailing run of digits. *)
Lemma matchDigits_run pre d :
  endsInDigit pre = false ->
  Js.nonEmpty d = true -> Js.all Js.isDigit d = true ->
  Js.matchDigits (pre ++ d) = Some d.
Proof.
  intros Hpre Hne Hd. induction pre as [|c r IH].
  - destruct d as [|c r]; [discriminate|].
    cbn [append Js.matchDigits]. rewrite Hd. reflexivity.
  - cbn [append Js.matchDigits].
    destruct (Js.nonEmpty (String c (r ++ d))
              && Js.all Js.isDigit (String c (r ++ d))) eqn:E.
    + exfalso. apply andb_prop in E. destruct E as [_ E].
      change (Js.all Js.isDigit (String c r ++ d) = true) in E.
      rewrite all_app in E. apply andb_prop in E. destruct E as [E _].
      rewrite (endsInDigit_all (String c r) eq_refl E) in Hpre.
      discriminate.
    + apply IH. destruct r; [reflexivity|exact Hpre].
Qed.

Lemma parseDigits_decimal d : forall acc,
  Js.parseDigits acc d
  = (acc * 10 ^ N.of_nat (String.length d) + decimal d)%N.
Proof.
  induction d as [|c r IH]; intros acc.
  - simpl. lia.
  - cbn [Js.parseDigits decimal String.length]. rewrite IH.
    rewrite Nat2N.inj_succ, N.pow_succ_r'. lia.
Qed.

(** [trailingNumber] on a name with a trailing run of digits. *)
Lemma trailingNumber_digits f pre d :
  Js.replaceExt f = pre ++ d -> endsInDigit pre = false ->
  Js.nonEmpty d = true -> Js.all Js.isDigit d = true ->
  Tour.trailingNumber f = Js.toNumber (Z.of_N (decimal d)).
Proof.
  intros Hf Hpre Hne Hd. unfold Tour.trailingNumber.
  rewrite Hf, (matchDigits_run pre d Hpre Hne Hd).
  unfold Js.parseInt10. rewrite parseDigits_decimal. reflexivity.
Qed.

(** [trailingNumber] on a name without trailing digits. *)
Lemma trailingNumber_sentinel f :
  endsInDigit (Js.replaceExt f) = false -> Tour.trailingNumber f = Js.PosInf.
Proof.
  intros H. unfold Tour.trailingNumber.
  rewrite (matchDigits_none _ H). reflexivity.
Qed.

Lemma matchDigits_some s d :
  Js.matchDigits s = Some d -> endsInDigit s = true.
Proof.
  intros H. destruct (endsInDigit s) eqn:E; [reflexivity|].
  rewrite (matchDigits_none _ E) in H. discriminate.
Qed.

End ParserFacts.

Section ManifestOrder.
Import Tour.
Local Open Scope string_scope.

Lemma sortFiles_sorted files :
  StronglySorted (fun a b => keyLe (trailingNumber a) (trailingNumber b))
                 (sortFiles files).
Proof. apply (sort_sorted string trailingNumber tour_key_ok). Qed.

Lemma mapNodes_sorted len files : forall i,
  StronglySorted (fun a b => keyLe (trailingNumber a) (trailingNumber b))
                 files ->
  StronglySorted (fun a b => keyLe (index a) (index b))
                 (mapNodes len i files).
Proof.
  induction files as [|f r IH]; intros i H; simpl.
  - constructor.
  - inversion H as [|? ? Hs Hall]; subst. constructor.
    + apply IH. exact Hs.
    + apply Forall_forall. intros p Hp.
      apply In_nth_error in Hp. destruct Hp as [k Hk].
      apply nth_mapNodes in Hk. destruct Hk as (-> & _ & _ & _ & Hf).
      simpl. rewrite Forall_forall in Hall. apply Hall.
      apply (nth_error_In _ _ Hf).
Qed.

Lemma prev_next_inverse files i :
  (i < List.length files)%nat ->
  stepPrev (buildGraph files) (stepNext (buildGraph files) i) = i /\
  stepNext (buildGraph files) (stepPrev (buildGraph files) i) = i.
Proof.
  intros H. split.
  - rewrite stepNext_buildGraph by exact H.
    rewrite stepPrev_buildGraph by (apply Nat.mod_upper_bound; lia).
    rewrite <- nextSlot_mod, (nextSlot_cases _ _ H).
    destruct (S i =? List.length files)%nat eqn:E.
    + rewrite prevSlot_cases by lia. simpl. apply Nat.eqb_eq in E. lia.
    + apply Nat.eqb_neq in E. rewrite prevSlot_cases by lia. simpl. lia.
  - rewrite stepPrev_buildGraph by exact H.
    rewrite (prevSlot_cases _ _ H).
    destruct (i =? 0)%nat eqn:E.
    + apply Nat.eqb_eq in E. subst i.
      rewrite stepNext_buildGraph by lia.
      replace (List.length files - 1 + 1)%nat with (List.length files)
        by lia.
      apply Nat.Div0.mod_same.
    + apply Nat.eqb_neq in E. rewrite stepNext_buildGraph by lia.
      rewrite Nat.mod_small; lia.
Qed.

End ManifestOrder.

(** C5 (amended). Loading a manifest gives every node as index the
    trailing integer of its file name as a Number: the integer itself
    below 2^53, its rounding to the nearest Number beyond (the +Infinity
    sentinel when the name, without its extension, does not end in a
    digit). It orders the nodes by ascending index with the sentinel last,
    and links [prev]/[next] circularly: from any node of a non-empty graph,
    following [next] as many times as there are nodes visits every node
    exactly once and comes back to the start, and [prev] undoes [next]. For
    the manifest room-3, room-1, room-10 the order is room-1, room-3,
    room-10 and the [next] of room-10 is room-1. *)
Theorem manifest_graph_sorted_cycle (files : list string) :
  files <> [] ->
  let g := Tour.buildGraph files in
  let n := List.length files in
  (forall k p, nth_error g k = Some p ->
     Tour.index p = Tour.trailingNumber (Tour.file p) /\
     Tour.arrayIdx p = k /\
     (endsInDigit (Js.replaceExt (Tour.file p)) = false ->
      Tour.index p = Js.PosInf) /\
     (forall pre d,
        Js.replaceExt (Tour.file p) = (pre ++ d)%string ->
        endsInDigit pre = false ->
        Js.nonEmpty d = true -> Js.all Js.isDigit d = true ->
        Tour.index p = Js.toNumber (Z.of_N (decimal d)) /\
        ((decimal d < 2 ^ 53)%N ->
         Tour.index p = Js.Fin (Z.of_N (decimal d))))) /\
  (forall k, keyLe k Js.PosInf) /\
  Permutation files (map Tour.file g) /\
  StronglySorted (fun a b => keyLe (Tour.index a) (Tour.index b)) g /\
  (forall i, (i < n)%nat ->
     Permutation (Tour.walk g n i) (seq 0 n) /\
     Nat.iter n (Tour.stepNext g) i = i /\
     Tour.stepPrev g (Tour.stepNext g i) = i /\
     Tour.stepNext g (Tour.stepPrev g i) = i) /\
  map Tour.file (Tour.buildGraph Tour.roomFiles)
  = ["room-1.jpg"; "room-3.jpg"; "room-10.jpg"]%string /\
  (exists p10 p1,
     Tour.getPanoByNumber (Tour.buildGraph Tour.roomFiles) (Js.Fin 10)
     = Some p10 /\
     Tour.file p10 = "room-10.jpg"%string /\
     Tour.deref (Tour.buildGraph Tour.roomFiles) (Tour.next p10) = Some p1 /\
     Tour.file p1 = "room-1.jpg"%string /\
     Tour.getPanoByNumber (Tour.buildGraph Tour.roomFiles) (Js.Fin 1)
     = Some p1).
Proof.
  intros Hne g n. repeat split.
  - apply (nth_buildGraph files k p H).
  - apply (nth_buildGraph files k p H).
  - intros E. destruct (nth_buildGraph files k p H) as (-> & _).
    apply trailingNumber_sentinel. exact E.
  - destruct (nth_buildGraph files k p H) as (-> & _).
    apply (trailingNumber_digits _ pre d H0 H1 H2 H3).
  - intros B. destruct (nth_buildGraph files k p H) as (-> & _).
    rewrite (trailingNumber_digits _ pre d H0 H1 H2 H3).
    apply toNumber_exact. lia.
  - intros k. destruct k; exact I.
  - unfold g. rewrite files_of_buildGraph.
    apply (sort_perm string Tour.trailingNumber).
  - unfold g, Tour.buildGraph. apply mapNodes_sorted, sortFiles_sorted.
  - unfold g. rewrite walk_buildGraph by exact H. apply rotation_perm.
  - unfold g. rewrite hops_buildGraph by exact H.
    fold n. replace (i + n)%nat with (i + 1 * n)%nat by lia.
    rewrite Nat.Div0.mod_add. apply Nat.mod_small. exact H.
  - apply (prev_next_inverse files i H).
  - apply (prev_next_inverse files i H).
  - eexists. eexists. repeat split.
Qed.

Lemma manifest_graph_sorted_cycle_witness :
  Permutation Tour.roomFiles (map Tour.file (Tour.buildGraph Tour.roomFiles))
  /\ Permutation (Tour.walk (Tour.buildGraph Tour.roomFiles) 3 2) (seq 0 3).
Proof.
  assert (Hne : Tour.roomFiles <> []) by discriminate.
  destruct (manifest_graph_sorted_cycle Tour.roomFiles Hne)
    as (_ & _ & Hperm & _ & Hcycle & _).
  split; [exact Hperm|].
  apply (Hcycle 2%nat). simpl. lia.
Defined.

(** C5, the claim as written fails: a trailing integer above 2^53 is not
    the index of its node, and the order is by the rounded keys. Of two
    files numbered 2^53 + 1 and 2^53, in this order in the manifest, both
    get the index 2^53 and the first stays first. *)
Lemma manifest_sort_rounds_large_numbers :
  let files := ["a-9007199254740993.jpg"; "a-9007199254740992.jpg"]%string in
  map Tour.file (Tour.buildGraph files) = files /\
  map Tour.index (Tour.buildGraph files)
  = [Js.Fin 9007199254740992; Js.Fin 9007199254740992] /\
  (decimal "9007199254740992" < decimal "9007199254740993")%N /\
  Js.Fin (Z.of_N (decimal "9007199254740993")) <> Js.Fin 9007199254740992.
Proof.
  cbv zeta. split; [vm_compute; reflexivity|].
  split; [vm_compute; reflexivity|].
  split; [vm_compute; reflexivity|].
  vm_compute. discriminate.
Qed.

(** C10 (amended). The trailing-number parser of the manifest script and
    the one of the tour core return the same key for every file name: both
    remove a final dot-extension, read the trailing run of decimal digits
    of what is left as a base-10 integer and return it as a Number (the
    integer itself below 2^53, its rounding to the nearest Number beyond),
    and return +Infinity when what is left does not end in a digit. Hence
    both sorts order every file list alike, and the sort at load time
    leaves a manifest written by the script in its order. *)
Theorem trailingNumber_parsers_agree :
  (forall f, Manifest.trailingNumber f = Tour.trailingNumber f) /\
  (forall base ext,
     Js.nonEmpty ext = true -> Js.all Js.isWord ext = true ->
     Js.replaceExt (base ++ String "." ext)%string = base) /\
  (forall s,
     (forall base ext, s = (base ++ String "." ext)%string ->
        Js.nonEmpty ext && Js.all Js.isWord ext = false) ->
     Js.replaceExt s = s) /\
  (forall f pre d,
     Js.replaceExt f = (pre ++ d)%string -> endsInDigit pre = false ->
     Js.nonEmpty d = true -> Js.all Js.isDigit d = true ->
     Manifest.trailingNumber f = Js.toNumber (Z.of_N (decimal d)) /\
     Tour.trailingNumber f = Js.toNumber (Z.of_N (decimal d)) /\
     ((decimal d < 2 ^ 53)%N ->
      Manifest.trailingNumber f = Js.Fin (Z.of_N (decimal d)) /\
      Tour.trailingNumber f = Js.Fin (Z.of_N (decimal d)))) /\
  (forall f,
     endsInDigit (Js.replaceExt f) = false ->
     Manifest.trailingNumber f = Js.PosInf /\
     Tour.trailingNumber f = Js.PosInf) /\
  (forall files,
     Tour.sortFiles files
     = Js.sort (fun a b => Js.sub (Manifest.trailingNumber a)
                                  (Manifest.trailingNumber b)) files) /\
  (forall listing,
     Tour.sortFiles (Manifest.files listing) = Manifest.files listing /\
     map Tour.file (Tour.buildGraph (Manifest.files listing))
     = Manifest.files listing).
Proof.
  split; [reflexivity|].
  split; [exact replaceExt_strips|].
  split; [exact replaceExt_keeps|].
  split.
  { intros f pre d E Hpre H1 H2.
    pose proof (trailingNumber_digits f pre d E Hpre H1 H2) as K.
    split; [exact K|]. split; [exact K|].
    intros B. change (Manifest.trailingNumber f) with (Tour.trailingNumber f).
    rewrite K. split; apply toNumber_exact; lia. }
  split.
  { intros f E. split; apply (trailingNumber_sentinel f E). }
  split; [reflexivity|].
  intros listing.
  assert (E : Tour.sortFiles (Manifest.files listing) = Manifest.files listing).
  { apply (sort_fixes_sorted string Tour.trailingNumber tour_key_ok).
    apply (sort_sorted string Manifest.trailingNumber manifest_key_ok). }
  split; [exact E|].
  rewrite files_of_buildGraph. exact E.
Qed.

Lemma trailingNumber_parsers_agree_witness :
  Manifest.trailingNumber "room-10.jpg" = Js.Fin 10 /\
  Tour.trailingNumber "room-10.jpg" = Js.Fin 10 /\
  Js.replaceExt "room-10.jpg" = "room-10"%string /\
  Tour.trailingNumber "cover.jpg" = Js.PosInf /\
  Js.replaceExt "README" = "README"%string.
Proof.
  destruct trailingNumber_parsers_agree as (_ & Hs & Hk & Hd & Hi & _).
  destruct (Hd "room-10.jpg" "room-" "10")%string as (_ & _ & Hx);
    try reflexivity.
  destruct Hx as [H1 H2]; [reflexivity|].
  split; [exact H1|]. split; [exact H2|].
  split; [apply (Hs "room-10" "jpg")%string; reflexivity|].
  split; [apply (Hi "cover.jpg"%string); reflexivity|].
  apply Hk. intros base ext E.
  destruct base as [|c0 [|c1 [|c2 [|c3 [|c4 [|c5 [|c6 b]]]]]]];
    simpl in E; try discriminate; injection E; intros; discriminate.
Defined.

(** C10, the claim as written fails: for a trailing run above 2^53 neither
    parser returns the integer the digits denote; both return its nearest
    Number. *)
Lemma parsers_round_large_numbers :
  Manifest.trailingNumber "pano_9007199254740993.jpeg"
  = Js.Fin 9007199254740992 /\
  Tour.trailingNumber "pano_9007199254740993.jpeg"
  = Js.Fin 9007199254740992 /\
  Z.of_N (decimal "9007199254740993") = 9007199254740993%Z /\
  Tour.trailingNumber "pano_9007199254740993.jpeg"
  <> Js.Fin (Z.of_N (decimal "9007199254740993")).
Proof.
  split; [vm_compute; reflexivity|].
  split; [vm_compute; reflexivity|].
  split; [vm_compute; reflexivity|].
  vm_compute. discriminate.
Qed.

(* ================================================================== *)
(** * Teleport easing *)
(* ================================================================== *)

Section Easing.
Local Open Scope R_scope.

Lemma cube_monotone a b : 0 <= a -> a <= b -> a * a * a <= b * b * b.
Proof.
  intros Ha Hab.
  assert (H1 : a * a <= b * b) by nra.
  assert (H2 : 0 <= a * a) by nra.
  nra.
Qed.

Lemma ease_low p : p < 0.5 -> Tour.ease p = 4 * p * p * p.
Proof.
  intros H. unfold Tour.ease. destruct (Rlt_dec p 0.5); [reflexivity|lra].
Qed.

Lemma ease_high p :
  0.5 <= p -> Tour.ease p = 1 - (-2 * p + 2) ^ 3 / 2.
Proof.
  intros H. unfold Tour.ease. destruct (Rlt_dec p 0.5); [lra|reflexivity].
Qed.

Lemma ease_monotone p q : 0 <= p -> p <= q -> q <= 1 ->
  Tour.ease p <= Tour.ease q.
Proof.
  intros Hp Hpq Hq.
  destruct (Rlt_dec p 0.5) as [Lp|Lp]; destruct (Rlt_dec q 0.5) as [Lq|Lq].
  - rewrite (ease_low p Lp), (ease_low q Lq).
    pose proof (cube_monotone p q Hp Hpq). lra.
  - rewrite (ease_low p Lp), (ease_high q) by lra.
    pose proof (cube_monotone p 0.5 Hp ltac:(lra)) as H1.
    pose proof (cube_monotone (-2 * q + 2) 1 ltac:(lra) ltac:(lra)) as H2.
    simpl. lra.
  - lra.
  - rewrite (ease_high p), (ease_high q) by lra.
    pose proof (cube_monotone (-2 * q + 2) (-2 * p + 2)
                  ltac:(lra) ltac:(lra)) as H.
    simpl. lra.
Qed.

End Easing.

(** C6. The teleport easing of the tour core, 4p^3 below one half and
    1 - (-2p+2)^3/2 from there on, takes 0 to 0, 0.5 to 0.5 and 1 to 1 and
    is non-decreasing on [0,1]; the legacy viewer uses the same function,
    and the progress fed to it never exceeds 1. *)
Theorem ease_endpoints_monotone :
  (forall p, (p < 0.5 -> Tour.ease p = 4 * p * p * p) /\
             (0.5 <= p -> Tour.ease p = 1 - (-2 * p + 2) ^ 3 / 2))%R /\
  Tour.ease 0 = 0%R /\
  Tour.ease 0.5 = 0.5%R /\
  Tour.ease 1 = 1%R /\
  (forall p q, 0 <= p -> p <= q -> q <= 1 -> Tour.ease p <= Tour.ease q)%R /\
  (forall p, Legacy.eased p = Tour.ease p) /\
  (forall t0 t, Legacy.progress t0 t <= 1)%R.
Proof.
  split. { intros p. split; [apply ease_low|apply ease_high]. }
  split. { rewrite ease_low by lra. lra. }
  split. { rewrite ease_high by lra. simpl. lra. }
  split. { rewrite ease_high by lra. simpl. lra. }
  split. { exact ease_monotone. }
  split. { reflexivity. }
  intros t0 t. apply Rmin_r.
Qed.

Lemma ease_endpoints_monotone_witness :
  (Tour.ease 0.25 <= Tour.ease 0.75)%R /\
  Tour.ease 0.25 = (4 * 0.25 * 0.25 * 0.25)%R.
Proof.
  destruct ease_endpoints_monotone as (Hf & _ & _ & _ & Hm & _).
  split.
  - apply Hm; lra.
  - apply (Hf 0.25%R). lra.
Defined.

(* ================================================================== *)
(** * The engine: zoom, taps, mode switches, floor markers *)
(* ================================================================== *)

Section EngineFacts.
Import Tour.
Local Open Scope R_scope.

Variable OrbitState : Type.
Variable orbitUpdate :
  OrbitState -> Vec3 -> Vec3 -> OrbitState * (Vec3 * Vec3).

Local Abbreviation St := (State OrbitState).


Lemma clamp_in_range v : 30 <= clampFov v <= 100.
Proof.
  unfold clampFov. split.
  - apply Rmax_l.
  - apply Rmax_lub; [lra|apply Rmin_l].
Qed.

(** *** What each operation does to the look and zoom accumulators *)

Lemma controlsUpdate_pano (s : St) :
  pano (controlsUpdate orbitUpdate s) = pano s.
Proof.
  unfold controlsUpdate.
  destruct (orbitUpdate _ _ _) as [o [p t]]. reflexivity.
Qed.

Lemma enterPanorama_fov n (s : St) :
  fovInRange s -> fovInRange (enterPanorama n s).
Proof.
  unfold fovInRange, enterPanorama. intros H.
  destruct (getPanoByNumber _ _); simpl; [lra|exact H].
Qed.

Lemma navigatePano_fov p (s : St) :
  fovInRange s -> fovInRange (navigatePano p s).
Proof.
  unfold fovInRange, navigatePano. intros H.
  destruct p; simpl; [lra|exact H].
Qed.

Lemma exitPanorama_fov (s : St) :
  panoFov (pano (exitPanorama orbitUpdate s)) = panoFov (pano s).
Proof.
  unfold exitPanorama, showDollhouse.
  split_cases; simpl; rewrite ?controlsUpdate_pano; reflexivity.
Qed.

Lemma onPointerClick_fov hit (s : St) :
  fovInRange s -> fovInRange (onPointerClick hit s).
Proof.
  unfold onPointerClick. intros H.
  split_cases; auto using enterPanorama_fov, navigatePano_fov.
Qed.

Lemma createPanoArrows_fov (s : St) :
  panoFov (pano (createPanoArrows s)) = panoFov (pano s).
Proof. unfold createPanoArrows. split_cases; reflexivity. Qed.

Lemma handle_fov i (s : St) :
  fovInRange s -> fovInRange (handle orbitUpdate i s).
Proof.
  intros H.
  destruct i; cbn [handle];
    unfold onTouchStart, onTouchMove, onTouchEnd, onGlobalPointerMove,
      onGlobalPointerUp, onGlobalPointerDown, onPanoPointerDown,
      onPanoPointerMove, onPanoWheel, onKeyDown, textureLoaded, animate,
      hotspotPositionsLoaded, graphReady, modelLoaded, createHotspotMeshes,
      fitCameraToModel;
    split_cases;
    try apply onPointerClick_fov;
    unfold fovInRange in *; simpl;
    rewrite ?exitPanorama_fov, ?createPanoArrows_fov, ?controlsUpdate_pano;
    simpl;
    solve [exact H | apply clamp_in_range].
Qed.

Lemma run_fov inputs : forall s : St,
  fovInRange s -> fovInRange (run orbitUpdate inputs s).
Proof.
  induction inputs as [|i r IH]; intros s H; simpl.
  - exact H.
  - apply IH, handle_fov, H.
Qed.

(** C7. Whatever inputs the tour handles, wheel and pinch zoom of any
    magnitude and sign among them, the field-of-view accumulator stays in
    [30, 100] (it starts at 60). In panorama mode a wheel event adds 0.05
    times its delta and a two-finger move adds 0.15 times the decrease of
    the finger distance, both to the same accumulator, which is clamped to
    [30, 100] and copied to the camera. *)
Theorem fov_accumulator_clamped :
  (forall o : OrbitState, fovInRange (initial o)) /\
  (forall (inputs : list Input) (s : St),
     fovInRange s -> fovInRange (run orbitUpdate inputs s)) /\
  (forall (e : Event) (s : St),
     currentMode s = Panorama ->
     let s' := handle orbitUpdate (Wheel e) s in
     panoFov (pano s') = clampFov (panoFov (pano s) + deltaY e * 0.05) /\
     fov (camera s') = panoFov (pano s')) /\
  (forall (e : Event) (s : St),
     currentMode s = Panorama -> touchCount (touches e) = 2%nat ->
     let s' := handle orbitUpdate (TouchMove e) s in
     panoFov (pano s')
     = clampFov (panoFov (pano s)
                 + (panoPinchDist (ptr s) - getTouchDist e) * 0.15) /\
     fov (camera s') = panoFov (pano s') /\
     panoPinchDist (ptr s') = getTouchDist e) /\
  (forall v, 30 <= clampFov v <= 100).
Proof.
  split. { intros o. unfold fovInRange. simpl. lra. }
  split. { intros inputs s. apply run_fov. }
  split.
  { intros e s Hm. cbn [handle]. unfold onPanoWheel. rewrite Hm.
    split; reflexivity. }
  split.
  { intros e s Hm Ht. cbn [handle]. unfold onTouchMove.
    rewrite Hm, Ht. repeat split; reflexivity. }
  exact clamp_in_range.
Qed.

End EngineFacts.

Lemma fov_accumulator_clamped_witness :
  fovInRange
    (Tour.run Tour.restingOrbit
       [Tour.Wheel (Tour.wheelBy 1000000);
        Tour.TouchMove (Tour.pinchAt 0 0 3 4);
        Tour.Wheel (Tour.wheelBy (-5000))]
       (Tour.enterPanorama (Js.Fin 1) Tour.readyTour)).
Proof.
  destruct (fov_accumulator_clamped unit Tour.restingOrbit)
    as (_ & Hrun & _).
  apply Hrun. unfold fovInRange. simpl. lra.
Defined.

Section Taps.
Import Tour.
Local Open Scope R_scope.

Lemma pointer_coordinate x : orZero (orElse (Some x) None) = x.
Proof.
  unfold orElse. destruct (Req_dec_T x 0) as [->|_]; reflexivity.
Qed.

Lemma distance_along_x a b y : a <= b ->
  sqrt ((b - a) ^ 2 + (y - y) ^ 2) = b - a.
Proof.
  intros H. replace ((b - a) ^ 2 + (y - y) ^ 2) with ((b - a) ^ 2) by ring.
  apply sqrt_pow2. lra.
Qed.

Lemma pressed_elapsed now : elapsedAt now pressed = now - 1000.
Proof. reflexivity. Qed.

Lemma pressed_dist x : 200 <= x ->
  distAt (pointerAt x 150) pressed = x - 200.
Proof.
  intros H. unfold distAt. cbn [clientX clientY pointerAt changedTouches firstX firstY].
  rewrite !pointer_coordinate.
  unfold pressed, onGlobalPointerDown.
  cbn [clientX clientY pointerAt touches firstX firstY].
  rewrite !pointer_coordinate. simpl.
  replace ((x - 200) * ((x - 200) * 1) + (150 - 150) * ((150 - 150) * 1))
    with ((x - 200) ^ 2 + (150 - 150) ^ 2) by ring.
  apply distance_along_x. exact H.
Qed.

Lemma pointerUp_cases (O : Type) now hit e (s : State O) :
  (isTap now e s ->
   onGlobalPointerUp now hit e s = onPointerClick hit (onPanoPointerUp s)) /\
  (~ isTap now e s -> onGlobalPointerUp now hit e s = onPanoPointerUp s).
Proof.
  unfold isTap, onGlobalPointerUp.
  change (elapsedAt now (onPanoPointerUp s)) with (elapsedAt now s).
  change (distAt e (onPanoPointerUp s)) with (distAt e s).
  destruct (Rlt_dec (elapsedAt now s) 300);
    destruct (Rlt_dec (distAt e s) 10); split; intros H;
    try reflexivity; tauto.
Qed.

End Taps.

(** C9. On pointer-up the pair of pointer-down and pointer-up counts as a
    tap exactly when the time since pointer-down is below 300 ms and the
    distance from the pointer-down position is below 10; the click handler
    (the hit test) runs for taps and only for them. After a press at time
    1000 at (200, 150): a release 100 ms later 3 units away is a tap and its
    click on the first hotspot opens the panorama; a release after 500 ms,
    or 50 units away, is no tap and only lifts the pointer. *)
Theorem tap_classification :
  (forall (O : Type) now hit e (s : Tour.State O),
     (isTap now e s <->
      (now - Tour.pointerDownTime (Tour.ptr s) < 300 /\ Tour.distAt e s < 10)%R)
     /\
     (isTap now e s ->
      Tour.onGlobalPointerUp now hit e s
      = Tour.onPointerClick hit (Tour.onPanoPointerUp s)) /\
     (~ isTap now e s ->
      Tour.onGlobalPointerUp now hit e s = Tour.onPanoPointerUp s)) /\
  (Tour.elapsedAt 1100 Tour.pressed = 100%R /\
   Tour.distAt (Tour.pointerAt 203 150) Tour.pressed = 3%R /\
   isTap 1100 (Tour.pointerAt 203 150) Tour.pressed /\
   Tour.currentMode Tour.pressed = Tour.Dollhouse /\
   Tour.currentMode
     (Tour.onGlobalPointerUp 1100 (Some 0%nat) (Tour.pointerAt 203 150)
        Tour.pressed) = Tour.Panorama) /\
  (Tour.elapsedAt 1500 Tour.pressed = 500%R /\
   ~ isTap 1500 (Tour.pointerAt 203 150) Tour.pressed /\
   Tour.onGlobalPointerUp 1500 (Some 0%nat) (Tour.pointerAt 203 150)
     Tour.pressed = Tour.onPanoPointerUp Tour.pressed) /\
  (Tour.distAt (Tour.pointerAt 250 150) Tour.pressed = 50%R /\
   ~ isTap 1100 (Tour.pointerAt 250 150) Tour.pressed /\
   Tour.onGlobalPointerUp 1100 (Some 0%nat) (Tour.pointerAt 250 150)
     Tour.pressed = Tour.onPanoPointerUp Tour.pressed).
Proof.
  assert (E : forall now, Tour.elapsedAt now Tour.pressed = (now - 1000)%R)
    by reflexivity.
  assert (D : forall x, (200 <= x)%R ->
            Tour.distAt (Tour.pointerAt x 150) Tour.pressed = (x - 200)%R)
    by exact pressed_dist.
  split.
  { intros O now hit e s. split; [reflexivity|].
    apply pointerUp_cases. }
  split.
  { assert (T : isTap 1100 (Tour.pointerAt 203 150) Tour.pressed).
    { unfold isTap. rewrite E, D by lra. lra. }
    split; [rewrite E; lra|].
    split; [rewrite D by lra; lra|].
    split; [exact T|].
    split; [reflexivity|].
    destruct (pointerUp_cases unit 1100%R (Some 0%nat)
                (Tour.pointerAt 203 150) Tour.pressed) as [H _].
    rewrite (H T). reflexivity. }
  split.
  { assert (T : ~ isTap 1500 (Tour.pointerAt 203 150) Tour.pressed).
    { unfold isTap. rewrite E. lra. }
    split; [rewrite E; lra|].
    split; [exact T|].
    apply pointerUp_cases. exact T. }
  assert (T : ~ isTap 1100 (Tour.pointerAt 250 150) Tour.pressed).
  { unfold isTap. rewrite D by lra. lra. }
  split; [rewrite D by lra; lra|].
  split; [exact T|].
  apply pointerUp_cases. exact T.
Qed.

Lemma tap_classification_witness :
  Tour.onGlobalPointerUp 1100 None (Tour.pointerAt 203 150) Tour.pressed
  = Tour.onPointerClick None (Tour.onPanoPointerUp Tour.pressed).
Proof.
  destruct tap_classification as (H & (_ & _ & T & _) & _).
  destruct (H unit 1100%R None (Tour.pointerAt 203 150) Tour.pressed)
    as (_ & Htap & _).
  apply Htap. exact T.
Defined.

Section FloorMarkers.
Import Tour.
Local Open Scope R_scope.

Lemma atan2_east : atan2 0 1 = 0.
Proof.
  unfold atan2. destruct (Rlt_dec 0 1); [|lra].
  replace (0 / 1) with 0 by field. apply atan_0.
Qed.

Lemma atan2_south : atan2 1 0 = PI / 2.
Proof.
  unfold atan2. destruct (Rlt_dec 0 0); [lra|].
  destruct (Rlt_dec 0 1); [reflexivity|lra].
Qed.

Lemma quarter_turn : radToDeg (PI / 2) = 90.
Proof. unfold radToDeg. field. apply PI_neq0. Qed.

Lemma getPanoByNumber_index g t p :
  getPanoByNumber g t = Some p -> index p = t.
Proof.
  unfold getPanoByNumber. intros H. apply find_some in H.
  destruct H as [_ H]. destruct (index p), t; simpl in H;
    try discriminate; try reflexivity.
  apply Z.eqb_eq in H. subst. reflexivity.
Qed.

Lemma arrowsTo_sound g h i cur conns m :
  In m (arrowsTo g h i cur conns) ->
  exists t q, In t conns /\ getPanoByNumber g t = Some (goal m) /\
              h t = Some q /\ m = markerFor i cur (goal m) q.
Proof.
  induction conns as [|t r IH]; simpl; [tauto|].
  destruct (getPanoByNumber g t) as [tp|] eqn:Eg;
    [destruct (h t) as [q|] eqn:Eh|].
  - intros [<-|H].
    + exists t, q. simpl. auto.
    + destruct (IH H) as (t' & q' & Hin & H'). exists t', q'. auto.
  - intros H. destruct (IH H) as (t' & q' & Hin & H'). exists t', q'. auto.
  - intros H. destruct (IH H) as (t' & q' & Hin & H'). exists t', q'. auto.
Qed.

Lemma arrowsTo_complete g h i cur conns t tp q :
  In t conns -> getPanoByNumber g t = Some tp -> h t = Some q ->
  In (markerFor i cur tp q) (arrowsTo g h i cur conns).
Proof.
  intros Hin Hg Hh. induction conns as [|t' r IH]; simpl; [tauto|].
  destruct Hin as [->|Hin].
  - rewrite Hg, Hh. left. reflexivity.
  - destruct (getPanoByNumber g t'); [destruct (h t')|]; simpl; auto.
Qed.

Lemma createPanoArrows_arrows (O : Type) (s : State O) p cur :
  currentPano (pano s) = Some p ->
  hotspotPositions s (index p) = Some cur ->
  panoArrows (pano (createPanoArrows s))
  = arrowsTo (panoGraph (pano s)) (hotspotPositions s) (index p) cur
             (connections (index p)).
Proof.
  intros Hp Hc. unfold createPanoArrows.
  change (currentPano (pano (removePanoArrows s)))
    with (currentPano (pano s)).
  rewrite Hp.
  change (hotspotPositions (removePanoArrows s)) with (hotspotPositions s).
  rewrite Hc. reflexivity.
Qed.

Lemma arrowYaw_east i : northOffset i = 0 -> arrowYaw i origin unitX = 0.
Proof.
  intros H. unfold arrowYaw, origin, unitX. simpl. rewrite H.
  replace (0 - 0) with 0 by ring. replace (1 - 0) with 1 by ring.
  rewrite atan2_east. unfold radToDeg. ring.
Qed.

Lemma arrowYaw_south i : northOffset i = 0 -> arrowYaw i origin unitZ = 90.
Proof.
  intros H. unfold arrowYaw, origin, unitZ. simpl. rewrite H.
  replace (0 - 0) with 0 by ring. replace (1 - 0) with 1 by ring.
  rewrite atan2_south, quarter_turn. ring.
Qed.

End FloorMarkers.

(** C8. When the floor markers are built for the active node with index i
    at position p, every marker belongs to a neighbour listed for i that is
    in the graph and has a position q, every such neighbour gets a marker,
    and the marker's yaw is atan2(q.z - p.z, q.x - p.x) in degrees minus the
    orientation offset of i; it sits at radius 25 along that yaw. A
    neighbour without a position gets no marker. With p at the origin and
    offset 0 a neighbour at (1,0,0) has yaw 0 and one at (0,0,1) yaw 90. *)
Theorem floor_marker_bearing :
  (forall (O : Type) (s : Tour.State O) p cur,
     Tour.currentPano (Tour.pano s) = Some p ->
     Tour.hotspotPositions s (Tour.index p) = Some cur ->
     let arrows := Tour.panoArrows (Tour.pano (Tour.createPanoArrows s)) in
     let g := Tour.panoGraph (Tour.pano s) in
     let o := Tour.northOffset (Tour.index p) in
     (forall m, In m arrows ->
        exists t q,
          In t (Tour.connections (Tour.index p)) /\
          Tour.getPanoByNumber g t = Some (Tour.goal m) /\
          Tour.hotspotPositions s t = Some q /\
          Tour.yawDeg m
          = (Tour.radToDeg
               (Tour.atan2 (Tour.vz q - Tour.vz cur) (Tour.vx q - Tour.vx cur))
             - o)%R /\
          Tour.place m
          = {| Tour.vx := 25 * cos (Tour.degToRad (Tour.yawDeg m));
               Tour.vy := -12;
               Tour.vz := 25 * sin (Tour.degToRad (Tour.yawDeg m)) |}%R) /\
     (forall t tp q,
        In t (Tour.connections (Tour.index p)) ->
        Tour.getPanoByNumber g t = Some tp ->
        Tour.hotspotPositions s t = Some q ->
        exists m,
          In m arrows /\ Tour.goal m = tp /\
          Tour.yawDeg m
          = (Tour.radToDeg
               (Tour.atan2 (Tour.vz q - Tour.vz cur) (Tour.vx q - Tour.vx cur))
             - o)%R) /\
     (forall t, Tour.hotspotPositions s t = None ->
        forall m, In m arrows -> Tour.index (Tour.goal m) <> t)) /\
  (forall i, Tour.northOffset i = 0%R ->
     Tour.arrowYaw i origin unitX = 0%R /\
     Tour.arrowYaw i origin unitZ = 90%R) /\
  (Tour.hotspotPositions Tour.bearingTour (Js.Fin 4) = Some origin /\
   Tour.northOffset (Js.Fin 4) = 0%R /\
   Tour.hotspotPositions Tour.bearingTour (Js.Fin 3) = Some unitX /\
   Tour.hotspotPositions Tour.bearingTour (Js.Fin 5) = Some unitZ /\
   map (fun m => Tour.file (Tour.goal m))
     (Tour.panoArrows (Tour.pano (Tour.createPanoArrows Tour.bearingTour)))
   = ["a-3.jpg"; "a-5.jpg"]%string /\
   map Tour.yawDeg
     (Tour.panoArrows (Tour.pano (Tour.createPanoArrows Tour.bearingTour)))
   = [0; 90]%R).
Proof.
  split.
  { intros O s p cur Hp Hc arrows g o. subst arrows.
    rewrite (createPanoArrows_arrows O s p cur Hp Hc). fold g.
    split; [|split].
    - intros m Hm. apply arrowsTo_sound in Hm.
      destruct Hm as (t & q & Hin & Hg & Hq & Em).
      exists t, q. repeat split; try assumption.
      + rewrite Em. reflexivity.
      + rewrite Em. reflexivity.
    - intros t tp q Hin Hg Hq.
      exists (markerFor (Tour.index p) cur tp q). split; [|split].
      + apply (arrowsTo_complete _ _ _ _ _ t tp q); assumption.
      + reflexivity.
      + reflexivity.
    - intros t Hnone m Hm E. apply arrowsTo_sound in Hm.
      destruct Hm as (t' & q & _ & Hg & Hq & _).
      pose proof (getPanoByNumber_index g t' (Tour.goal m) Hg) as Ei.
      congruence. }
  split.
  { intros i Hi. split; [apply arrowYaw_east|apply arrowYaw_south]; exact Hi. }
  split; [reflexivity|].
  split; [reflexivity|].
  split; [reflexivity|].
  split; [reflexivity|].
  split; [reflexivity|].
  change (map Tour.yawDeg
            (Tour.panoArrows
               (Tour.pano (Tour.createPanoArrows Tour.bearingTour))))
    with [Tour.arrowYaw (Js.Fin 4) origin unitX;
          Tour.arrowYaw (Js.Fin 4) origin unitZ].
  rewrite arrowYaw_east, arrowYaw_south by reflexivity. reflexivity.
Qed.

Lemma floor_marker_bearing_witness :
  Tour.arrowYaw (Js.Fin 7) origin unitZ = 90%R /\
  (forall m,
     In m (Tour.panoArrows (Tour.pano (Tour.createPanoArrows Tour.bearingTour)))
     -> Tour.index (Tour.goal m) <> Js.Fin 6).
Proof.
  destruct floor_marker_bearing as (Hgen & Hex & _).
  split.
  - apply (Hex (Js.Fin 7)). reflexivity.
  - assert (Hp : Tour.currentPano (Tour.pano Tour.bearingTour)
                 = Some {| Tour.index := Js.Fin 4; Tour.file := "a-4.jpg";
                           Tour.arrayIdx := 1; Tour.prev := 0;
                           Tour.next := 2 |}) by reflexivity.
    destruct (Hgen unit Tour.bearingTour _ origin Hp eq_refl) as (_ & _ & H).
    apply (H (Js.Fin 6)). reflexivity.
Defined.

Section ModeMachine.
Import Tour.
Local Open Scope R_scope.

Variable OrbitState : Type.
Variable orbitUpdate :
  OrbitState -> Vec3 -> Vec3 -> OrbitState * (Vec3 * Vec3).

Local Abbreviation St := (State OrbitState).


Lemma controlsUpdate_frame (s : St) :
  let s' := controlsUpdate orbitUpdate s in
  pano s' = pano s /\ saved s' = saved s /\ currentMode s' = currentMode s /\
  fov (camera s') = fov (camera s) /\ near (camera s') = near (camera s) /\
  far (camera s') = far (camera s) /\
  enabled (controls s') = enabled (controls s) /\
  (position (camera s'), target (controls s'))
  = snd (orbitUpdate (orbit (controls s)) (position (camera s))
                     (target (controls s))).
Proof.
  unfold controlsUpdate.
  destruct (orbitUpdate _ _ _) as [o [p t]]. simpl. tauto.
Qed.

Lemma enterPanorama_found i p (s : St) :
  getPanoByNumber (panoGraph (pano s)) i = Some p ->
  let s' := enterPanorama i s in
  currentMode s' = Panorama /\
  currentPanoIndex (pano s') = Z.of_nat (arrayIdx p) /\
  saved s' = {| savedCameraPos := Some (position (camera s));
                savedControlsTarget := Some (target (controls s));
                savedCameraFov := fov (camera s);
                savedCameraNear := near (camera s);
                savedCameraFar := far (camera s) |} /\
  camera s' = {| position := {| vx := 0; vy := 0; vz := 0 |};
                 fov := 60; near := 0.1; far := 1100 |} /\
  target (controls s') = target (controls s) /\
  orbit (controls s') = orbit (controls s) /\
  loading (pano s') = loading (pano s) ++ [p].
Proof.
  intros H. unfold enterPanorama. rewrite H. simpl. tauto.
Qed.

Lemma exitPanorama_restored (s : St) p t :
  savedCameraPos (saved s) = Some p ->
  savedControlsTarget (saved s) = Some t ->
  let s' := exitPanorama orbitUpdate s in
  currentMode s' = Dollhouse /\
  fov (camera s') = savedCameraFov (saved s) /\
  near (camera s') = savedCameraNear (saved s) /\
  far (camera s') = savedCameraFar (saved s) /\
  (position (camera s'), target (controls s'))
  = snd (orbitUpdate (orbit (controls s)) p t) /\
  currentPanoIndex (pano s') = currentPanoIndex (pano s) /\
  panoArrows (pano s') = [] /\
  currentPanoTexture (pano s') = None /\
  enabled (controls s') = true /\
  saved s' = saved s.
Proof.
  intros Hp Ht. unfold exitPanorama.
  cbn [saved removePanoArrows hidePanoSphere setMode setPano].
  rewrite Hp, Ht. unfold showDollhouse.
  match goal with
  | |- context [controlsUpdate orbitUpdate ?x] =>
      pose proof (controlsUpdate_frame x) as F
  end.
  cbv zeta in F. destruct F as (F1 & F2 & F3 & F4 & F5 & F6 & F7 & F8).
  cbn [dropTexture setPano pano saved currentMode camera controls
       currentPanoIndex panoArrows currentPanoTexture].
  rewrite F1, F2, F3, F4, F5, F6, F7, F8. simpl. tauto.
Qed.

Lemma controlsUpdate_mode (s : St) :
  currentMode (controlsUpdate orbitUpdate s) = currentMode s.
Proof. apply (controlsUpdate_frame s). Qed.

Lemma controlsUpdate_saved (s : St) :
  saved (controlsUpdate orbitUpdate s) = saved s.
Proof. apply (controlsUpdate_frame s). Qed.

Lemma controlsUpdate_same_pano (s : St) :
  pano (controlsUpdate orbitUpdate s) = pano s.
Proof. apply (controlsUpdate_frame s). Qed.

Lemma exitPanorama_mode (s : St) :
  currentMode (exitPanorama orbitUpdate s) = Dollhouse.
Proof.
  unfold exitPanorama, showDollhouse. split_cases; simpl;
    rewrite ?controlsUpdate_mode; reflexivity.
Qed.

Lemma exitPanorama_saved (s : St) :
  saved (exitPanorama orbitUpdate s) = saved s.
Proof.
  unfold exitPanorama, showDollhouse. split_cases; simpl;
    rewrite ?controlsUpdate_saved; reflexivity.
Qed.

Lemma exitPanorama_active (s : St) :
  currentPanoIndex (pano (exitPanorama orbitUpdate s))
  = currentPanoIndex (pano s) /\
  panoGraph (pano (exitPanorama orbitUpdate s)) = panoGraph (pano s).
Proof.
  unfold exitPanorama, showDollhouse. split_cases; simpl;
    rewrite ?controlsUpdate_same_pano; simpl; split; reflexivity.
Qed.

(** *** Which inputs touch the snapshot *)

Lemma navigatePano_keeps p (s : St) :
  saved (navigatePano p s) = saved s /\
  currentMode (navigatePano p s) = currentMode s.
Proof. unfold navigatePano. destruct p; simpl; split; reflexivity. Qed.

Lemma createPanoArrows_keeps (s : St) :
  saved (createPanoArrows s) = saved s /\
  currentMode (createPanoArrows s) = currentMode s.
Proof. unfold createPanoArrows. split_cases; simpl; split; reflexivity. Qed.

Lemma enterPanorama_kind i (s : St) :
  enterPanorama i s = s \/
  (currentMode (enterPanorama i s) = Panorama /\
   hasSnapshot (enterPanorama i s)).
Proof.
  destruct (getPanoByNumber (panoGraph (pano s)) i) as [p|] eqn:E.
  - right. destruct (enterPanorama_found i p s E) as (Hm & _ & Hs & _).
    split; [exact Hm|]. unfold hasSnapshot. rewrite Hs. simpl. eauto.
  - left. unfold enterPanorama. rewrite E. reflexivity.
Qed.

Lemma onPointerClick_panorama hit (s : St) :
  currentMode s = Panorama ->
  onPointerClick hit s = s \/
  exists a, In a (panoArrows (pano s)) /\
            onPointerClick hit s = navigatePano (Some (goal a)) s.
Proof.
  intros Hm. unfold onPointerClick. rewrite Hm.
  destruct hit as [k|]; [|left; reflexivity].
  destruct (nth_error (panoArrows (pano s)) k) as [a|] eqn:E;
    [|left; reflexivity].
  right. exists a. split; [apply (nth_error_In _ _ E)|reflexivity].
Qed.

Lemma onPointerClick_kind hit (s : St) :
  (saved (onPointerClick hit s) = saved s /\
   currentMode (onPointerClick hit s) = currentMode s) \/
  (currentMode s = Dollhouse /\
   currentMode (onPointerClick hit s) = Panorama /\
   hasSnapshot (onPointerClick hit s)).
Proof.
  destruct (currentMode s) eqn:Hm.
  - unfold onPointerClick. rewrite Hm.
    destruct hit as [k|]; [|left; split; [reflexivity|exact Hm]].
    destruct (nth_error (hotspotMeshes s) k) as [m|];
      [|left; split; [reflexivity|exact Hm]].
    destruct (Js.truthy (panoIndex m));
      [|left; split; [reflexivity|exact Hm]].
    destruct (enterPanorama_kind (panoIndex m) s) as [->|[H1 H2]].
    + left. split; [reflexivity|exact Hm].
    + right. auto.
  - left. destruct (onPointerClick_panorama hit s Hm) as [->|(a & _ & ->)].
    + split; [reflexivity|exact Hm].
    + destruct (navigatePano_keeps (Some (goal a)) s) as [H1 H2].
      rewrite H1, H2. split; [reflexivity|exact Hm].
Qed.

(** Every input either leaves mode and snapshot alone, or ends in
    dollhouse mode, or is a dollhouse click that entered a panorama and
    took a snapshot. *)
Lemma handle_kind i (s : St) :
  (saved (handle orbitUpdate i s) = saved s /\
   currentMode (handle orbitUpdate i s) = currentMode s) \/
  (saved (handle orbitUpdate i s) = saved s /\
   currentMode (handle orbitUpdate i s) = Dollhouse) \/
  (currentMode s = Dollhouse /\
   currentMode (handle orbitUpdate i s) = Panorama /\
   hasSnapshot (handle orbitUpdate i s)).
Proof.
  assert (Up : forall now hit e (s0 : St),
    (saved (onGlobalPointerUp now hit e s0) = saved s0 /\
     currentMode (onGlobalPointerUp now hit e s0) = currentMode s0) \/
    (currentMode s0 = Dollhouse /\
     currentMode (onGlobalPointerUp now hit e s0) = Panorama /\
     hasSnapshot (onGlobalPointerUp now hit e s0))).
  { intros now hit e s0. unfold onGlobalPointerUp.
    destruct (Rlt_dec _ _); [destruct (Rlt_dec _ _)|];
      try (left; split; reflexivity).
    apply (onPointerClick_kind hit (onPanoPointerUp s0)). }
  destruct i; cbn [handle].
  - left. unfold onGlobalPointerDown, onPanoPointerDown.
    split_cases; split; simpl; first [reflexivity|congruence].
  - left. unfold onGlobalPointerMove, onPanoPointerMove.
    split_cases; split; simpl; first [reflexivity|congruence].
  - destruct (Up now hit e s) as [H|H]; auto.
  - left. unfold onPanoWheel. split_cases; split; simpl; first [reflexivity|congruence].
  - left. unfold onTouchStart, onGlobalPointerDown, onPanoPointerDown.
    split_cases; split; simpl; first [reflexivity|congruence].
  - left. unfold onTouchMove, onGlobalPointerMove, onPanoPointerMove.
    split_cases; split; simpl; first [reflexivity|congruence].
  - unfold onTouchEnd.
    destruct (Up now hit e (setPinch 0 (panoPointerDown (ptr s)) s))
      as [H|H]; auto.
  - unfold onKeyDown. destruct (String.eqb _ _); [|left; split; reflexivity].
    destruct (currentMode s) eqn:Hm; [left; split; [reflexivity|exact Hm]|].
    right. left. split; [apply exitPanorama_saved|apply exitPanorama_mode].
  - right. left. split; [apply exitPanorama_saved|apply exitPanorama_mode].
  - left. unfold textureLoaded. split_cases; [|split; simpl; first [reflexivity|congruence]].
    match goal with
    | |- context [createPanoArrows ?x] =>
        destruct (createPanoArrows_keeps x) as [H1 H2]
    end.
    rewrite H1, H2. split; reflexivity.
  - left. unfold animate.
    split_cases; rewrite ?controlsUpdate_saved, ?controlsUpdate_mode;
      split; simpl; first [reflexivity|congruence].
  - left. split; reflexivity.
  - left. unfold hotspotPositionsLoaded. split_cases; split; simpl; first [reflexivity|congruence].
  - left. unfold graphReady. split_cases; split; simpl; first [reflexivity|congruence].
  - left. unfold modelLoaded, createHotspotMeshes, fitCameraToModel.
    cbn [model setModel saved currentMode setHotspotMeshes].
    rewrite controlsUpdate_saved, controlsUpdate_mode. split; reflexivity.
Qed.

Lemma handle_keeps_snapshot i (s : St) :
  currentMode s = Panorama -> saved (handle orbitUpdate i s) = saved s.
Proof.
  intros Hm. destruct (handle_kind i s) as [[H _]|[[H _]|[H _]]].
  - exact H.
  - exact H.
  - congruence.
Qed.

Lemma run_snapshot inputs : forall s : St,
  (currentMode s = Panorama -> hasSnapshot s) ->
  currentMode (run orbitUpdate inputs s) = Panorama ->
  hasSnapshot (run orbitUpdate inputs s).
Proof.
  induction inputs as [|i r IH]; intros s H; simpl.
  - exact H.
  - apply IH. intros Hm.
    destruct (handle_kind i s) as [[H1 H2]|[[H1 H2]|(_ & _ & H3)]].
    + unfold hasSnapshot. rewrite H1. apply H. congruence.
    + congruence.
    + exact H3.
Qed.

(** C3 (amended). Entering the panorama of a node of the graph and
    leaving it at once ends in dollhouse mode with the camera's field of
    view and near and far planes exactly as before the entry; the camera
    position and the look target are set back to exactly their values
    before the entry and then handed to the orbit controls' update, so
    they are those values whenever the orbit controls leave that pose
    where it is. *)
Theorem enter_exit_restores_camera (s : St) i p :
  getPanoByNumber (panoGraph (pano s)) i = Some p ->
  let s' := exitPanorama orbitUpdate (enterPanorama i s) in
  let settled :=
    snd (orbitUpdate (orbit (controls s)) (position (camera s))
                     (target (controls s))) in
  currentMode s' = Dollhouse /\
  fov (camera s') = fov (camera s) /\
  near (camera s') = near (camera s) /\
  far (camera s') = far (camera s) /\
  (position (camera s'), target (controls s')) = settled /\
  (settled = (position (camera s), target (controls s)) ->
   position (camera s') = position (camera s) /\
   target (controls s') = target (controls s)).
Proof.
  intros Hp s' settled.
  destruct (enterPanorama_found i p s Hp)
    as (_ & _ & Hs & _ & _ & Ho & _).
  destruct (exitPanorama_restored (enterPanorama i s)
              (position (camera s)) (target (controls s)))
    as (Hm & Hf & Hn & Hr & Hpose & _).
  { rewrite Hs. reflexivity. }
  { rewrite Hs. reflexivity. }
  rewrite Hs in Hf, Hn, Hr. rewrite Ho in Hpose. simpl in Hf, Hn, Hr.
  fold s' in Hm, Hf, Hn, Hr, Hpose.
  split; [exact Hm|]. split; [exact Hf|]. split; [exact Hn|].
  split; [exact Hr|]. split; [exact Hpose|].
  intros E. unfold settled in E. rewrite E in Hpose.
  injection Hpose as H1 H2. split; assumption.
Qed.

(** C1 (amended). If the graph has no node with index i, enterPanorama(i)
    changes nothing: mode, active node and camera snapshot stay as they
    were. Hotspot positions play no part in enterPanorama; a node without
    a position only gets no hotspot marker. *)
Theorem enterPanorama_unknown_index_noop :
  (forall (s : St) i,
     getPanoByNumber (panoGraph (pano s)) i = None ->
     enterPanorama i s = s /\
     currentMode (enterPanorama i s) = currentMode s /\
     activeNode (enterPanorama i s) = activeNode s /\
     saved (enterPanorama i s) = saved s) /\
  (forall (s : St) i h,
     enterPanorama i (setHotspotPositions h s)
     = setHotspotPositions h (enterPanorama i s)) /\
  (forall (s : St) m,
     In m (hotspotMeshes (createHotspotMeshes s)) ->
     hotspotPositions s (panoIndex m) <> None).
Proof.
  split; [|split].
  - intros s i H. unfold enterPanorama. rewrite H. auto.
  - intros s i h. unfold enterPanorama. simpl.
    destruct (getPanoByNumber (panoGraph (pano s)) i); reflexivity.
  - intros s m. unfold createHotspotMeshes. simpl.
    induction (panoGraph (pano s)) as [|q r IH]; simpl; [tauto|].
    destruct (hotspotPositions s (index q)) eqn:E; [|exact IH].
    intros [<-|H]; [simpl; congruence|exact (IH H)].
Qed.

(** C2 (amended). enterPanorama has no guard on the mode: called while
    the mode is Panorama for a node of the graph it makes that node the
    active one and overwrites the snapshot with the current camera. The
    guard is in the handlers: while the mode is Panorama no input changes
    the snapshot, and a click can only follow a floor marker. *)
Theorem panorama_snapshot_guard :
  (forall (s : St) i p,
     currentMode s = Panorama ->
     getPanoByNumber (panoGraph (pano s)) i = Some p ->
     currentMode (enterPanorama i s) = Panorama /\
     currentPanoIndex (pano (enterPanorama i s)) = Z.of_nat (arrayIdx p) /\
     saved (enterPanorama i s)
     = {| savedCameraPos := Some (position (camera s));
          savedControlsTarget := Some (target (controls s));
          savedCameraFov := fov (camera s);
          savedCameraNear := near (camera s);
          savedCameraFar := far (camera s) |}) /\
  (forall (s : St) input,
     currentMode s = Panorama ->
     saved (handle orbitUpdate input s) = saved s) /\
  (forall (s : St) hit,
     currentMode s = Panorama ->
     onPointerClick hit s = s \/
     exists a, In a (panoArrows (pano s)) /\
               onPointerClick hit s = navigatePano (Some (goal a)) s).
Proof.
  split; [|split].
  - intros s i p _ Hp.
    destruct (enterPanorama_found i p s Hp) as (H1 & H2 & H3 & _). auto.
  - intros s input Hm. apply handle_keeps_snapshot. exact Hm.
  - intros s hit Hm. apply onPointerClick_panorama. exact Hm.
Qed.

(** C4 (amended). exitPanorama, called with the snapshot of the entry in
    place (as it is in every panorama state the tour reaches), sets the
    mode to Dollhouse and restores field of view and near and far planes
    from the snapshot exactly; position and look target are set to the
    snapshot's and handed to the orbit controls' update. It removes the
    floor markers and the texture and keeps the snapshot, and it leaves
    the index of the active node as it was. *)
Theorem exitPanorama_restores_snapshot :
  (forall (s : St) p t,
     savedCameraPos (saved s) = Some p ->
     savedControlsTarget (saved s) = Some t ->
     let s' := exitPanorama orbitUpdate s in
     let settled := snd (orbitUpdate (orbit (controls s)) p t) in
     currentMode s' = Dollhouse /\
     fov (camera s') = savedCameraFov (saved s) /\
     near (camera s') = savedCameraNear (saved s) /\
     far (camera s') = savedCameraFar (saved s) /\
     (position (camera s'), target (controls s')) = settled /\
     (settled = (p, t) ->
      position (camera s') = p /\ target (controls s') = t) /\
     currentPanoIndex (pano s') = currentPanoIndex (pano s) /\
     activeNode s' = activeNode s /\
     panoArrows (pano s') = [] /\
     currentPanoTexture (pano s') = None /\
     saved s' = saved s) /\
  (forall (o : OrbitState) inputs,
     currentMode (run orbitUpdate inputs (initial o)) = Panorama ->
     hasSnapshot (run orbitUpdate inputs (initial o))).
Proof.
  split.
  - intros s p t Hp Ht s' settled.
    destruct (exitPanorama_restored s p t Hp Ht)
      as (Hm & Hf & Hn & Hr & Hpose & Hi & Ha & Hx & _ & Hs).
    destruct (exitPanorama_active s) as [_ Hg].
    fold s' in Hm, Hf, Hn, Hr, Hpose, Hi, Ha, Hx, Hs, Hg.
    split; [exact Hm|]. split; [exact Hf|]. split; [exact Hn|].
    split; [exact Hr|]. split; [exact Hpose|].
    split.
    { intros E. unfold settled in E. rewrite E in Hpose.
      injection Hpose as H1 H2. split; assumption. }
    split; [exact Hi|].
    split.
    { unfold activeNode, currentPano. rewrite Hi, Hg. reflexivity. }
    split; [exact Ha|]. split; [exact Hx|exact Hs].
  - intros o inputs. apply run_snapshot. simpl. discriminate.
Qed.

End ModeMachine.

Lemma enter_exit_restores_camera_witness :
  let s := Tour.readyTour in
  let s' := Tour.exitPanorama Tour.restingOrbit
              (Tour.enterPanorama (Js.Fin 3) s) in
  Tour.position (Tour.camera s') = Tour.position (Tour.camera s) /\
  Tour.target (Tour.controls s') = Tour.target (Tour.controls s) /\
  Tour.fov (Tour.camera s') = Tour.fov (Tour.camera s) /\
  Tour.near (Tour.camera s') = Tour.near (Tour.camera s) /\
  Tour.far (Tour.camera s') = Tour.far (Tour.camera s).
Proof.
  intros s s'.
  assert (Hp : Tour.getPanoByNumber (Tour.panoGraph (Tour.pano s)) (Js.Fin 3)
               = Some {| Tour.index := Js.Fin 3; Tour.file := "room-3.jpg";
                         Tour.arrayIdx := 1; Tour.prev := 0;
                         Tour.next := 2 |}) by reflexivity.
  destruct (enter_exit_restores_camera unit Tour.restingOrbit s _ _ Hp)
    as (_ & Hf & Hn & Hr & _ & Hpose).
  destruct (Hpose eq_refl) as [H1 H2].
  repeat split; assumption.
Defined.

(** C3, the claim as written fails: with a pan still pending in the orbit
    controls, the update at the end of exitPanorama moves the camera and
    the look target away from the restored pose. *)
Lemma enter_exit_moves_camera :
  let s := Tour.manifestLoaded (Tour.Json (Some Tour.roomFiles))
             (Tour.initial unitX) in
  let s' := Tour.exitPanorama Tour.pendingPan
              (Tour.enterPanorama (Js.Fin 3) s) in
  Tour.currentMode (Tour.enterPanorama (Js.Fin 3) s) = Tour.Panorama /\
  Tour.currentMode s' = Tour.Dollhouse /\
  Tour.position (Tour.camera s)
  = {| Tour.vx := 10; Tour.vy := 8; Tour.vz := 10 |} /\
  Tour.vx (Tour.position (Tour.camera s')) = (10 + 1 * 0.05)%R /\
  Tour.position (Tour.camera s') <> Tour.position (Tour.camera s) /\
  Tour.target (Tour.controls s') <> Tour.target (Tour.controls s).
Proof.
  cbv zeta. split; [reflexivity|]. split; [reflexivity|].
  split; [reflexivity|]. split; [reflexivity|].
  split; intros H; apply (f_equal Tour.vx) in H; simpl in H; lra.
Qed.

(** C1, the claim as written fails: room 10 is in the graph and has no
    hotspot position, yet enterPanorama(10) switches the mode, sets the
    active node and takes a snapshot. *)
Lemma enterPanorama_without_position :
  let s := Tour.readyTour in
  let s' := Tour.enterPanorama (Js.Fin 10) s in
  (Tour.getPanoByNumber (Tour.panoGraph (Tour.pano s)) (Js.Fin 10) = None \/
   Tour.hotspotPositions s (Js.Fin 10) = None) /\
  Tour.currentMode s = Tour.Dollhouse /\
  Tour.currentMode s' = Tour.Panorama /\
  activeNode s = None /\
  activeNode s' <> None /\
  Tour.savedCameraPos (Tour.saved s) = None /\
  Tour.savedCameraPos (Tour.saved s') <> None.
Proof.
  intros s s'. split; [right; reflexivity|].
  split; [reflexivity|]. split; [reflexivity|]. split; [reflexivity|].
  split; [discriminate|]. split; [reflexivity|discriminate].
Qed.

Lemma enterPanorama_unknown_index_noop_witness :
  Tour.enterPanorama (Js.Fin 2) Tour.readyTour = Tour.readyTour /\
  (forall m,
     In m (Tour.hotspotMeshes (Tour.createHotspotMeshes Tour.readyTour)) ->
     Tour.hotspotPositions Tour.readyTour (Tour.panoIndex m) <> None).
Proof.
  destruct (enterPanorama_unknown_index_noop unit) as (H & _ & Hm).
  split.
  - apply (H Tour.readyTour (Js.Fin 2)). reflexivity.
  - apply Hm.
Defined.

(** C2, the claim as written fails: a second enterPanorama in panorama
    mode changes the active node a second time and replaces the snapshot of
    the dollhouse camera by one of the panorama camera. *)
Lemma enterPanorama_twice_resnapshots :
  let s0 := Tour.readyTour in
  let s1 := Tour.enterPanorama (Js.Fin 1) s0 in
  let s2 := Tour.enterPanorama (Js.Fin 3) s1 in
  Tour.currentMode s0 = Tour.Dollhouse /\
  Tour.currentMode s1 = Tour.Panorama /\
  Tour.currentPanoIndex (Tour.pano s0) = (-1)%Z /\
  Tour.currentPanoIndex (Tour.pano s1) = 0%Z /\
  Tour.currentPanoIndex (Tour.pano s2) = 1%Z /\
  Tour.savedCameraPos (Tour.saved s1)
  = Some (Tour.position (Tour.camera s0)) /\
  Tour.savedCameraFar (Tour.saved s1) = Tour.far (Tour.camera s0) /\
  Tour.savedCameraPos (Tour.saved s2)
  <> Some (Tour.position (Tour.camera s0)) /\
  Tour.savedCameraFar (Tour.saved s2) <> Tour.far (Tour.camera s0) /\
  s2 <> s1.
Proof.
  intros s0 s1 s2.
  assert (Hfar : Tour.savedCameraFar (Tour.saved s2)
                 <> Tour.far (Tour.camera s0)).
  { change (1100 <> 1000)%R. lra. }
  repeat split; try reflexivity.
  - change (Some {| Tour.vx := 0; Tour.vy := 0; Tour.vz := 0 |}
            <> Some {| Tour.vx := 10; Tour.vy := 8; Tour.vz := 10 |})%R.
    intros H. injection H as H _ _. lra.
  - exact Hfar.
  - intros H. apply (f_equal (fun s => Tour.currentPanoIndex (Tour.pano s))) in H.
    discriminate H.
Qed.

Lemma panorama_snapshot_guard_witness :
  let s1 := Tour.enterPanorama (Js.Fin 1) Tour.readyTour in
  Tour.saved (Tour.handle Tour.restingOrbit
                (Tour.PointerUp 0 (Some 0%nat) (Tour.pointerAt 0 0)) s1)
  = Tour.saved s1 /\
  Tour.savedCameraFar (Tour.saved (Tour.enterPanorama (Js.Fin 3) s1)) = 1100%R.
Proof.
  intros s1.
  destruct (panorama_snapshot_guard unit Tour.restingOrbit) as (He & Hk & _).
  split.
  - apply Hk. reflexivity.
  - assert (Hp : Tour.getPanoByNumber (Tour.panoGraph (Tour.pano s1))
                   (Js.Fin 3)
                 = Some {| Tour.index := Js.Fin 3; Tour.file := "room-3.jpg";
                           Tour.arrayIdx := 1; Tour.prev := 0;
                           Tour.next := 2 |}) by reflexivity.
    destruct (He s1 (Js.Fin 3) _ eq_refl Hp) as (_ & _ & Hs).
    rewrite Hs. reflexivity.
Defined.

(** C4, the claim as written fails: after exitPanorama the active node is
    still the one entered; its reference is not cleared. *)
Lemma exitPanorama_keeps_active_node :
  let s1 := Tour.enterPanorama (Js.Fin 3) Tour.readyTour in
  let s2 := Tour.exitPanorama Tour.restingOrbit s1 in
  Tour.currentMode s1 = Tour.Panorama /\
  Tour.currentMode s2 = Tour.Dollhouse /\
  Tour.currentPanoIndex (Tour.pano (Tour.initial tt)) = (-1)%Z /\
  Tour.currentPanoIndex (Tour.pano s2) = 1%Z /\
  activeNode s2 = activeNode s1 /\
  activeNode s2 <> None.
Proof.
  intros s1 s2. repeat split; try reflexivity. discriminate.
Qed.

Lemma exitPanorama_restores_snapshot_witness :
  let s0 := Tour.readyTour in
  let s1 := Tour.enterPanorama (Js.Fin 3) s0 in
  let s2 := Tour.exitPanorama Tour.restingOrbit s1 in
  Tour.currentMode s2 = Tour.Dollhouse /\
  Tour.position (Tour.camera s2) = Tour.position (Tour.camera s0) /\
  Tour.far (Tour.camera s2) = Tour.far (Tour.camera s0) /\
  Tour.currentPanoIndex (Tour.pano s2) = Tour.currentPanoIndex (Tour.pano s1).
Proof.
  intros s0 s1 s2.
  destruct (exitPanorama_restores_snapshot unit Tour.restingOrbit) as [H _].
  destruct (H s1 (Tour.position (Tour.camera s0))
              (Tour.target (Tour.controls s0)) eq_refl eq_refl)
    as (Hm & _ & _ & Hr & _ & Hpose & Hi & _).
  destruct (Hpose eq_refl) as [Hp _].
  repeat split; assumption.
Defined.


Section LookAround.
Import Tour.
Local Open Scope R_scope.

Variable OrbitState : Type.
Variable orbitUpdate :
OrbitState -> Vec3 -> Vec3 -> OrbitState * (Vec3 * Vec3).

Local Abbreviation St := (State OrbitState).

Lemma pitch_clamp v : -85 <= Rmax (-85) (Rmin 85 v) <= 85.
Proof.
split.
- apply Rmax_l.
- apply Rmax_lub; [lra|apply Rmin_l].
Qed.

Lemma exitPanorama_pitch (s : St) :
panoPitch (pano (exitPanorama orbitUpdate s)) = panoPitch (pano s).
Proof.
unfold exitPanorama, showDollhouse.
split_cases; simpl; rewrite ?controlsUpdate_pano; reflexivity.
Qed.

Lemma createPanoArrows_pitch (s : St) :
panoPitch (pano (createPanoArrows s)) = panoPitch (pano s).
Proof. unfold createPanoArrows. split_cases; reflexivity. Qed.

Lemma onPointerClick_pitch hit (s : St) :
pitchInRange s -> pitchInRange (onPointerClick hit s).
Proof.
unfold onPointerClick, enterPanorama, navigatePano, pitchInRange.
intros H. split_cases; simpl; solve [exact H | lra].
Qed.

Lemma handle_pitch i (s : St) :
pitchInRange s -> pitchInRange (handle orbitUpdate i s).
Proof.
intros H.
destruct i; cbn [handle];
  unfold onTouchStart, onTouchMove, onTouchEnd, onGlobalPointerMove,
    onGlobalPointerUp, onGlobalPointerDown, onPanoPointerDown,
    onPanoPointerMove, onPanoWheel, onKeyDown, textureLoaded, animate,
    hotspotPositionsLoaded, graphReady, modelLoaded, createHotspotMeshes,
    fitCameraToModel;
  split_cases;
  try apply onPointerClick_pitch;
  unfold pitchInRange in *; simpl;
  rewrite ?exitPanorama_pitch, ?createPanoArrows_pitch, ?controlsUpdate_pano;
  simpl;
  solve [exact H | apply pitch_clamp].
Qed.

Lemma run_pitch inputs : forall s : St,
pitchInRange s -> pitchInRange (run orbitUpdate inputs s).
Proof.
induction inputs as [|i r IH]; intros s H; simpl.
- exact H.
- apply IH, handle_pitch, H.
Qed.

(** X1. Whatever inputs the tour handles, the pitch accumulator stays in
  [-85, 85] (it starts at 0). In panorama mode, with the pointer down, a
  pointer move by (dx, dy) subtracts 0.3 dx from the yaw, which is not
  bounded, and adds 0.3 dy to the pitch, which is then clamped. *)
Theorem pitch_accumulator_clamped :
(forall o : OrbitState, pitchInRange (initial o)) /\
(forall (inputs : list Input) (s : St),
   pitchInRange s -> pitchInRange (run orbitUpdate inputs s)) /\
(forall x y (s : St),
   currentMode s = Panorama -> panoPointerDown (ptr s) = true ->
   let s' := handle orbitUpdate (PointerMove (pointerAt x y)) s in
   panoYaw (pano s')
   = panoYaw (pano s) - (x - panoPointerX (ptr s)) * 0.3 /\
   panoPitch (pano s')
   = Rmax (-85)
       (Rmin 85 (panoPitch (pano s) + (y - panoPointerY (ptr s)) * 0.3)) /\
   panoPointerX (ptr s') = x /\ panoPointerY (ptr s') = y).
Proof.
split. { intros o. unfold pitchInRange. simpl. lra. }
split. { intros inputs s. apply run_pitch. }
intros x y s Hm Hd. cbn [handle].
unfold onGlobalPointerMove, onPanoPointerMove. rewrite Hm, Hd.
cbn [clientX clientY touches pointerAt firstX firstY].
rewrite !pointer_coordinate. repeat split; reflexivity.
Qed.

(** X2. navigatePano to a node keeps the mode and the camera snapshot,
  makes the node the active one, resets yaw and pitch to 0 and the field
  of view (accumulator and camera) to 60, and requests the node's image;
  navigatePano(null) changes nothing. *)
Theorem navigatePano_resets_look :
(forall (s : St), navigatePano None s = s) /\
(forall (s : St) p,
   let s' := navigatePano (Some p) s in
   currentMode s' = currentMode s /\
   saved s' = saved s /\
   currentPanoIndex (pano s') = Z.of_nat (arrayIdx p) /\
   panoYaw (pano s') = 0 /\ panoPitch (pano s') = 0 /\
   panoFov (pano s') = 60 /\ fov (camera s') = 60 /\
   position (camera s') = position (camera s) /\
   loading (pano s') = loading (pano s) ++ [p]).
Proof.
split; [reflexivity|]. intros s p. simpl. repeat split; reflexivity.
Qed.

End LookAround.

Lemma pitch_accumulator_clamped_witness :
  pitchInRange
    (Tour.run Tour.restingOrbit
       [Tour.PointerDown 0 (Tour.pointerAt 10 10);
        Tour.PointerMove (Tour.pointerAt 10 100000);
        Tour.PointerMove (Tour.pointerAt 10 (-100000))]
       (Tour.enterPanorama (Js.Fin 1) Tour.readyTour)).
Proof.
  destruct (pitch_accumulator_clamped unit Tour.restingOrbit)
    as (_ & Hrun & _).
  apply Hrun. unfold pitchInRange. simpl. lra.
Defined.

(* ================================================================== *)
(** * More on the graph store and the manifest *)
(* ================================================================== *)

Section GraphLookup.
Import Tour.

Lemma eqb_true_eq a b : Js.eqb a b = true -> a = b.
Proof.
  destruct a, b; simpl; try discriminate; try reflexivity.
  intros H. apply Z.eqb_eq in H. subst. reflexivity.
Qed.

Lemma eqb_key_refl a : isKey a -> Js.eqb a a = true.
Proof. destruct a; simpl; try tauto. intros _. apply Z.eqb_refl. Qed.

Lemma getPanoByNumber_first g : forall i p,
  getPanoByNumber g i = Some p ->
  exists k, nth_error g k = Some p /\ index p = i /\
            forall j q, (j < k)%nat -> nth_error g j = Some q -> index q <> i.
Proof.
  unfold getPanoByNumber.
  induction g as [|a r IH]; intros i p H; simpl in H; [discriminate|].
  destruct (Js.eqb (index a) i) eqn:E.
  - injection H as <-. exists 0%nat. split; [reflexivity|].
    split; [apply eqb_true_eq; exact E|]. intros j q Hj. lia.
  - destruct (IH i p H) as (k & Hk & Hi & Hfirst).
    exists (S k). split; [exact Hk|]. split; [exact Hi|].
    intros j q Hj Hq. destruct j as [|j]; simpl in Hq.
    + injection Hq as <-. intros Eq.
      assert (T : Js.eqb i i = true).
      { rewrite <- Hi at 1. apply find_some in H. apply H. }
      rewrite Eq, T in E. discriminate.
    + apply (Hfirst j q); [lia|exact Hq].
Qed.

Lemma getPanoByNumber_absent g i :
  getPanoByNumber g i = None -> forall q, In q g -> Js.eqb (index q) i = false.
Proof.
  unfold getPanoByNumber. intros H q Hq.
  apply (find_none _ _ H q Hq).
Qed.

Lemma indices_of_buildGraph files :
  map index (buildGraph files) = map trailingNumber (sortFiles files).
Proof.
  unfold buildGraph. generalize (List.length (sortFiles files)) 0%nat.
  induction (sortFiles files) as [|f r IH]; intros len i; simpl;
    [|rewrite IH]; reflexivity.
Qed.

Lemma buildGraph_slots files : wellSlotted (buildGraph files).
Proof. intros k p H. apply (nth_buildGraph files k p H). Qed.

End GraphLookup.

(** X3. getPanoByNumber returns the first entry of the graph with the index
    asked for (an entry with the same index further on is never returned),
    and nothing when no entry has it. In a graph built from a manifest
    whose file names have pairwise different trailing numbers, looking up
    the index of any node gives back that node. *)
Theorem getPanoByNumber_first_match :
  (forall g i p,
     Tour.getPanoByNumber g i = Some p ->
     exists k, nth_error g k = Some p /\ Tour.index p = i /\
               forall j q, (j < k)%nat -> nth_error g j = Some q ->
                           Tour.index q <> i) /\
  (forall g i, i <> Js.NaN ->
     (Tour.getPanoByNumber g i = None <->
      forall q, In q g -> Tour.index q <> i)) /\
  (forall files,
     NoDup (map Tour.trailingNumber files) ->
     forall k p, nth_error (Tour.buildGraph files) k = Some p ->
                 Tour.getPanoByNumber (Tour.buildGraph files) (Tour.index p)
                 = Some p).
Proof.
  split; [exact getPanoByNumber_first|]. split.
  - intros g i Hi. split.
    + intros H q Hq E. pose proof (getPanoByNumber_absent g i H q Hq) as F.
      rewrite E in F. destruct i; simpl in F; try discriminate;
        try congruence.
      rewrite Z.eqb_refl in F. discriminate.
    + intros H. destruct (Tour.getPanoByNumber g i) as [p|] eqn:E;
        [|reflexivity].
      exfalso. unfold Tour.getPanoByNumber in E. apply find_some in E.
      destruct E as [Hin Eb]. apply (H p Hin). apply eqb_true_eq. exact Eb.
  - intros files Hnd k p Hk.
    assert (Hkey : isKey (Tour.index p)).
    { destruct (nth_buildGraph files k p Hk) as (-> & _). apply tour_key_ok. }
    destruct (Tour.getPanoByNumber (Tour.buildGraph files) (Tour.index p))
      as [q|] eqn:E.
    + destruct (getPanoByNumber_first _ _ _ E) as (k' & Hk' & Hi & _).
      assert (Hnd' : NoDup (map Tour.index (Tour.buildGraph files))).
      { rewrite indices_of_buildGraph.
        apply (Permutation_NoDup (l := map Tour.trailingNumber files));
          [|exact Hnd].
        apply Permutation_map. apply (sort_perm string Tour.trailingNumber). }
      assert (k' = k).
      { rewrite NoDup_nth_error in Hnd'. apply Hnd'.
        - rewrite length_map. apply nth_error_Some. congruence.
        - rewrite !nth_error_map, Hk, Hk'. simpl. congruence. }
      subst k'. congruence.
    + exfalso. pose proof (getPanoByNumber_absent _ _ E p
                             (nth_error_In _ _ Hk)) as F.
      rewrite (eqb_key_refl _ Hkey) in F. discriminate.
Qed.

Lemma getPanoByNumber_first_match_witness :
  Tour.getPanoByNumber (Tour.buildGraph Tour.roomFiles) (Js.Fin 10)
  = Some {| Tour.index := Js.Fin 10; Tour.file := "room-10.jpg";
            Tour.arrayIdx := 2; Tour.prev := 1; Tour.next := 0 |}.
Proof.
  destruct getPanoByNumber_first_match as (_ & _ & H).
  refine (H Tour.roomFiles _ 2%nat
            {| Tour.index := Js.Fin 10; Tour.file := "room-10.jpg";
               Tour.arrayIdx := 2; Tour.prev := 1; Tour.next := 0 |}
            eq_refl).
  simpl. repeat constructor; simpl; intuition discriminate.
Defined.

Section ManifestScript.
Local Open Scope string_scope.

Lemma lower_cons c r : Js.lower (String c r) = String (Js.toLower c) (Js.lower r).
Proof. reflexivity. Qed.

Lemma lower_app a b : Js.lower (a ++ b) = Js.lower a ++ Js.lower b.
Proof.
  induction a as [|c r IH]; [reflexivity|].
  cbn [append]. rewrite !lower_cons, IH. reflexivity.
Qed.

Lemma testJpeg_cons c r :
  Js.testJpeg (String c r)
  = (String.eqb ".jpg" (Js.lower (String c r))
     || String.eqb ".jpeg" (Js.lower (String c r))) || Js.testJpeg r.
Proof.
  cbn [Js.testJpeg]. unfold Js.isSuffixHere.
  destruct (String.eqb ".jpg" (Js.lower (String c r))
            || String.eqb ".jpeg" (Js.lower (String c r))); reflexivity.
Qed.

Lemma testJpeg_suffix s :
  Js.testJpeg s = true <->
  exists pre, Js.lower s = pre ++ ".jpg" \/ Js.lower s = pre ++ ".jpeg".
Proof.
  split.
  - induction s as [|c r IH]; intros H; [discriminate|].
    rewrite testJpeg_cons in H. apply orb_prop in H. destruct H as [H|H].
    + exists "". apply orb_prop in H.
      destruct H as [H|H]; apply String.eqb_eq in H; rewrite <- H; auto.
    + destruct (IH H) as [pre Hp]. exists (String (Js.toLower c) pre).
      rewrite lower_cons. cbn [append]. destruct Hp as [->| ->]; auto.
  - intros [pre Hp]. revert pre Hp.
    induction s as [|c r IH]; intros pre Hp.
    + destruct pre; destruct Hp as [Hp|Hp]; discriminate.
    + rewrite testJpeg_cons. destruct pre as [|c' pre'].
      * apply orb_true_intro. left. cbn [append] in Hp.
        destruct Hp as [-> | ->]; reflexivity.
      * apply orb_true_intro. right. apply (IH pre').
        rewrite lower_cons in Hp. cbn [append] in Hp.
        destruct Hp as [Hp|Hp]; injection Hp as _ Hp; auto.
Qed.

End ManifestScript.

(** X4. The manifest script keeps exactly the directory entries whose name
    ends in .jpg or .jpeg, whatever the case of the letters, and writes them
    ordered by ascending trailing number with the names without a number
    last: the list is a permutation of the kept entries, [count] is their
    number, and nothing else gets in. *)
Theorem manifest_lists_sorted_jpegs (listing : list string) :
  Permutation (filter Js.testJpeg listing) (Manifest.files listing) /\
  StronglySorted
    (fun a b => keyLe (Manifest.trailingNumber a) (Manifest.trailingNumber b))
    (Manifest.files listing) /\
  Manifest.count listing = List.length (filter Js.testJpeg listing) /\
  (forall f, In f (Manifest.files listing) <->
             In f listing /\
             exists pre, (Js.lower f = pre ++ ".jpg" \/
                          Js.lower f = pre ++ ".jpeg")%string).
Proof.
  assert (P : Permutation (filter Js.testJpeg listing)
                          (Manifest.files listing)).
  { apply (sort_perm string Manifest.trailingNumber). }
  split; [exact P|]. split.
  { apply (sort_sorted string Manifest.trailingNumber manifest_key_ok). }
  split.
  { unfold Manifest.count. symmetry. apply Permutation_length. exact P. }
  intros f. rewrite <- testJpeg_suffix. rewrite <- filter_In. split.
  - apply Permutation_in. apply Permutation_sym. exact P.
  - apply Permutation_in. exact P.
Qed.

Section ExtensionBlind.
Local Open Scope string_scope.

Lemma decimal_leading_zero d : decimal (String "0" d) = decimal d.
Proof. cbn [decimal]. change (Js.digitVal "0") with 0%N. lia. Qed.

Lemma app_assoc_string (a b c : string) : (a ++ b) ++ c = a ++ (b ++ c).
Proof. induction a as [|x r IH]; [reflexivity|]. cbn [append]. rewrite IH. reflexivity. Qed.

End ExtensionBlind.

(** X5. The trailing number of a file name does not depend on its
    extension: with any final dot-extension of word characters removed or
    replaced, the key is the one of the name before the dot. Digits that
    stand after the last dot are the extension and never counted, and
    leading zeros of the number do not change it. *)
Theorem trailingNumber_ignores_extension :
  (forall base ext1 ext2,
     Js.nonEmpty ext1 = true -> Js.all Js.isWord ext1 = true ->
     Js.nonEmpty ext2 = true -> Js.all Js.isWord ext2 = true ->
     Tour.trailingNumber (base ++ String "." ext1)
     = Tour.trailingNumber (base ++ String "." ext2))%string /\
  (forall base ext,
     Js.nonEmpty ext = true -> Js.all Js.isWord ext = true ->
     endsInDigit base = false ->
     Tour.trailingNumber (base ++ String "." ext) = Js.PosInf)%string /\
  (forall pre d ext,
     Js.nonEmpty ext = true -> Js.all Js.isWord ext = true ->
     endsInDigit pre = false ->
     Js.nonEmpty d = true -> Js.all Js.isDigit d = true ->
     Tour.trailingNumber (pre ++ String "0" d ++ String "." ext)
     = Tour.trailingNumber (pre ++ d ++ String "." ext))%string.
Proof.
  split; [|split].
  - intros base ext1 ext2 H1 H2 H3 H4. unfold Tour.trailingNumber.
    rewrite (replaceExt_strips base ext1 H1 H2).
    rewrite (replaceExt_strips base ext2 H3 H4). reflexivity.
  - intros base ext H1 H2 Hb. apply trailingNumber_sentinel.
    rewrite (replaceExt_strips base ext H1 H2). exact Hb.
  - intros pre d ext H1 H2 Hpre Hd1 Hd2.
    assert (E0 : (Js.replaceExt (pre ++ String "0" d ++ String "." ext)
                  = pre ++ String "0" d)%string).
    { rewrite <- (replaceExt_strips (pre ++ String "0" d)%string ext H1 H2).
      rewrite app_assoc_string. reflexivity. }
    assert (E1 : (Js.replaceExt (pre ++ d ++ String "." ext)
                  = pre ++ d)%string).
    { rewrite <- (replaceExt_strips (pre ++ d)%string ext H1 H2).
      rewrite app_assoc_string. reflexivity. }
    assert (D0 : Js.all Js.isDigit (String "0" d) = true).
    { cbn [Js.all]. rewrite Hd2. reflexivity. }
    rewrite (trailingNumber_digits _ pre (String "0" d) E0 Hpre eq_refl D0).
    rewrite (trailingNumber_digits _ pre d E1 Hpre Hd1 Hd2).
    rewrite decimal_leading_zero. reflexivity.
Qed.

Lemma trailingNumber_ignores_extension_witness :
  Tour.trailingNumber "room-7.jpg" = Tour.trailingNumber "room-7.png" /\
  Tour.trailingNumber "room.10" = Js.PosInf /\
  Tour.trailingNumber "room-007.jpg" = Tour.trailingNumber "room-07.jpg".
Proof.
  destruct trailingNumber_ignores_extension as (H1 & H2 & H3).
  split; [|split].
  - apply (H1 "room-7" "jpg" "png")%string; reflexivity.
  - apply (H2 "room" "10")%string; reflexivity.
  - apply (H3 "room-" "07" "jpg")%string; reflexivity.
Defined.

Section Stability.
Variable A : Type.
Variable comparefn : A -> A -> Js.num.
Variable keep : A -> bool.
Hypothesis apart :
  forall a b, Js.gtZero (comparefn a b) = true -> keep a = true ->
              keep b = true -> False.

Lemma filter_insert_out x l :
  keep x = false ->
  filter keep (Js.insert comparefn x l) = filter keep l.
Proof.
  intros Hx. induction l as [|y r IH]; simpl.
  - rewrite Hx. reflexivity.
  - destruct (Js.gtZero (comparefn x y)); simpl.
    + rewrite IH. reflexivity.
    + rewrite Hx. reflexivity.
Qed.

Lemma filter_insert_in x l :
  keep x = true ->
  filter keep (Js.insert comparefn x l) = x :: filter keep l.
Proof.
  intros Hx. induction l as [|y r IH]; simpl.
  - rewrite Hx. reflexivity.
  - destruct (Js.gtZero (comparefn x y)) eqn:E; simpl.
    + destruct (keep y) eqn:Hy.
      * exfalso. apply (apart x y E Hx Hy).
      * exact IH.
    + rewrite Hx. reflexivity.
Qed.

Lemma filter_sort l :
  filter keep (Js.sort comparefn l) = filter keep l.
Proof.
  induction l as [|x r IH]; simpl; [reflexivity|].
  destruct (keep x) eqn:Hx.
  - rewrite (filter_insert_in x _ Hx), IH. reflexivity.
  - rewrite (filter_insert_out x _ Hx), IH. reflexivity.
Qed.

End Stability.

(** X6. Sorting the manifest at load time keeps the manifest order among
    the files that share a trailing number (and among those without one):
    the files of any one key appear in the sorted list in the order they had
    in the manifest. *)
Theorem sortFiles_keeps_order_of_equal_keys (files : list string) (k : Js.num) :
  filter (fun f => Js.eqb (Tour.trailingNumber f) k) (Tour.sortFiles files)
  = filter (fun f => Js.eqb (Tour.trailingNumber f) k) files.
Proof.
  apply filter_sort. intros a b Hgt Ha Hb.
  apply eqb_true_eq in Ha. apply eqb_true_eq in Hb.
  rewrite Ha, Hb in Hgt.
  destruct k; simpl in Hgt; try discriminate.
  rewrite Z.sub_diag in Hgt. discriminate.
Qed.

Section Labels.
Import Tour.
Local Open Scope string_scope.

Lemma length_lower s : String.length (Js.lower s) = String.length s.
Proof.
  induction s as [|c r IH]; [reflexivity|].
  rewrite lower_cons. cbn [String.length]. rewrite IH. reflexivity.
Qed.

Lemma length_app_string a b :
  String.length (a ++ b) = (String.length a + String.length b)%nat.
Proof.
  induction a as [|c r IH]; [reflexivity|].
  cbn [append String.length]. rewrite IH. reflexivity.
Qed.

(** [dropDigits] stops at the latest at a character that is no digit. *)
Lemma dropDigits_stops a c b :
  Js.isDigit c = false ->
  exists y, dropDigits (a ++ String c b) = y ++ String c b.
Proof.
  intros Hc. induction a as [|x r IH].
  - exists "". cbn [append dropDigits]. rewrite Hc. reflexivity.
  - cbn [append dropDigits]. destruct (Js.isDigit x).
    + exact IH.
    + exists (String x r). reflexivity.
Qed.

Lemma dropDigits_all d rest :
  Js.all Js.isDigit d = true -> dropDigits (d ++ rest) = dropDigits rest.
Proof.
  induction d as [|c r IH]; intros H; [reflexivity|].
  cbn [Js.all] in H. apply andb_prop in H. destruct H as [Hc Hr].
  cbn [append dropDigits]. rewrite Hc. apply IH. exact Hr.
Qed.

Lemma isSep_not_digit c : isSep c = true -> Js.isDigit c = false.
Proof.
  unfold isSep, Js.isDigit. intros H. apply orb_prop in H.
  destruct H as [H|H]; apply Nat.eqb_eq in H; rewrite H; reflexivity.
Qed.

Lemma jpeg_extension_shape ext :
  String.eqb (Js.lower ext) ".jpg" || String.eqb (Js.lower ext) ".jpeg" = true ->
  dropDigits ext = ext /\ (String.length ext <= 5)%nat.
Proof.
  intros H. assert (L : (String.length ext <= 5)%nat).
  { rewrite <- length_lower. apply orb_prop in H.
    destruct H as [H|H]; apply String.eqb_eq in H; rewrite H; simpl; lia. }
  split; [|exact L].
  destruct ext as [|c r]; [reflexivity|].
  cbn [dropDigits]. destruct (Js.isDigit c) eqn:E; [|reflexivity].
  exfalso. rewrite lower_cons in H.
  assert (Js.toLower c = "."%char).
  { apply orb_prop in H. destruct H as [H|H]; apply String.eqb_eq in H;
      injection H; intros; assumption. }
  unfold Js.toLower, Js.isDigit in *.
  destruct ((65 <=? nat_of_ascii c)%nat && (nat_of_ascii c <=? 90)%nat) eqn:U.
  - apply andb_prop in E. destruct E as [E1 E2].
    apply andb_prop in U. destruct U as [U1 U2].
    apply Nat.leb_le in E2, U1. lia.
  - subst c. discriminate E.
Qed.

(** No match of the numbered-jpeg pattern starts inside [base]. *)
Lemma no_match_before base c tail :
  isSep c = true -> (5 <= String.length tail)%nat ->
  forall x b, base = String x b ->
  numberedJpegHere (base ++ String c tail) = false.
Proof.
  intros Hc Ht x b ->. cbn [append].
  destruct b as [|d0 b1].
  - cbn [append numberedJpegHere].
    rewrite (isSep_not_digit c Hc), andb_false_r. reflexivity.
  - cbn [append numberedJpegHere].
    destruct (dropDigits_stops b1 c tail (isSep_not_digit c Hc)) as [y Hy].
    rewrite Hy.
    assert (L : (6 <= String.length (Js.lower (y ++ String c tail)))%nat).
    { rewrite length_lower, length_app_string. cbn [String.length]. lia. }
    destruct (String.eqb (Js.lower (y ++ String c tail)) ".jpg") eqn:E1.
    { apply String.eqb_eq in E1. rewrite E1 in L. simpl in L. lia. }
    destruct (String.eqb (Js.lower (y ++ String c tail)) ".jpeg") eqn:E2.
    { apply String.eqb_eq in E2. rewrite E2 in L. simpl in L. lia. }
    rewrite andb_false_r. reflexivity.
Qed.

Lemma stripNumberedJpeg_strips base c d ext :
  isSep c = true ->
  Js.nonEmpty d = true -> Js.all Js.isDigit d = true ->
  String.eqb (Js.lower ext) ".jpg" || String.eqb (Js.lower ext) ".jpeg" = true ->
  stripNumberedJpeg (base ++ String c (d ++ ext)) = base.
Proof.
  intros Hc Hd1 Hd2 He.
  destruct (jpeg_extension_shape ext He) as [Hdrop Hlen].
  assert (L4 : (4 <= String.length ext)%nat).
  { rewrite <- length_lower. apply orb_prop in He.
    destruct He as [H|H]; apply String.eqb_eq in H; rewrite H; simpl; lia. }
  assert (Lt : (5 <= String.length (d ++ ext))%nat).
  { rewrite length_app_string. destruct d; [discriminate|].
    cbn [String.length]. lia. }
  induction base as [|x b IH].
  - cbn [append stripNumberedJpeg].
    destruct d as [|d0 d1]; [discriminate|].
    cbn [Js.all] in Hd2. apply andb_prop in Hd2. destruct Hd2 as [Hd0 Hd1'].
    cbn [append numberedJpegHere].
    rewrite Hc, Hd0, (dropDigits_all d1 ext Hd1'), Hdrop, He. reflexivity.
  - cbn [append stripNumberedJpeg].
    pose proof (no_match_before (String x b) c (d ++ ext) Hc Lt x b eq_refl)
      as N.
    cbn [append] in N. rewrite N. rewrite IH. reflexivity.
Qed.

Lemma spaces_no_separator s :
  Js.all (fun c => negb (isSep c)) (spaces s) = true.
Proof.
  induction s as [|c r IH]; [reflexivity|].
  cbn [spaces Js.all]. rewrite IH.
  destruct (isSep c) eqn:E; [reflexivity|]. rewrite E. reflexivity.
Qed.

Lemma length_spaces s : String.length (spaces s) = String.length s.
Proof.
  induction s as [|c r IH]; [reflexivity|].
  cbn [spaces String.length]. rewrite IH. reflexivity.
Qed.

End Labels.

(** X7. The label of a panorama names the file without its number: for a
    file name made of a base, a hyphen or underscore, a run of digits and
    .jpg or .jpeg in any case of the letters, friendlyName is the base with
    every hyphen and underscore turned into a space. Whatever the file
    name, the label holds no hyphen and no underscore. *)
Theorem friendlyName_drops_number :
  (forall base c d ext,
     Tour.isSep c = true ->
     Js.nonEmpty d = true -> Js.all Js.isDigit d = true ->
     String.eqb (Js.lower ext) ".jpg" || String.eqb (Js.lower ext) ".jpeg"
     = true ->
     Tour.friendlyName (base ++ String c (d ++ ext))%string
     = Tour.spaces base) /\
  (forall file,
     Js.all (fun c => negb (Tour.isSep c)) (Tour.friendlyName file) = true) /\
  (forall s, String.length (Tour.spaces s) = String.length s).
Proof.
  split; [|split].
  - intros base c d ext Hc H1 H2 He. unfold Tour.friendlyName.
    rewrite (stripNumberedJpeg_strips base c d ext Hc H1 H2 He). reflexivity.
  - intros file. apply spaces_no_separator.
  - exact length_spaces.
Qed.

Lemma friendlyName_drops_number_witness :
  Tour.friendlyName "living_room-12.JPG" = "living room"%string.
Proof.
  destruct friendlyName_drops_number as (H & _).
  apply (H "living_room" "-"%char "12" ".JPG")%string; reflexivity.
Defined.

(* ================================================================== *)
(** * More on the mode machine *)
(* ================================================================== *)

Section ActiveNode.
Import Tour.
Local Open Scope R_scope.

Variable OrbitState : Type.
Variable orbitUpdate :
  OrbitState -> Vec3 -> Vec3 -> OrbitState * (Vec3 * Vec3).

Local Abbreviation St := (State OrbitState).

Lemma slot_of_member g p :
  wellSlotted g -> In p g -> nth_error g (arrayIdx p) = Some p.
Proof.
  intros W Hin. apply In_nth_error in Hin. destruct Hin as [k Hk].
  rewrite (W k p Hk). exact Hk.
Qed.

Lemma graphSound_same (s s' : St) :
  panoGraph (pano s') = panoGraph (pano s) ->
  currentPanoIndex (pano s') = currentPanoIndex (pano s) ->
  panoArrows (pano s') = panoArrows (pano s) ->
  currentMode s' = currentMode s ->
  graphSound s -> graphSound s'.
Proof.
  unfold graphSound, activeNode, currentPano.
  intros -> -> -> ->. tauto.
Qed.

Lemma graphSound_active (s s' : St) p :
  panoGraph (pano s') = panoGraph (pano s) ->
  currentPanoIndex (pano s') = Z.of_nat (arrayIdx p) ->
  panoArrows (pano s') = panoArrows (pano s) ->
  In p (panoGraph (pano s)) ->
  graphSound s -> graphSound s'.
Proof.
  unfold graphSound, activeNode, currentPano.
  intros -> -> -> Hin (W & A & _). split; [exact W|]. split; [exact A|].
  intros _. exists p. split; [|exact Hin].
  destruct (Z.of_nat (arrayIdx p) <? 0)%Z eqn:E.
  - apply Z.ltb_lt in E. lia.
  - rewrite Nat2Z.id. apply slot_of_member; assumption.
Qed.

Lemma enterPanorama_sound i (s : St) :
  graphSound s -> graphSound (enterPanorama i s).
Proof.
  intros H. unfold enterPanorama.
  destruct (getPanoByNumber (panoGraph (pano s)) i) as [p|] eqn:E;
    [|exact H].
  apply (graphSound_active s _ p); try reflexivity; [|exact H].
  unfold getPanoByNumber in E. apply find_some in E. apply E.
Qed.

Lemma navigatePano_sound p (s : St) :
  In p (panoGraph (pano s)) ->
  graphSound s -> graphSound (navigatePano (Some p) s).
Proof.
  intros Hin H.
  apply (graphSound_active s _ p); try reflexivity; assumption.
Qed.

Lemma createPanoArrows_sound (s : St) :
  graphSound s -> graphSound (createPanoArrows s).
Proof.
  intros (W & A & V). unfold createPanoArrows.
  assert (E : graphSound (removePanoArrows s)).
  { split; [exact W|]. split; [intros a []|exact V]. }
  change (currentPano (pano (removePanoArrows s)))
    with (currentPano (pano s)).
  change (hotspotPositions (removePanoArrows s)) with (hotspotPositions s).
  destruct (currentPano (pano s)) as [p|]; [|exact E].
  destruct (hotspotPositions s (index p)) as [cur|]; [|exact E].
  split; [exact W|]. split; [|exact V].
  intros a Ha. simpl in Ha. apply arrowsTo_sound in Ha.
  destruct Ha as (t & q & _ & Hg & _). simpl.
  unfold getPanoByNumber in Hg. apply find_some in Hg. apply Hg.
Qed.

Lemma exitPanorama_sound (s : St) :
  graphSound s -> graphSound (exitPanorama orbitUpdate s).
Proof.
  intros (W & _ & _).
  destruct (exitPanorama_active OrbitState orbitUpdate s) as [_ Hg].
  pose proof (exitPanorama_mode OrbitState orbitUpdate s) as Hm.
  assert (Ha : panoArrows (pano (exitPanorama orbitUpdate s)) = []).
  { unfold exitPanorama, showDollhouse. split_cases; simpl;
      rewrite ?controlsUpdate_same_pano; reflexivity. }
  unfold graphSound. rewrite Hg, Ha, Hm.
  split; [exact W|]. split; [intros a []|discriminate].
Qed.

Lemma onPointerClick_sound hit (s : St) :
  graphSound s -> graphSound (onPointerClick hit s).
Proof.
  intros H. unfold onPointerClick.
  destruct (currentMode s); destruct hit as [k|]; try exact H.
  - destruct (nth_error (hotspotMeshes s) k) as [m|]; [|exact H].
    destruct (Js.truthy (panoIndex m)); [|exact H].
    apply enterPanorama_sound. exact H.
  - destruct (nth_error (panoArrows (pano s)) k) as [a|] eqn:E; [|exact H].
    apply navigatePano_sound; [|exact H].
    apply H. apply (nth_error_In _ _ E).
Qed.

Lemma onGlobalPointerUp_sound now hit e (s : St) :
  graphSound s -> graphSound (onGlobalPointerUp now hit e s).
Proof.
  intros H. unfold onGlobalPointerUp.
  assert (H1 : graphSound (onPanoPointerUp s)).
  { apply (graphSound_same s); try reflexivity. exact H. }
  destruct (Rlt_dec _ _); [destruct (Rlt_dec _ _)|]; try exact H1.
  apply onPointerClick_sound. exact H1.
Qed.

Lemma handle_sound i (s : St) :
  match i with ManifestLoaded _ => False | _ => True end ->
  graphSound s -> graphSound (handle orbitUpdate i s).
Proof.
  intros Hi H. destruct i; cbn [handle]; try contradiction.
  - apply (graphSound_same s); try exact H;
      unfold onGlobalPointerDown, onPanoPointerDown; split_cases; simpl; first [reflexivity|congruence].
  - apply (graphSound_same s); try exact H;
      unfold onGlobalPointerMove, onPanoPointerMove; split_cases; simpl; first [reflexivity|congruence].
  - apply onGlobalPointerUp_sound. exact H.
  - apply (graphSound_same s); try exact H;
      unfold onPanoWheel; split_cases; simpl; first [reflexivity|congruence].
  - apply (graphSound_same s); try exact H;
      unfold onTouchStart, onGlobalPointerDown, onPanoPointerDown;
      split_cases; simpl; first [reflexivity|congruence].
  - apply (graphSound_same s); try exact H;
      unfold onTouchMove, onGlobalPointerMove, onPanoPointerMove;
      split_cases; simpl; first [reflexivity|congruence].
  - unfold onTouchEnd. apply onGlobalPointerUp_sound.
    apply (graphSound_same s); try reflexivity. exact H.
  - unfold onKeyDown. split_cases; try exact H.
    apply exitPanorama_sound. exact H.
  - apply exitPanorama_sound. exact H.
  - unfold textureLoaded. destruct (nth_error _ k); [|exact H].
    apply createPanoArrows_sound.
    apply (graphSound_same s); try reflexivity. exact H.
  - apply (graphSound_same s); try exact H; unfold animate; split_cases;
      rewrite ?controlsUpdate_same_pano, ?controlsUpdate_mode; simpl;
      first [reflexivity|congruence].
  - apply (graphSound_same s); try exact H;
      unfold hotspotPositionsLoaded; split_cases; simpl; first [reflexivity|congruence].
  - apply (graphSound_same s); try exact H;
      unfold graphReady; split_cases; simpl; first [reflexivity|congruence].
  - apply (graphSound_same s); try exact H;
      unfold modelLoaded, createHotspotMeshes, fitCameraToModel;
      cbn [model setModel pano currentMode setHotspotMeshes];
      rewrite ?controlsUpdate_same_pano, ?controlsUpdate_mode; reflexivity.
Qed.

Lemma run_sound inputs : forall s : St,
  noReload inputs -> graphSound s -> graphSound (run orbitUpdate inputs s).
Proof.
  induction inputs as [|i r IH]; intros s Hn H; simpl; [exact H|].
  inversion Hn as [|? ? Hi Hr]; subst.
  apply IH; [exact Hr|]. apply handle_sound; assumption.
Qed.

Lemma manifestLoaded_sound res (o : OrbitState) :
  graphSound (manifestLoaded res (initial o)).
Proof.
  split; [|split].
  - simpl. destruct res as [|[files|]]; simpl.
    + intros k p H. destruct k; discriminate.
    + apply buildGraph_slots.
    + apply buildGraph_slots.
  - intros a [].
  - simpl. discriminate.
Qed.

(** X8. With the manifest loaded once at start-up, whatever inputs follow
    (clicks, keys, wheel, touches, frames, load callbacks), the tour is in
    panorama mode only with an active node: [panoGraph[currentPanoIndex]]
    is then a node of the graph, and every floor marker leads to a node of
    the graph. *)
Theorem active_node_valid_in_panorama (o : OrbitState) (res : Fetched)
  (inputs : list Input) :
  noReload inputs ->
  let s := run orbitUpdate inputs (manifestLoaded res (initial o)) in
  (currentMode s = Panorama ->
   exists p, activeNode s = Some p /\ In p (panoGraph (pano s))) /\
  (forall a, In a (panoArrows (pano s)) -> In (goal a) (panoGraph (pano s))).
Proof.
  intros Hn s.
  destruct (run_sound inputs _ Hn (manifestLoaded_sound res o))
    as (_ & A & V).
  split; assumption.
Qed.

(** *** No manifest, no panorama *)

Lemma dollhouseOnly_same (s s' : St) :
  panoGraph (pano s') = panoGraph (pano s) ->
  currentMode s' = currentMode s ->
  hotspotMeshes s' = hotspotMeshes s ->
  panoArrows (pano s') = panoArrows (pano s) ->
  dollhouseOnly s -> dollhouseOnly s'.
Proof. unfold dollhouseOnly. intros -> -> -> ->. tauto. Qed.

Lemma onPointerClick_dollhouseOnly hit (s : St) :
  dollhouseOnly s -> onPointerClick hit s = s.
Proof.
  intros (_ & Hm & Hh & _). unfold onPointerClick. rewrite Hm, Hh.
  destruct hit as [[|k]|]; reflexivity.
Qed.

Lemma exitPanorama_dollhouseOnly (s : St) :
  dollhouseOnly s -> dollhouseOnly (exitPanorama orbitUpdate s).
Proof.
  intros (Hg & _ & Hh & _).
  destruct (exitPanorama_active OrbitState orbitUpdate s) as [_ Hg'].
  pose proof (exitPanorama_mode OrbitState orbitUpdate s) as Hm.
  assert (Ha : panoArrows (pano (exitPanorama orbitUpdate s)) = [] /\
               hotspotMeshes (exitPanorama orbitUpdate s)
               = showMeshes true (hotspotMeshes s) \/
               panoArrows (pano (exitPanorama orbitUpdate s)) = [] /\
               hotspotMeshes (exitPanorama orbitUpdate s) = hotspotMeshes s).
  { unfold exitPanorama, showDollhouse, controlsUpdate.
    split_cases; simpl; auto. }
  unfold dollhouseOnly. rewrite Hg', Hm, Hg.
  destruct Ha as [[Ha Hs]|[Ha Hs]]; rewrite Ha, Hs, Hh; auto.
Qed.

Lemma handle_dollhouseOnly i (s : St) :
  match i with
  | ManifestLoaded (Json (Some (_ :: _))) => False
  | _ => True
  end ->
  dollhouseOnly s -> dollhouseOnly (handle orbitUpdate i s).
Proof.
  intros Hi H. pose proof H as (Hg & Hm & Hh & Ha).
  destruct i; cbn [handle].
  - apply (dollhouseOnly_same s); try exact H;
      unfold onGlobalPointerDown, onPanoPointerDown; split_cases; simpl; first [reflexivity|congruence].
  - apply (dollhouseOnly_same s); try exact H;
      unfold onGlobalPointerMove, onPanoPointerMove; split_cases; simpl; first [reflexivity|congruence].
  - unfold onGlobalPointerUp.
    assert (H1 : dollhouseOnly (onPanoPointerUp s)).
    { apply (dollhouseOnly_same s); try reflexivity. exact H. }
    destruct (Rlt_dec _ _); [destruct (Rlt_dec _ _)|]; try exact H1.
    rewrite (onPointerClick_dollhouseOnly hit _ H1). exact H1.
  - apply (dollhouseOnly_same s); try exact H;
      unfold onPanoWheel; split_cases; simpl; first [reflexivity|congruence].
  - apply (dollhouseOnly_same s); try exact H;
      unfold onTouchStart, onGlobalPointerDown, onPanoPointerDown;
      split_cases; simpl; first [reflexivity|congruence].
  - apply (dollhouseOnly_same s); try exact H;
      unfold onTouchMove, onGlobalPointerMove, onPanoPointerMove;
      split_cases; simpl; first [reflexivity|congruence].
  - unfold onTouchEnd, onGlobalPointerUp.
    assert (H1 : dollhouseOnly
                   (onPanoPointerUp (setPinch 0 (panoPointerDown (ptr s)) s))).
    { apply (dollhouseOnly_same s); try reflexivity. exact H. }
    destruct (Rlt_dec _ _); [destruct (Rlt_dec _ _)|]; try exact H1.
    rewrite (onPointerClick_dollhouseOnly hit _ H1). exact H1.
  - unfold onKeyDown. rewrite Hm. destruct (String.eqb _ _); exact H.
  - apply exitPanorama_dollhouseOnly. exact H.
  - unfold textureLoaded. destruct (nth_error _ k); [|exact H].
    unfold createPanoArrows, currentPano. simpl. rewrite Hg.
    destruct (currentPanoIndex (pano s) <? 0)%Z;
      [|destruct (Z.to_nat (currentPanoIndex (pano s)))];
      simpl; unfold dollhouseOnly; simpl; auto.
  - unfold animate. rewrite Hm.
    apply (dollhouseOnly_same s); try exact H;
      unfold controlsUpdate; destruct (orbitUpdate _ _ _) as [? [? ?]];
      reflexivity.
  - unfold dollhouseOnly. simpl.
    destruct res as [|[[|f r]|]]; simpl; try contradiction; auto.
  - apply (dollhouseOnly_same s); try exact H;
      unfold hotspotPositionsLoaded; split_cases; simpl; first [reflexivity|congruence].
  - unfold graphReady. destruct (model s); [|exact H].
    unfold createHotspotMeshes, dollhouseOnly. simpl. rewrite Hg. auto.
  - unfold modelLoaded, createHotspotMeshes, fitCameraToModel.
    cbn [model setModel]. unfold controlsUpdate.
    destruct (orbitUpdate _ _ _) as [? [? ?]].
    unfold dollhouseOnly. simpl. rewrite Hg. auto.
Qed.

(** X9. When the manifest never arrives, or arrives without files, the tour
    stays a dollhouse viewer: after any inputs the mode is Dollhouse, the
    graph is empty and there is no hotspot and no floor marker; a click
    changes nothing then. *)
Theorem no_manifest_no_panorama (o : OrbitState) (inputs : list Input) :
  noFiles inputs ->
  let s := run orbitUpdate inputs (initial o) in
  currentMode s = Dollhouse /\
  panoGraph (pano s) = [] /\
  hotspotMeshes s = [] /\
  panoArrows (pano s) = [] /\
  (forall hit, onPointerClick hit s = s) /\
  (forall i, enterPanorama i s = s).
Proof.
  intros Hn s.
  assert (H : dollhouseOnly s).
  { subst s. assert (H0 : dollhouseOnly (initial o)).
    { unfold dollhouseOnly. simpl. auto. }
    revert H0. generalize (initial o). revert Hn.
    induction inputs as [|i r IH]; intros Hn s0 H0; simpl; [exact H0|].
    inversion Hn as [|? ? Hi Hr]; subst.
    apply IH; [exact Hr|]. apply handle_dollhouseOnly; assumption. }
  pose proof H as (Hg & Hm & Hh & Ha).
  split; [exact Hm|]. split; [exact Hg|]. split; [exact Hh|].
  split; [exact Ha|]. split.
  - intros hit. apply onPointerClick_dollhouseOnly. exact H.
  - intros i. unfold enterPanorama. rewrite Hg. reflexivity.
Qed.

End ActiveNode.

(** A press and release 3 pixels apart within 100 ms in dollhouse mode is
    a tap. *)
Lemma dollhouse_tap (O : Type) (s : Tour.State O) hit :
  Tour.currentMode s = Tour.Dollhouse ->
  let s2 := Tour.onGlobalPointerDown 1000 (Tour.pointerAt 200 150) s in
  Tour.onGlobalPointerUp 1100 hit (Tour.pointerAt 203 150) s2
  = Tour.onPointerClick hit (Tour.onPanoPointerUp s2).
Proof.
  intros Hm s2.
  destruct (pointerUp_cases O 1100%R hit (Tour.pointerAt 203 150) s2)
    as [U _].
  apply U. clear U. subst s2. unfold isTap.
  unfold Tour.onGlobalPointerDown, Tour.onPanoPointerDown.
  cbn [Tour.currentMode Tour.setPtr]. rewrite Hm.
  unfold Tour.elapsedAt, Tour.distAt.
  cbn [Tour.ptr Tour.setPtr Tour.pointerDownTime Tour.pointerDownPos
       Tour.clientX Tour.clientY Tour.pointerAt Tour.changedTouches
       Tour.touches Tour.firstX Tour.firstY fst snd].
  rewrite !pointer_coordinate.
  rewrite (distance_along_x 200 203 150) by lra. lra.
Qed.

(** The example tour after a tap on the hotspot of room 3 and the end of
    the texture load. *)
Lemma room3_entered :
  Tour.currentMode
    (Tour.run Tour.restingOrbit
       [Tour.HotspotsLoaded (Some Tour.roomPositions) None;
        Tour.GraphReady;
        Tour.ModelLoaded origin unitX;
        Tour.PointerDown 1000 (Tour.pointerAt 200 150);
        Tour.PointerUp 1100 (Some 1%nat) (Tour.pointerAt 203 150);
        Tour.TextureLoaded 0]
       (Tour.manifestLoaded (Tour.Json (Some Tour.roomFiles))
          (Tour.initial tt))) = Tour.Panorama.
Proof.
  cbn [Tour.run Tour.handle].
  rewrite dollhouse_tap by reflexivity.
  reflexivity.
Qed.

Lemma active_node_valid_in_panorama_witness :
  let s := Tour.run Tour.restingOrbit
             [Tour.HotspotsLoaded (Some Tour.roomPositions) None;
              Tour.GraphReady;
              Tour.ModelLoaded origin unitX;
              Tour.PointerDown 1000 (Tour.pointerAt 200 150);
              Tour.PointerUp 1100 (Some 1%nat) (Tour.pointerAt 203 150);
              Tour.TextureLoaded 0]
             (Tour.manifestLoaded (Tour.Json (Some Tour.roomFiles))
                (Tour.initial tt)) in
  Tour.currentMode s = Tour.Panorama /\
  (exists p, activeNode s = Some p /\
             In p (Tour.panoGraph (Tour.pano s))) /\
  (forall a, In a (Tour.panoArrows (Tour.pano s)) ->
             In (Tour.goal a) (Tour.panoGraph (Tour.pano s))).
Proof.
  cbv zeta.
  assert (N : noReload
                [Tour.HotspotsLoaded (Some Tour.roomPositions) None;
                 Tour.GraphReady;
                 Tour.ModelLoaded origin unitX;
                 Tour.PointerDown 1000 (Tour.pointerAt 200 150);
                 Tour.PointerUp 1100 (Some 1%nat) (Tour.pointerAt 203 150);
                 Tour.TextureLoaded 0]).
  { unfold noReload. repeat constructor. }
  pose proof (active_node_valid_in_panorama unit Tour.restingOrbit tt
                (Tour.Json (Some Tour.roomFiles)) _ N) as T.
  cbv zeta in T. destruct T as [A M].
  split; [exact room3_entered|].
  split; [exact (A room3_entered)|exact M].
Defined.

Lemma no_manifest_no_panorama_witness :
  let s := Tour.run Tour.restingOrbit
             [Tour.ManifestLoaded Tour.FetchFailed;
              Tour.ManifestLoaded (Tour.Json None);
              Tour.ManifestLoaded (Tour.Json (Some []));
              Tour.HotspotsLoaded (Some Tour.roomPositions) None;
              Tour.GraphReady;
              Tour.PointerDown 1000 (Tour.pointerAt 200 150);
              Tour.PointerUp 1100 (Some 0%nat) (Tour.pointerAt 200 150)]
             (Tour.initial tt) in
  Tour.currentMode s = Tour.Dollhouse /\
  Tour.panoGraph (Tour.pano s) = [] /\
  Tour.hotspotMeshes s = [] /\
  Tour.panoArrows (Tour.pano s) = [] /\
  (forall hit, Tour.onPointerClick hit s = s) /\
  (forall i, Tour.enterPanorama i s = s).
Proof.
  apply (no_manifest_no_panorama unit Tour.restingOrbit tt).
  unfold noFiles. repeat constructor.
Defined.

Section Callbacks.
Import Tour.
Local Open Scope R_scope.

Variable OrbitState : Type.
Variable orbitUpdate :
  OrbitState -> Vec3 -> Vec3 -> OrbitState * (Vec3 * Vec3).

Local Abbreviation St := (State OrbitState).
Local Abbreviation tick := (handle orbitUpdate Frame).

(** *** The fade of a new panorama image *)

Lemma tick_fading (s : St) b :
  currentMode s = Panorama -> panoFading (pano s) = true ->
  panoSphere (pano s) = Some b ->
  tick s = if Rle_dec 1 (panoFadeProgress (pano s) + 0.03)
           then setFade false 1 s
           else setFade true (panoFadeProgress (pano s) + 0.03) s.
Proof.
  intros Hm Hf Hs. cbn [handle]. unfold animate. rewrite Hm, Hf, Hs.
  reflexivity.
Qed.

Lemma tick_faded (s : St) :
  currentMode s = Panorama -> panoFading (pano s) = false -> tick s = s.
Proof.
  intros Hm Hf. cbn [handle]. unfold animate. rewrite Hm, Hf. reflexivity.
Qed.

Lemma fade_steps (s : St) b :
  currentMode s = Panorama -> panoFading (pano s) = true ->
  panoSphere (pano s) = Some b -> panoFadeProgress (pano s) = 0 ->
  forall n,
    let s' := Nat.iter n tick s in
    currentMode s' = Panorama /\ panoSphere (pano s') = Some b /\
    ((n < 34)%nat ->
     panoFading (pano s') = true /\
     panoFadeProgress (pano s') = 0.03 * INR n) /\
    ((34 <= n)%nat ->
     panoFading (pano s') = false /\ panoFadeProgress (pano s') = 1).
Proof.
  intros Hm Hf Hs H0 n. induction n as [|n IH].
  - simpl. split; [exact Hm|]. split; [exact Hs|]. split.
    + intros _. split; [exact Hf|]. rewrite H0. lra.
    + intros H. lia.
  - cbv zeta in IH. destruct IH as (Im & Is & Ilow & Ihigh).
    cbv zeta.
    change (Nat.iter (S n) tick s) with (tick (Nat.iter n tick s)).
    set (t := Nat.iter n tick s) in *. clearbody t.
    destruct (Nat.lt_ge_cases n 34) as [Hn|Hn].
    + destruct (Ilow Hn) as [If Ip].
      rewrite (tick_fading t b Im If Is), Ip.
      assert (Hr : INR n <= 33).
      { replace 33 with (INR 33) by (simpl; lra). apply le_INR. lia. }
      destruct (Rle_dec 1 (0.03 * INR n + 0.03)) as [D|D].
      * assert (n = 33%nat).
        { destruct (Nat.eq_dec n 33) as [E|E]; [exact E|].
          exfalso. assert (Hr' : INR n <= 32).
          { replace 32 with (INR 32) by (simpl; lra). apply le_INR. lia. }
          lra. }
        subst n. simpl. split; [exact Im|]. split; [exact Is|].
        split; [intros H; lia|intros _; split; reflexivity].
      * simpl pano. simpl currentMode.
        split; [exact Im|]. split; [exact Is|]. split.
        -- intros _. split; [reflexivity|]. simpl panoFadeProgress.
           rewrite S_INR. lra.
        -- intros H. exfalso.
           assert (n = 33%nat) by lia. subst n. simpl in D. lra.
    + destruct (Ihigh Hn) as [If Ip].
      rewrite (tick_faded t Im If).
      split; [exact Im|]. split; [exact Is|]. split.
      * intros H. lia.
      * intros _. split; assumption.
Qed.

Lemma fade_range_kept i (s : St) :
  0 <= panoFadeProgress (pano s) <= 1 ->
  0 <= panoFadeProgress (pano (handle orbitUpdate i s)) <= 1.
Proof.
  intros H.
  assert (Click : forall hit (s0 : St),
            panoFadeProgress (pano (onPointerClick hit s0))
            = panoFadeProgress (pano s0)).
  { intros hit s0. unfold onPointerClick, enterPanorama, navigatePano.
    split_cases; reflexivity. }
  assert (Exit : forall s0 : St,
            panoFadeProgress (pano (exitPanorama orbitUpdate s0))
            = panoFadeProgress (pano s0)).
  { intros s0. unfold exitPanorama, showDollhouse.
    split_cases; simpl; rewrite ?controlsUpdate_same_pano; reflexivity. }
  assert (Arrows : forall s0 : St,
            panoFadeProgress (pano (createPanoArrows s0))
            = panoFadeProgress (pano s0)).
  { intros s0. unfold createPanoArrows. split_cases; reflexivity. }
  destruct i; cbn [handle];
    unfold onTouchStart, onTouchMove, onTouchEnd, onGlobalPointerMove,
      onGlobalPointerUp, onGlobalPointerDown, onPanoPointerDown,
      onPanoPointerMove, onPanoWheel, onKeyDown, textureLoaded, animate,
      hotspotPositionsLoaded, graphReady, modelLoaded, createHotspotMeshes,
      fitCameraToModel;
    split_cases;
    rewrite ?Click, ?Exit, ?Arrows, ?controlsUpdate_same_pano; simpl;
    rewrite ?controlsUpdate_same_pano; simpl;
    solve [exact H | lra].
Qed.

(** X10. The opacity ramp of a new panorama image is counted in render
    ticks: from a finished texture load (progress 0) it stands at 0.03 n
    after n ticks in panorama mode for n below 34, and the 34th tick ends
    the fade at exactly 1, where later ticks leave it. Whatever the inputs,
    the ramp stays within [0, 1]. *)
Theorem fade_takes_34_ticks :
  (forall (s : St) b,
     currentMode s = Panorama -> panoFading (pano s) = true ->
     panoSphere (pano s) = Some b -> panoFadeProgress (pano s) = 0 ->
     forall n,
       let s' := Nat.iter n (handle orbitUpdate Frame) s in
       ((n < 34)%nat ->
        panoFading (pano s') = true /\
        panoFadeProgress (pano s') = 0.03 * INR n) /\
       ((34 <= n)%nat ->
        panoFading (pano s') = false /\ panoFadeProgress (pano s') = 1)) /\
  (forall (inputs : list Input) (s : St),
     0 <= panoFadeProgress (pano s) <= 1 ->
     0 <= panoFadeProgress (pano (run orbitUpdate inputs s)) <= 1).
Proof.
  split.
  - intros s b Hm Hf Hs H0 n.
    destruct (fade_steps s b Hm Hf Hs H0 n) as (_ & _ & L & U).
    split; assumption.
  - intros inputs. induction inputs as [|i r IH]; intros s H; simpl.
    + exact H.
    + apply IH, fade_range_kept, H.
Qed.

(** *** The texture callback *)




(** *** Inputs in dollhouse mode *)

(** X12. In dollhouse mode the tour's own listeners leave the tour's
    panorama state alone: after a pointer press or move, a wheel turn, a
    touch start or move, a key press or a tap that hits no hotspot, the
    yaw, pitch and field-of-view accumulators, the graph, the floor
    markers and the fade are as before, and so are the mode, the camera
    snapshot and the hotspots. Nothing is said of the camera: in this mode
    it belongs to the orbit controls, which listen on the same canvas. *)
Theorem dollhouse_listeners_keep_pano_state (s : St) (i : Input) :
  currentMode s = Dollhouse ->
  match i with
  | PointerDown _ _ | PointerMove _ | Wheel _ | TouchStart _ _
  | TouchMove _ | KeyDown _ | PointerUp _ None _ | TouchEnd _ None _ => True
  | _ => False
  end ->
  let s' := handle orbitUpdate i s in
  pano s' = pano s /\ currentMode s' = Dollhouse /\ saved s' = saved s /\
  hotspotMeshes s' = hotspotMeshes s.
Proof.
  intros Hm Hi.
  destruct i as [? ?|?|? [?|] ?|?|? ?|?|? [?|] ?|?| | | | | | |];
    try contradiction; cbn [handle];
    unfold onTouchStart, onTouchMove, onTouchEnd, onGlobalPointerMove,
      onGlobalPointerUp, onGlobalPointerDown, onPanoPointerDown,
      onPanoPointerMove, onPanoWheel, onKeyDown, onPointerClick;
    simpl; rewrite ?Hm; split_cases; simpl; rewrite ?Hm;
    repeat split; reflexivity.
Qed.

(** *** Pinch *)

(** X13. A touch start with two fingers in panorama mode takes the
    distance of the fingers as the pinch baseline and suspends looking: it
    clears the pointer-down flag, so pointer and one-finger moves leave yaw
    and pitch alone until the next pointer-down; it restarts no tap timing.
    A two-finger move changes the zoom and the baseline only, never yaw or
    pitch. *)
Theorem pinch_suspends_look (s : St) (now : R) (e : Event) :
  currentMode s = Panorama -> touchCount (touches e) = 2%nat ->
  let s1 := handle orbitUpdate (TouchStart now e) s in
  panoPointerDown (ptr s1) = false /\
  panoPinchDist (ptr s1) = getTouchDist e /\
  pointerDownTime (ptr s1) = pointerDownTime (ptr s) /\
  pano s1 = pano s /\ currentMode s1 = Panorama /\
  (forall e', handle orbitUpdate (PointerMove e') s1 = s1) /\
  (forall e', touchCount (touches e') <> 2%nat ->
              handle orbitUpdate (TouchMove e') s1 = s1) /\
  (forall e', touchCount (touches e') = 2%nat ->
     let s2 := handle orbitUpdate (TouchMove e') s1 in
     panoYaw (pano s2) = panoYaw (pano s) /\
     panoPitch (pano s2) = panoPitch (pano s) /\
     panoPinchDist (ptr s2) = getTouchDist e' /\
     panoPointerDown (ptr s2) = false).
Proof.
  intros Hm Ht. cbn [handle]. unfold onTouchStart. rewrite Hm, Ht.
  cbv zeta. simpl.
  repeat split; try reflexivity; try exact Hm.
  - intros e'. unfold onGlobalPointerMove, onPanoPointerMove. simpl.
    rewrite Hm. reflexivity.
  - intros e' Hn. unfold onTouchMove. simpl. rewrite Hm.
    apply Nat.eqb_neq in Hn. rewrite Hn.
    unfold onGlobalPointerMove, onPanoPointerMove. simpl.
    rewrite Hm. reflexivity.
  - unfold onTouchMove. simpl. rewrite Hm, H. reflexivity.
  - unfold onTouchMove. simpl. rewrite Hm, H. reflexivity.
  - unfold onTouchMove. simpl. rewrite Hm, H. reflexivity.
  - unfold onTouchMove. simpl. rewrite Hm, H. reflexivity.
Qed.

(** *** Hotspot clicks *)

Lemma hotspotSpheres_from_graph h g m :
  In m (hotspotSpheres h g) ->
  exists q, In q g /\ index q = panoIndex m /\
            h (index q) = Some (meshPosition m).
Proof.
  induction g as [|a r IH]; simpl; [tauto|].
  destruct (h (index a)) as [pos|] eqn:E.
  - intros [<-|H].
    + exists a. simpl. auto.
    + destruct (IH H) as (q & Hq & Hi). exists q. auto.
  - intros H. destruct (IH H) as (q & Hq & Hi). exists q. auto.
Qed.

(** X14. After the hotspots are built, a dollhouse click that hits a
    hotspot enters the panorama of the first graph node with the hotspot's
    index, which has a position; the mode becomes Panorama. The one
    exception is a hotspot with index 0: 0 counts as no index, so the click
    does nothing and the panorama of a file numbered 0 cannot be opened. *)
Theorem hotspot_click_enters (s : St) (k : nat) (m : HotspotMesh) :
  currentMode s = Dollhouse ->
  nth_error (hotspotMeshes (createHotspotMeshes s)) k = Some m ->
  let s0 := createHotspotMeshes s in
  let s' := onPointerClick (Some k) s0 in
  (Js.truthy (panoIndex m) = false -> s' = s0) /\
  (panoIndex m = Js.Fin 0 -> s' = s0) /\
  (Js.truthy (panoIndex m) = true ->
   currentMode s' = Panorama /\
   hotspotPositions s (panoIndex m) <> None /\
   exists p, getPanoByNumber (panoGraph (pano s)) (panoIndex m) = Some p /\
             index p = panoIndex m /\
             currentPanoIndex (pano s') = Z.of_nat (arrayIdx p)).
Proof.
  intros Hm Hk s0 s'.
  assert (E : s' = if Js.truthy (panoIndex m)
                   then enterPanorama (panoIndex m) s0 else s0).
  { subst s' s0. unfold onPointerClick.
    change (currentMode (createHotspotMeshes s)) with (currentMode s).
    rewrite Hm, Hk. reflexivity. }
  split; [intros T; rewrite E, T; reflexivity|].
  split; [intros T; rewrite E, T; reflexivity|].
  intros T. rewrite E, T.
  pose proof (nth_error_In _ _ Hk) as Hin.
  change (hotspotMeshes (createHotspotMeshes s))
    with (hotspotSpheres (hotspotPositions s) (panoGraph (pano s))) in Hin.
  destruct (hotspotSpheres_from_graph _ _ _ Hin) as (q & Hq & Hi & Hpos).
  destruct (getPanoByNumber (panoGraph (pano s)) (panoIndex m))
    as [p|] eqn:G.
  - destruct (enterPanorama_found _ (panoIndex m) p s0 G) as (M & I & _).
    split; [exact M|]. split; [rewrite <- Hi, Hpos; discriminate|].
    exists p. split; [reflexivity|]. split; [|exact I].
    unfold getPanoByNumber in G. apply find_some in G.
    apply eqb_true_eq. apply G.
  - exfalso. pose proof (getPanoByNumber_absent _ _ G q Hq) as F.
    rewrite Hi in F. destruct (panoIndex m); simpl in F, T;
      try discriminate. rewrite Z.eqb_refl in F. discriminate.
Qed.

End Callbacks.

Lemma fade_takes_34_ticks_witness :
  let s := Tour.textureLoaded 0
             (Tour.enterPanorama (Js.Fin 1) Tour.readyTour) in
  let s' := Nat.iter 34 (Tour.handle Tour.restingOrbit Tour.Frame) s in
  Tour.panoFading (Tour.pano s') = false /\
  Tour.panoFadeProgress (Tour.pano s') = 1%R.
Proof.
  destruct (fade_takes_34_ticks unit Tour.restingOrbit) as [H _].
  apply (H (Tour.textureLoaded 0
              (Tour.enterPanorama (Js.Fin 1) Tour.readyTour)) true
           eq_refl eq_refl eq_refl eq_refl 34%nat).
  apply le_n.
Defined.


Lemma dollhouse_listeners_keep_pano_state_witness :
  let s' := Tour.handle Tour.restingOrbit (Tour.Wheel (Tour.wheelBy 400))
              Tour.readyTour in
  Tour.pano s' = Tour.pano Tour.readyTour /\
  Tour.currentMode s' = Tour.Dollhouse /\
  Tour.saved s' = Tour.saved Tour.readyTour /\
  Tour.hotspotMeshes s' = Tour.hotspotMeshes Tour.readyTour.
Proof.
  apply (dollhouse_listeners_keep_pano_state unit Tour.restingOrbit
           Tour.readyTour (Tour.Wheel (Tour.wheelBy 400)) eq_refl I).
Defined.

Lemma pinch_suspends_look_witness :
  let s := Tour.handle Tour.restingOrbit
             (Tour.PointerDown 1000 (Tour.pointerAt 200 150))
             (Tour.enterPanorama (Js.Fin 1) Tour.readyTour) in
  let s1 := Tour.handle Tour.restingOrbit
              (Tour.TouchStart 1200 (Tour.pinchAt 0 0 3 4)) s in
  Tour.panoPointerDown (Tour.ptr s) = true /\
  Tour.panoPointerDown (Tour.ptr s1) = false /\
  Tour.handle Tour.restingOrbit (Tour.PointerMove (Tour.pointerAt 900 900))
    s1 = s1.
Proof.
  destruct (pinch_suspends_look unit Tour.restingOrbit
              (Tour.handle Tour.restingOrbit
                 (Tour.PointerDown 1000 (Tour.pointerAt 200 150))
                 (Tour.enterPanorama (Js.Fin 1) Tour.readyTour)) 1200
              (Tour.pinchAt 0 0 3 4) eq_refl eq_refl)
    as (D & _ & _ & _ & _ & M & _).
  split; [reflexivity|]. split; [exact D|apply M].
Defined.

Lemma hotspot_click_enters_witness :
  Tour.currentMode (Tour.onPointerClick (Some 1%nat) Tour.readyTour)
  = Tour.Panorama /\
  Tour.currentPanoIndex
    (Tour.pano (Tour.onPointerClick (Some 1%nat) Tour.readyTour)) = 1%Z.
Proof.
  destruct (hotspot_click_enters unit
              (Tour.setModel (Some true)
                 (Tour.hotspotPositionsLoaded (Some Tour.roomPositions) None
                    Tour.bareTour))
              1%nat
              {| Tour.panoIndex := Js.Fin 3;
                 Tour.meshPosition := {| Tour.vx := 1; Tour.vy := 0;
                                         Tour.vz := 0 |};
                 Tour.meshVisible := true |}
              eq_refl eq_refl)
    as (_ & _ & H).
  destruct (H eq_refl) as (M & _ & p & G & _ & I).
  split; [exact M|].
  change (Tour.onPointerClick (Some 1%nat) Tour.readyTour)
    with (Tour.onPointerClick (Some 1%nat)
            (Tour.createHotspotMeshes
               (Tour.setModel (Some true)
                  (Tour.hotspotPositionsLoaded (Some Tour.roomPositions) None
                     Tour.bareTour)))).
  rewrite I. vm_compute in G. injection G as <-. reflexivity.
Defined.

Section LookDirection.
Import Tour.
Local Open Scope R_scope.

Lemma degToRad_complement pitch :
  degToRad (90 - pitch) = PI / 2 - degToRad pitch.
Proof. unfold degToRad. field. Qed.

Lemma lookTarget_components yaw pitch :
  lookTarget yaw pitch
  = {| vx := cos (degToRad pitch) * cos (degToRad yaw);
       vy := sin (degToRad pitch);
       vz := cos (degToRad pitch) * sin (degToRad yaw) |}.
Proof.
  unfold lookTarget. cbv zeta. rewrite degToRad_complement.
  rewrite (cos_shift (degToRad pitch)), (sin_shift (degToRad pitch)).
  reflexivity.
Qed.

Lemma circle x : sin x * sin x + cos x * cos x = 1.
Proof. pose proof (sin2_cos2 x) as H. unfold Rsqr in H. exact H. Qed.

Lemma cos_pitch_positive pitch :
  -85 <= pitch <= 85 -> 0 < cos (degToRad pitch).
Proof.
  intros H. pose proof PI_RGT_0 as P. unfold degToRad.
  apply cos_gt_0; nra.
Qed.

(** X15. The point the panorama camera is turned to is a unit vector,
    whatever the accumulators hold: its height is the sine of the pitch and
    its horizontal part has length the cosine of the pitch, along the yaw
    (yaw 0 is +X, yaw 90 is +Z). With the pitch inside its clamp of
    [-85, 85] degrees the horizontal part never vanishes, so the camera
    never looks straight up or down. *)
Theorem look_direction_unit (O : Type) (s : State O) :
  let v := updatePanoCamera s in
  let yaw := degToRad (panoYaw (pano s)) in
  let pitch := degToRad (panoPitch (pano s)) in
  normSq v = 1 /\
  vy v = sin pitch /\
  vx v = cos pitch * cos yaw /\ vz v = cos pitch * sin yaw /\
  (pitchInRange s -> 0 < vx v * vx v + vz v * vz v).
Proof.
  unfold updatePanoCamera. rewrite lookTarget_components. cbv zeta.
  unfold normSq. cbn [vx vy vz].
  set (p := degToRad (panoPitch (pano s))).
  set (y := degToRad (panoYaw (pano s))).
  pose proof (circle p) as Cp. pose proof (circle y) as Cy.
  split; [nra|]. split; [reflexivity|]. split; [reflexivity|].
  split; [reflexivity|].
  intros H. pose proof (cos_pitch_positive _ H) as C. fold p in C.
  replace (cos p * cos y * (cos p * cos y) + cos p * sin y * (cos p * sin y))
    with (cos p * cos p * (sin y * sin y + cos y * cos y)) by ring.
  rewrite Cy. nra.
Qed.

(** X16. Every floor marker that [createPanoArrows] makes lies 12 below the
    camera on the circle of radius 25 around it, in the direction the
    camera looks when its yaw is the marker's yaw and its pitch is 0: the
    markers use the camera's yaw convention. *)
Theorem floor_markers_on_circle (O : Type) (s : State O) (m : Marker) :
  In m (panoArrows (pano (createPanoArrows s))) ->
  let ahead := lookTarget (yawDeg m) 0 in
  vy (place m) = -12 /\
  vx (place m) * vx (place m) + vz (place m) * vz (place m) = 25 * 25 /\
  vx (place m) = 25 * vx ahead /\ vz (place m) = 25 * vz ahead /\
  vy ahead = 0.
Proof.
  intros H.
  assert (E : m = createFloorCircle (label m) (yawDeg m) (goal m)).
  { unfold createPanoArrows in H.
    destruct (currentPano (pano (removePanoArrows s))) as [p|];
      [|destruct H].
    destruct (hotspotPositions (removePanoArrows s) (index p)) as [c|];
      [|destruct H].
    simpl in H. apply arrowsTo_sound in H.
    destruct H as (t & q & _ & _ & _ & E).
    remember (goal m) as g eqn:Hg. clear Hg. subst m. reflexivity. }
  rewrite lookTarget_components. cbv zeta. cbn [vx vy vz].
  assert (Z0 : degToRad 0 = 0) by (unfold degToRad; ring).
  rewrite Z0, cos_0, sin_0.
  rewrite E. unfold createFloorCircle. cbn [place vx vy vz yawDeg].
  pose proof (circle (degToRad (yawDeg m))) as C.
  split; [reflexivity|]. split; [nra|].
  split; [ring|]. split; [ring|reflexivity].
Qed.

(** X17. The hotspot ring and the glow of the floor markers pulse within
    fixed bounds at every frame time: the ring's scale stays in [0.7, 1.3]
    and its opacity in [0, 0.4], rising and falling with the scale; the
    glow stays in [0.05, 0.35]. *)
Theorem pulses_bounded (time : R) (i : Z) :
  0.7 <= ringScale time (IZR i) <= 1.3 /\
  0 <= ringOpacity time (IZR i) <= 0.4 /\
  3 * ringOpacity time (IZR i) = 2 * ringScale time (IZR i) - 1.4 /\
  0.05 <= glowOpacity time <= 0.35.
Proof.
  unfold ringScale, ringOpacity, glowOpacity.
  pose proof (SIN_bound (time * 0.003 + IZR i)) as A.
  pose proof (SIN_bound (time * 0.004)) as B.
  repeat split; lra.
Qed.

End LookDirection.

Lemma look_direction_unit_witness :
  let v := Tour.updatePanoCamera (Tour.initial tt) in
  (0 < Tour.vx v * Tour.vx v + Tour.vz v * Tour.vz v)%R.
Proof.
  destruct (look_direction_unit unit (Tour.initial tt))
    as (_ & _ & _ & _ & H).
  apply H. unfold pitchInRange. simpl. lra.
Defined.

Lemma floor_markers_on_circle_witness :
  let m := markerFor (Js.Fin 4) origin
             {| Tour.file := "a-3.jpg"; Tour.index := Js.Fin 3;
                Tour.arrayIdx := 0; Tour.prev := 2; Tour.next := 1 |}
             unitX in
  Tour.vy (Tour.place m) = (-12)%R /\
  (Tour.vx (Tour.place m) * Tour.vx (Tour.place m)
   + Tour.vz (Tour.place m) * Tour.vz (Tour.place m) = 25 * 25)%R.
Proof.
  cbv zeta.
  refine (let H := floor_markers_on_circle unit
                     (Tour.textureLoaded 0 Tour.bearingTour) _ _ in
          conj (proj1 H) (proj1 (proj2 H))).
  vm_compute. left. reflexivity.
Defined.

Section Teleport.
Import Tour.
Local Open Scope R_scope.

Variable OrbitState : Type.
Variable orbitUpdate :
  OrbitState -> Vec3 -> Vec3 -> OrbitState * (Vec3 * Vec3).

Local Abbreviation St := (State OrbitState).










Lemma animationFrame_pose (a : Animation) t (s : St) :
  let s' := animationFrame orbitUpdate a t s in
  let r := orbitUpdate (orbit (controls s)) (fst (animationPose a t))
                       (snd (animationPose a t)) in
  position (camera s') = fst (snd r) /\
  target (controls s') = snd (snd r) /\
  fov (camera s') = fov (camera s) /\
  near (camera s') = near (camera s) /\
  far (camera s') = far (camera s) /\
  currentMode s' = currentMode s /\ pano s' = pano s.
Proof.
  unfold animationFrame, animateCamera, animationPose, animationProgress.
  cbv zeta.
  destruct (Rlt_dec _ 1); simpl; unfold controlsUpdate; simpl;
    destruct (orbitUpdate _ _ _) as [? [? ?]]; simpl; repeat split.
Qed.




(** X19. Fitting the camera to a model sets the near plane to at least
    0.01 and the far plane to 20 box diagonals, so the frustum is proper
    (near below far) exactly for a box diagonal above 0.0005; the field of
    view, the mode and the panorama state are kept. It rewrites the
    overview viewpoint to the fitted pose and leaves the other viewpoints
    at their fixed coordinates, so a later teleport to the overview heads
    for the fitted pose. Without a model it does nothing. *)
Theorem fit_frustum_and_overview (center size : Vec3) (s : St) :
  (model s = None -> fitCameraToModel orbitUpdate center size s = s) /\
  (model s <> None ->
   let s' := fitCameraToModel orbitUpdate center size s in
   let d := fitDiagonal size in
   near (camera s') = Rmax 0.01 (d * 0.001) /\
   0.01 <= near (camera s') /\
   far (camera s') = d * 20 /\
   (near (camera s') < far (camera s') <-> 0.0005 < d) /\
   fov (camera s') = fov (camera s) /\
   currentMode s' = currentMode s /\ pano s' = pano s) /\
  (forall spots old,
     spots "overview"%string = Some old ->
     let fitted := spotsAfterFit spots center size (fov (camera s)) in
     let dist := fitDistance size (fov (camera s)) in
     (forall k, String.eqb k "overview" = false -> fitted k = spots k) /\
     (forall now (s0 : St), isAnimating s0 = false ->
        exists a,
          teleportTo fitted "overview" now s0
          = (setAnimating true s0, Some a) /\
          endTarget a = center /\
          endPos a = {| vx := vx center + dist * 0.7;
                        vy := vy center + dist * 0.5;
                        vz := vz center + dist * 0.7 |})).
Proof.
  split.
  { intros H. unfold fitCameraToModel. rewrite H. reflexivity. }
  split.
  { intros H. cbv zeta. unfold fitCameraToModel.
    destruct (model s) as [b|]; [|contradiction]. clear H.
    unfold controlsUpdate. cbn [camera controls setControls setCamera
      position target orbit].
    destruct (orbitUpdate _ _ _) as [? [? ?]]. simpl.
    change (sqrt (vx size * (vx size * 1) + vy size * (vy size * 1)
                  + vz size * (vz size * 1)))
      with (fitDiagonal size).
    set (d := fitDiagonal size).
    assert (D : 0 <= d) by apply sqrt_pos.
    split; [reflexivity|]. split; [apply Rmax_l|].
    split; [reflexivity|].
    split; [|repeat split].
    unfold Rmax. destruct (Rle_dec 0.01 (d * 0.001)); split; lra. }
  intros spots old Ho. cbv zeta. split.
  { intros k Hk. unfold spotsAfterFit. rewrite Hk. reflexivity. }
  intros now s0 Ha.
  eexists. split.
  { unfold teleportTo, lookupSpot, spotsAfterFit. simpl String.eqb.
    rewrite Ho, Ha. reflexivity. }
  cbn [endTarget endPos fittedOverview spotTarget spotPosition].
  split; [destruct center; reflexivity|reflexivity].
Qed.

End Teleport.


Lemma fit_frustum_and_overview_witness :
  let s' := Tour.fitCameraToModel Tour.restingOrbit origin origin
              Tour.readyTour in
  (0.01 <= Tour.near (Tour.camera s'))%R /\
  ~ (Tour.near (Tour.camera s') < Tour.far (Tour.camera s'))%R.
Proof.
  cbv zeta.
  destruct (fit_frustum_and_overview unit Tour.restingOrbit origin origin
              Tour.readyTour) as (_ & H & _).
  destruct H as (_ & N & _ & F & _); [discriminate|].
  split; [exact N|]. intros L. apply F in L.
  unfold Tour.fitDiagonal, origin in L. simpl in L.
  replace (0 * (0 * 1) + 0 * (0 * 1) + 0 * (0 * 1))%R with 0%R in L by ring.
  rewrite sqrt_0 in L. lra.
Defined.

Section LegacyModes.
Import Tour.
Import LegacyView.
Local Open Scope R_scope.

Lemma sameMode_refl m : sameMode m m = true.
Proof. destruct m; reflexivity. Qed.

Lemma sameMode_eq a b : sameMode a b = true -> a = b.
Proof. destruct a, b; simpl; intros H; congruence. Qed.

Lemma teleportTo_view k now (v : View) :
  let v' := LegacyView.teleportTo k now v in
  LegacyView.currentMode v' = LegacyView.currentMode v /\
  cameraNear v' = cameraNear v /\ minDistance v' = minDistance v /\
  maxPolarAngle v' = maxPolarAngle v /\
  cameraPosition v' = cameraPosition v /\
  controlsTarget v' = controlsTarget v.
Proof.
  unfold LegacyView.teleportTo.
  destruct (lookupSpot (spots v) k);
    try destruct (LegacyView.isAnimating v); simpl; auto 10.
Qed.

Lemma teleportTo_busy k now (v : View) :
  LegacyView.isAnimating v = true ->
  LegacyView.teleportTo k now v = v.
Proof.
  intros H. unfold LegacyView.teleportTo. rewrite H.
  destruct (lookupSpot (spots v) k); reflexivity.
Qed.

Lemma setMode_mode m now (v : View) :
  LegacyView.currentMode (setMode m now v) = m.
Proof.
  unfold setMode. destruct (sameMode m (LegacyView.currentMode v)) eqn:E.
  - symmetry. apply sameMode_eq, E.
  - destruct m;
      match goal with
      | |- context [LegacyView.teleportTo ?k ?n ?w] =>
          destruct (teleportTo_view k n w) as [-> _]
      end; reflexivity.
Qed.

(** X20. In the legacy viewer a mode switch always takes effect at once on
    the mode and the near plane (0.1 for the dollhouse, 0.01 inside), and
    asking for the current mode does nothing, so a switch is idempotent.
    The flight to the mode's viewpoint starts only when no flight is
    running: a switch during a flight keeps the old flight. Hence going
    inside and straight back leaves the viewer in dollhouse mode while the
    camera still flies to the living room. *)
Theorem legacy_mode_switch (m : ViewMode) (now : R) (v : View) :
  let v' := setMode m now v in
  LegacyView.currentMode v' = m /\
  (LegacyView.currentMode v = m -> v' = v) /\
  (forall now', setMode m now' v' = v') /\
  (LegacyView.currentMode v <> m ->
   cameraNear v' = match m with DollhouseView => 0.1 | InsideView => 0.01 end
   /\ cameraPosition v' = cameraPosition v
   /\ (LegacyView.isAnimating v = true ->
       flight v' = flight v /\ LegacyView.isAnimating v' = true)) /\
  (forall spot now2,
     m = InsideView -> LegacyView.currentMode v = DollhouseView ->
     LegacyView.isAnimating v = false ->
     spots v "living"%string = Some spot ->
     let v2 := setMode DollhouseView now2 v' in
     LegacyView.currentMode v2 = DollhouseView /\
     cameraNear v2 = 0.1 /\
     LegacyView.isAnimating v2 = true /\
     flight v2 = Some {| startTime := now;
                         startPos := cameraPosition v;
                         endPos := spotPosition spot;
                         startTarget := controlsTarget v;
                         endTarget := spotTarget spot |}).
Proof.
  cbv zeta.
  split; [apply setMode_mode|].
  split.
  { intros H. unfold setMode. rewrite H, sameMode_refl. reflexivity. }
  split.
  { intros now'. unfold setMode at 1. rewrite setMode_mode, sameMode_refl.
    reflexivity. }
  split.
  { intros H. unfold setMode.
    destruct (sameMode m (LegacyView.currentMode v)) eqn:E.
    { apply sameMode_eq in E. congruence. }
    destruct m;
      match goal with
      | |- context [LegacyView.teleportTo ?k ?n ?w] =>
          destruct (teleportTo_view k n w) as (_ & -> & _ & _ & -> & _)
      end; (split; [reflexivity|]); (split; [reflexivity|]);
      intros A; rewrite teleportTo_busy by exact A; simpl; auto. }
  intros spot now2 -> Hm Ha Hs.
  assert (E1 : setMode InsideView now v
               = {| LegacyView.currentMode := InsideView;
                    LegacyView.isAnimating := true;
                    cameraPosition := cameraPosition v;
                    cameraNear := 0.01;
                    controlsTarget := controlsTarget v;
                    minDistance := 0.1;
                    maxPolarAngle := PI * 0.95;
                    modelBoundingBox := modelBoundingBox v;
                    spots := spots v;
                    flight := Some {| startTime := now;
                                      startPos := cameraPosition v;
                                      endPos := spotPosition spot;
                                      startTarget := controlsTarget v;
                                      endTarget := spotTarget spot |} |}).
  { unfold setMode. rewrite Hm. simpl sameMode. cbv iota.
    unfold LegacyView.teleportTo, lookupSpot.
    cbn [spots LegacyView.isAnimating].
    rewrite Hs, Ha. reflexivity. }
  rewrite E1. unfold setMode. simpl sameMode. cbv iota.
  rewrite teleportTo_busy by reflexivity. simpl. auto.
Qed.

End LegacyModes.

Lemma legacy_mode_switch_witness :
  let v := {| LegacyView.currentMode := LegacyView.DollhouseView;
              LegacyView.isAnimating := false;
              LegacyView.cameraPosition := {| Tour.vx := 10; Tour.vy := 8;
                                              Tour.vz := 10 |};
              LegacyView.cameraNear := 0.1;
              LegacyView.controlsTarget := origin;
              LegacyView.minDistance := 1;
              LegacyView.maxPolarAngle := PI * 0.9;
              LegacyView.modelBoundingBox := None;
              LegacyView.spots := LegacyView.SPOTS;
              LegacyView.flight := None |} in
  let v2 := LegacyView.setMode LegacyView.DollhouseView 200
              (LegacyView.setMode LegacyView.InsideView 100 v) in
  LegacyView.currentMode v2 = LegacyView.DollhouseView /\
  option_map Tour.endPos (LegacyView.flight v2)
  = Some {| Tour.vx := 2; Tour.vy := 1.6; Tour.vz := 2 |}.
Proof.
  cbv zeta.
  match goal with
  | |- context [LegacyView.setMode LegacyView.InsideView 100 ?v] =>
      destruct (legacy_mode_switch LegacyView.InsideView 100 v)
        as (_ & _ & _ & _ & H)
  end.
  destruct (H _ 200%R eq_refl eq_refl eq_refl eq_refl)
    as (M & _ & _ & F).
  split; [exact M|]. rewrite F. reflexivity.
Defined.

Section PageChrome.
Import Page.
Local Open Scope R_scope.

Lemma react_sync a n : menuInSync n -> menuInSync (react a n).
Proof.
  unfold menuInSync. intros [H1 H2].
  destruct a as [y| |href found navHeight| |key]; simpl.
  - auto.
  - rewrite H1. auto.
  - unfold handleAnchorClick.
    destruct (isAnchor href); [destruct found|]; simpl; auto.
  - auto.
  - unfold onKeyDown. destruct (String.eqb key "Escape"); simpl; auto.
Qed.

Lemma react_overlay a n :
  overlayHidden n = true -> overlayHidden (react a n) = true.
Proof.
  intros H. destruct a as [y| |href found navHeight| |key]; simpl;
    try exact H; try reflexivity.
  - unfold handleAnchorClick.
    destruct (isAnchor href); [destruct found|]; simpl; exact H.
  - unfold onKeyDown. destruct (String.eqb key "Escape"); simpl; exact H.
Qed.

(** X21. On the page, the menu button, the menu and the scroll lock of the
    body stay in step whatever the visitor does (scroll, toggle, follow
    links, press keys, open the tour): the lock is on exactly while the
    menu is open. From such a state two toggles give the state back, and
    Escape or a link to a section that exists closes the menu; a link to a
    missing section or to another page leaves everything as it was. The
    tour overlay, once dismissed, stays dismissed. *)
Theorem page_menu_in_sync :
  (forall actions n, menuInSync n -> menuInSync (reactAll actions n)) /\
  (forall n, menuInSync n -> toggleMobileMenu (toggleMobileMenu n) = n) /\
  (forall n, menuActive (react (Key "Escape") n) = false) /\
  (forall n href top navHeight,
     isAnchor href = true ->
     let n' := react (AnchorClick href (Some top) navHeight) n in
     menuActive n' = false /\ overflowHidden n' = false /\
     scrollTop n' = top - navHeight) /\
  (forall n href found navHeight,
     isAnchor href = false \/ found = None ->
     react (AnchorClick href found navHeight) n = n) /\
  (forall actions n,
     overlayHidden n = true -> overlayHidden (reactAll actions n) = true).
Proof.
  split.
  { intros actions. induction actions as [|a r IH]; intros n H; simpl.
    - exact H.
    - apply IH, react_sync, H. }
  split.
  { intros [sc t m o ov st] [H1 H2]. simpl in H1, H2. subst t o.
    unfold toggleMobileMenu. simpl. rewrite Bool.negb_involutive.
    reflexivity. }
  split. { intros n. reflexivity. }
  split.
  { intros n href top navHeight H. cbv zeta. simpl.
    unfold handleAnchorClick. rewrite H. simpl. auto. }
  split.
  { intros n href found navHeight [H|H]; simpl; unfold handleAnchorClick.
    - rewrite H. reflexivity.
    - rewrite H. destruct (isAnchor href); reflexivity. }
  intros actions. induction actions as [|a r IH]; intros n H; simpl.
  - exact H.
  - apply IH, react_overlay, H.
Qed.

End PageChrome.

Lemma page_menu_in_sync_witness :
  let n0 := {| Page.scrolled := false; Page.toggleActive := false;
               Page.menuActive := false; Page.overflowHidden := false;
               Page.overlayHidden := false; Page.scrollTop := 0 |} in
  menuInSync
    (Page.reactAll [Page.ToggleClick; Page.Scroll 80;
                    Page.AnchorClick "#rooms" None 64;
                    Page.Key "Enter"] n0).
Proof.
  destruct page_menu_in_sync as (H & _).
  apply H. unfold menuInSync. simpl. auto.
Defined.

Section TwoWay.
Import Tour.
Local Open Scope R_scope.

Lemma connections_symmetric i j :
  In j (connections i) -> In i (connections j).
Proof.
  unfold connections.
  destruct i as [z| | |]; try (simpl; tauto).
  destruct z as [|p|p]; try (simpl; tauto).
  repeat (destruct p as [p|p|]; try (simpl; tauto));
    simpl; intros H;
    repeat (destruct H as [<-|H]; [simpl; tauto|]); destruct H.
Qed.

Lemma connections_finite i j : In j (connections i) -> exists z, i = Js.Fin z.
Proof.
  destruct i as [z| | |]; try (simpl; tauto). intros _. exists z. reflexivity.
Qed.

Lemma currentPano_after_navigate (O : Type) (s : State O) p :
  wellSlotted (panoGraph (pano s)) -> In p (panoGraph (pano s)) ->
  currentPano (pano (navigatePano (Some p) s)) = Some p.
Proof.
  intros W Hin. unfold navigatePano, currentPano. simpl.
  destruct (Z.ltb_spec (Z.of_nat (arrayIdx p)) 0) as [L|L]; [lia|].
  rewrite Nat2Z.id. apply slot_of_member; assumption.
Qed.

(** X22. Floor markers are two-way. When the active node shows a marker to
    a neighbour, walking there makes the neighbour the active node, and the
    markers built for it include one that leads back to a node with the
    index of the node just left: the connection table is symmetric, and the
    node just left has a position since it showed markers. *)
Theorem floor_markers_two_way (O : Type) (s : State O) (p : PanoNode)
  (m : Marker) :
  wellSlotted (panoGraph (pano s)) ->
  currentPano (pano s) = Some p ->
  In m (panoArrows (pano (createPanoArrows s))) ->
  let s1 := navigatePano (Some (goal m)) s in
  currentPano (pano s1) = Some (goal m) /\
  exists m', In m' (panoArrows (pano (createPanoArrows s1))) /\
             index (goal m') = index p.
Proof.
  intros W Hp Hm.
  destruct (hotspotPositions s (index p)) as [cur|] eqn:Hc.
  2:{ exfalso. unfold createPanoArrows in Hm.
      change (currentPano (pano (removePanoArrows s)))
        with (currentPano (pano s)) in Hm.
      rewrite Hp in Hm.
      change (hotspotPositions (removePanoArrows s))
        with (hotspotPositions s) in Hm.
      rewrite Hc in Hm. exact Hm. }
  rewrite (createPanoArrows_arrows O s p cur Hp Hc) in Hm.
  apply arrowsTo_sound in Hm. destruct Hm as (t & q & Ht & G & Hq & _).
  pose proof (getPanoByNumber_index _ _ _ G) as It.
  assert (Hin : In (goal m) (panoGraph (pano s))).
  { unfold getPanoByNumber in G. apply find_some in G. apply G. }
  pose proof (currentPano_after_navigate O s (goal m) W Hin) as C1.
  cbv zeta. split; [exact C1|].
  assert (Hq1 : hotspotPositions (navigatePano (Some (goal m)) s)
                  (index (goal m)) = Some q).
  { rewrite It. exact Hq. }
  rewrite (createPanoArrows_arrows O _ _ _ C1 Hq1).
  change (panoGraph (pano (navigatePano (Some (goal m)) s)))
    with (panoGraph (pano s)).
  change (hotspotPositions (navigatePano (Some (goal m)) s))
    with (hotspotPositions s).
  assert (Pin : In p (panoGraph (pano s))).
  { unfold currentPano in Hp.
    destruct (currentPanoIndex (pano s) <? 0)%Z; [discriminate|].
    apply nth_error_In in Hp. exact Hp. }
  destruct (connections_finite _ _ Ht) as [z Hz].
  destruct (getPanoByNumber (panoGraph (pano s)) (index p)) as [p'|] eqn:G'.
  2:{ exfalso. pose proof (getPanoByNumber_absent _ _ G' p Pin) as F.
      rewrite Hz in F. simpl in F. rewrite Z.eqb_refl in F.
      discriminate. }
  exists (markerFor (index (goal m)) q p' cur). split.
  - apply arrowsTo_complete with (t := index p).
    + apply connections_symmetric. rewrite It. exact Ht.
    + exact G'.
    + exact Hc.
  - simpl. apply (getPanoByNumber_index _ _ _ G').
Qed.

End TwoWay.

Lemma floor_markers_two_way_witness :
  let room3 := {| Tour.file := "a-3.jpg"; Tour.index := Js.Fin 3;
                  Tour.arrayIdx := 0; Tour.prev := 2; Tour.next := 1 |} in
  let s1 := Tour.navigatePano (Some room3) Tour.bearingTour in
  Tour.currentPano (Tour.pano s1) = Some room3 /\
  exists m', In m' (Tour.panoArrows (Tour.pano (Tour.createPanoArrows s1)))
             /\ Tour.index (Tour.goal m') = Js.Fin 4.
Proof.
  cbv zeta.
  refine (floor_markers_two_way unit Tour.bearingTour
            {| Tour.file := "a-4.jpg"; Tour.index := Js.Fin 4;
               Tour.arrayIdx := 1; Tour.prev := 0; Tour.next := 2 |}
            (markerFor (Js.Fin 4) origin
               {| Tour.file := "a-3.jpg"; Tour.index := Js.Fin 3;
                  Tour.arrayIdx := 0; Tour.prev := 2; Tour.next := 1 |}
               unitX) _ _ _).
  - intros k p H. vm_compute in H.
    do 3 (destruct k as [|k]; [injection H as <-; reflexivity|]).
    destruct k; discriminate.
  - reflexivity.
  - vm_compute. left. reflexivity.
Defined.

Section StartUp.
Import Tour.
Local Open Scope R_scope.

Variable OrbitState : Type.
Variable orbitUpdate :
  OrbitState -> Vec3 -> Vec3 -> OrbitState * (Vec3 * Vec3).

(** X23. Start-up does not depend on which load ends first. The model may
    arrive before, between or after the manifest and the hotspot
    positions, and these two in either order, with the joint callback
    after both: the tour always ends in the same state, with one hotspot
    per graph node that has a position, in graph order, fitted camera
    included. *)
Theorem startup_order_independent (o : OrbitState) (res : Fetched)
  (fromFile stored : option (Js.num -> option Vec3)) (center size : Vec3) :
  let a := ManifestLoaded res in
  let b := HotspotsLoaded fromFile stored in
  let g := GraphReady in
  let m := ModelLoaded center size in
  let final := run orbitUpdate [a; b; g; m] (initial o) in
  Forall (fun inputs => run orbitUpdate inputs (initial o) = final)
    [[m; a; b; g]; [a; m; b; g]; [a; b; m; g];
     [m; b; a; g]; [b; m; a; g]; [b; a; m; g]; [b; a; g; m]] /\
  hotspotMeshes final
  = hotspotSpheres (hotspotPositions final) (panoGraph (pano final)) /\
  panoGraph (pano final) = loadManifest res [] /\
  currentMode final = Dollhouse.
Proof.
  cbv zeta.
  set (h := match fromFile, stored with
            | Some data, _ => data
            | None, Some data => data
            | None, None => DEFAULT_HOTSPOTS
            end).
  assert (HP : forall s : State OrbitState,
            hotspotPositionsLoaded fromFile stored s
            = setHotspotPositions h s).
  { intros s. subst h. unfold hotspotPositionsLoaded.
    destruct fromFile; destruct stored; reflexivity. }
  clearbody h.
  split; [repeat apply Forall_cons; try apply Forall_nil|];
    cbn [run handle]; rewrite ?HP;
    unfold graphReady, modelLoaded, createHotspotMeshes, fitCameraToModel,
      manifestLoaded, controlsUpdate;
    cbn -[Rmax sqrt tan PI Rplus Rmult Rdiv Rinv IZR pow loadManifest
          hotspotSpheres];
    destruct (orbitUpdate _ _ _) as [? [? ?]];
    cbn -[Rmax sqrt tan PI Rplus Rmult Rdiv Rinv IZR pow loadManifest
          hotspotSpheres];
    auto.
Qed.

End StartUp.
